(** * A shallow embedding of the compiler front end

    The development follows the Python packages of the repository:
    [src/lexer] (tokens and the scanner), [src/ast], [src/parser]
    (recursive descent with panic-mode recovery) and [src/semantic]
    (types, symbol tables and the tree-walking analyzer).

    Conventions of the embedding.
    - Python [int] is [Z]; list indices and cursor positions are [nat].
    - A Python [str] is a [string]; one [ascii] stands for one code point
      below 256, and the character classes below are those of [str.isspace],
      [str.isdigit], [str.isalpha] and [str.isalnum] on that range.
    - Every [while] loop and every recursive method takes a [fuel]
      argument; running out of fuel is a distinguished outcome that the
      theorems rule out for enough fuel.
    - Raised exceptions are outcomes carrying the state at the raise.
    - Objects that are mutated after they have been shared (symbols and
      function types) live in a store and are referred to by address. *)

From Stdlib Require Import ZArith List String Ascii Bool Arith Lia.
Import ListNotations.
Local Open Scope string_scope.
Local Open Scope nat_scope.
Set Warnings "-register-all".

(** ** src/lexer/token.py *)

Module TokenType.

Inductive t : Set :=
  | 整数 | 浮点数 | 字符串 | 布尔值
  | 标识符
  | 函数 | 返回 | 如果 | 否则 | 当 | 对于 | 真 | 假 | 空
  | 加 | 减 | 乘 | 除 | 模
  | 等于 | 不等于 | 小于 | 大于 | 小于等于 | 大于等于
  | 与 | 或 | 非
  | 赋值
  | 左括号 | 右括号 | 左大括号 | 右大括号 | 左方括号 | 右方括号
  | 分号 | 逗号 | 点
  | 换行 | 文件结束
  | 错误.

Definition eq_dec (a b : t) : {a = b} + {a <> b}.
Proof. decide equality. Defined.

Definition eqb (a b : t) : bool := if eq_dec a b then true else false.

(** [x in {a, b, ...}] on token kinds. *)
Definition mem (x : t) (l : list t) : bool := existsb (eqb x) l.

End TokenType.

(** The payload of a token (the field annotated [Any]): an [int], a
    [float], a [str], a [bool] or [None].  A float is kept as the text it
    was converted from. *)
Inductive Value : Set :=
  | VInt (z : Z)
  | VFloat (text : string)
  | VStr (s : string)
  | VBool (b : bool)
  | VNone.

Definition Value_eq_dec (a b : Value) : {a = b} + {a <> b}.
Proof.
  decide equality; first [apply Z.eq_dec | apply string_dec | apply bool_dec].
Defined.

Module Token.

Record t : Set := mk {
  类型 : TokenType.t;
  值 : Value;
  行号 : Z;
  列号 : Z
}.

Definition is_type (self : t) (token_type : TokenType.t) : bool :=
  TokenType.eqb (类型 self) token_type.

Definition is_literal (self : t) : bool :=
  TokenType.mem (类型 self)
    [TokenType.整数; TokenType.浮点数; TokenType.字符串; TokenType.布尔值].

Definition is_operator (self : t) : bool :=
  TokenType.mem (类型 self)
    [TokenType.加; TokenType.减; TokenType.乘; TokenType.除; TokenType.模;
     TokenType.等于; TokenType.不等于;
     TokenType.小于; TokenType.大于; TokenType.小于等于; TokenType.大于等于;
     TokenType.与; TokenType.或; TokenType.非;
     TokenType.赋值].

Definition is_keyword (self : t) : bool :=
  TokenType.mem (类型 self)
    [TokenType.函数; TokenType.返回; TokenType.如果; TokenType.否则;
     TokenType.当; TokenType.对于; TokenType.真; TokenType.假; TokenType.空].

End Token.

(** A Python [dict] with [str] keys, as an association list in insertion
    order; [dict_get] is [d.get(k)]. *)
Fixpoint dict_get {A : Type} (d : list (string * A)) (k : string) : option A :=
  match d with
  | [] => None
  | (k', v) :: d' => if String.eqb k k' then Some v else dict_get d' k
  end.

Definition KEYWORDS : list (string * TokenType.t) :=
  [ ("func", TokenType.函数);
    ("return", TokenType.返回);
    ("if", TokenType.如果);
    ("else", TokenType.否则);
    ("while", TokenType.当);
    ("for", TokenType.对于);
    ("true", TokenType.真);
    ("false", TokenType.假);
    ("null", TokenType.空) ].

(** ** Python's character classes on code points below 256 *)

Definition ord (c : ascii) : nat := nat_of_ascii c.

Definition between (lo hi : nat) (c : ascii) : bool :=
  (lo <=? ord c) && (ord c <=? hi).

Definition isspace (c : ascii) : bool :=
  between 9 13 c || between 28 32 c || between 133 133 c || between 160 160 c.

Definition isdecimal (c : ascii) : bool := between 48 57 c.

Definition isdigit (c : ascii) : bool :=
  between 48 57 c || between 178 179 c || between 185 185 c.

Definition isalpha (c : ascii) : bool :=
  between 65 90 c || between 97 122 c || between 170 170 c
  || between 181 181 c || between 186 186 c || between 192 214 c
  || between 216 246 c || between 248 255 c.

Definition isalnum (c : ascii) : bool :=
  isalpha c || isdigit c || between 188 190 c.

Definition NEWLINE : ascii := "010"%char.
Definition TAB : ascii := "009"%char.
Definition CR : ascii := "013"%char.
Definition DQUOTE : ascii := "034"%char.
Definition SQUOTE : ascii := "'"%char.
Definition BACKSLASH : ascii := "\"%char.
Definition DOT : ascii := "."%char.

(** A one-character [str]. *)
Definition str1 (c : ascii) : string := String c EmptyString.

(** [s.endswith(c)] for a single character. *)
Fixpoint endswith (s : string) (c : ascii) : bool :=
  match s with
  | EmptyString => false
  | String a EmptyString => Ascii.eqb a c
  | String _ s' => endswith s' c
  end.

(** [s[:-1]]. *)
Fixpoint drop_last (s : string) : string :=
  match s with
  | EmptyString => EmptyString
  | String _ EmptyString => EmptyString
  | String a s' => String a (drop_last s')
  end.

Fixpoint all_chars (p : ascii -> bool) (s : string) : bool :=
  match s with
  | EmptyString => true
  | String a s' => p a && all_chars p s'
  end.

Fixpoint digits_value (acc : Z) (s : string) : Z :=
  match s with
  | EmptyString => acc
  | String a s' => digits_value (10 * acc + Z.of_nat (ord a - 48)) s'
  end.

(** [int(s)] on the strings the scanner builds (characters accepted by
    [isdigit]): the value when every character is a decimal digit, and
    [None] for the [ValueError] Python raises otherwise (a superscript
    digit is [isdigit] but not decimal).  The interpreter's optional cap
    on the number of digits is not modelled. *)
Definition py_int (s : string) : option Z :=
  match s with
  | EmptyString => None
  | _ => if all_chars isdecimal s then Some (digits_value 0 s) else None
  end.

(** [float(s)] on the strings the scanner builds (digits around one
    retained dot): the text itself when the digits are decimal, [None]
    for [ValueError]. *)
Definition py_float (s : string) : option string :=
  if all_chars (fun c => isdecimal c || Ascii.eqb c DOT) s then Some s else None.

(** ** src/lexer/lexer.py *)

Module Lexer.

Inductive exn : Set :=
  | LexerError (message : string) (line column : Z)
  | ValueError.

Record t : Set := mk {
  source : string;
  length : nat;
  position : nat;
  line : Z;
  column : Z;
  current_char : option ascii
}.

(** What a method does: return a value in a new scanner state, raise, or
    exhaust its fuel. *)
Inductive outcome (A : Type) : Type :=
  | Ret (a : A) (self : t)
  | Raise (e : exn)
  | OutOfFuel.
Arguments Ret {A} a self.
Arguments Raise {A} e.
Arguments OutOfFuel {A}.

Definition bind {A B} (m : outcome A) (k : A -> t -> outcome B) : outcome B :=
  match m with
  | Ret a self => k a self
  | Raise e => Raise e
  | OutOfFuel => OutOfFuel
  end.

(** [Lexer(source_code)]. *)
Definition init (source_code : string) : t :=
  {| source := source_code;
     length := String.length source_code;
     position := 0;
     line := 1;
     column := 1;
     current_char := String.get 0 source_code |}.

Definition error {A} (message : string) (self : t) : outcome A :=
  Raise (LexerError message (line self) (column self)).

Definition is_char (o : option ascii) (c : ascii) : bool :=
  match o with
  | Some a => Ascii.eqb a c
  | None => false
  end.

Definition advance (self : t) : t :=
  let nl := is_char (current_char self) NEWLINE in
  let p := S (position self) in
  {| source := source self;
     length := length self;
     position := p;
     line := if nl then (line self + 1)%Z else line self;
     column := if nl then 1%Z else (column self + 1)%Z;
     current_char := if length self <=? p then None else String.get p (source self) |}.

Definition peek (self : t) (offset : nat) : option ascii :=
  let peek_pos := position self + offset in
  if length self <=? peek_pos then None else String.get peek_pos (source self).

Fixpoint skip_whitespace (fuel : nat) (self : t) : outcome unit :=
  match fuel with
  | O => OutOfFuel
  | S fuel' =>
    match current_char self with
    | Some c =>
      if isspace c && negb (Ascii.eqb c NEWLINE)
      then skip_whitespace fuel' (advance self)
      else Ret tt self
    | None => Ret tt self
    end
  end.

(** The loop of [skip_line_comment], after the two slashes. *)
Fixpoint skip_to_eol (fuel : nat) (self : t) : outcome unit :=
  match fuel with
  | O => OutOfFuel
  | S fuel' =>
    match current_char self with
    | Some c =>
      if negb (Ascii.eqb c NEWLINE)
      then skip_to_eol fuel' (advance self)
      else Ret tt self
    | None => Ret tt self
    end
  end.

Definition skip_line_comment (fuel : nat) (self : t) : outcome unit :=
  skip_to_eol fuel (advance (advance self)).

(** The loop of [read_number]; returns [(number_str, has_dot)]. *)
Fixpoint read_number_loop (fuel : nat) (self : t) (number_str : string)
    (has_dot : bool) : outcome (string * bool) :=
  match fuel with
  | O => OutOfFuel
  | S fuel' =>
    match current_char self with
    | Some c =>
      if isdigit c || Ascii.eqb c DOT then
        if Ascii.eqb c DOT && has_dot
        then Ret (number_str, has_dot) self
        else read_number_loop fuel' (advance self) (number_str ++ str1 c)
               (if Ascii.eqb c DOT then true else has_dot)
      else Ret (number_str, has_dot) self
    | None => Ret (number_str, has_dot) self
    end
  end.

Definition read_number (fuel : nat) (self : t) : outcome Token.t :=
  let start_line := line self in
  let start_column := column self in
  bind (read_number_loop fuel self "" false) (fun r self1 =>
    let '(number_str, has_dot) := r in
    let '(self2, number_str, has_dot) :=
      if endswith number_str DOT
      then ({| source := source self1;
               length := length self1;
               position := position self1 - 1;
               line := line self1;
               column := (column self1 - 1)%Z;
               current_char := Some DOT |},
            drop_last number_str, false)
      else (self1, number_str, has_dot) in
    if has_dot then
      match py_float number_str with
      | Some value => Ret (Token.mk TokenType.浮点数 (VFloat value) start_line start_column) self2
      | None => Raise ValueError
      end
    else
      match py_int number_str with
      | Some value => Ret (Token.mk TokenType.整数 (VInt value) start_line start_column) self2
      | None => Raise ValueError
      end).

Definition escape_chars (c : ascii) : ascii :=
  if Ascii.eqb c "n" then NEWLINE
  else if Ascii.eqb c "t" then TAB
  else if Ascii.eqb c "r" then CR
  else c.

(** The loop of [read_string]; returns [string_value]. *)
Fixpoint read_string_loop (fuel : nat) (self : t) (quote_char : option ascii)
    (string_value : string) : outcome string :=
  match fuel with
  | O => OutOfFuel
  | S fuel' =>
    match current_char self with
    | Some c =>
      if negb (is_char quote_char c) then
        if Ascii.eqb c BACKSLASH then
          let self1 := advance self in
          match current_char self1 with
          | None => error "字符串未闭合" self1
          | Some e =>
            read_string_loop fuel' (advance self1) quote_char
              (string_value ++ str1 (escape_chars e))
          end
        else read_string_loop fuel' (advance self) quote_char (string_value ++ str1 c)
      else Ret string_value self
    | None => Ret string_value self
    end
  end.

Definition read_string (fuel : nat) (self : t) : outcome Token.t :=
  let start_line := line self in
  let start_column := column self in
  let quote_char := current_char self in
  bind (read_string_loop fuel (advance self) quote_char "") (fun string_value self1 =>
    match current_char self1, quote_char with
    | Some c, Some q =>
      if Ascii.eqb c q
      then Ret (Token.mk TokenType.字符串 (VStr string_value) start_line start_column)
               (advance self1)
      else error "字符串未闭合" self1
    | None, None =>
      Ret (Token.mk TokenType.字符串 (VStr string_value) start_line start_column)
          (advance self1)
    | _, _ => error "字符串未闭合" self1
    end).

(** The loop of [read_identifier]; returns [identifier]. *)
Fixpoint read_identifier_loop (fuel : nat) (self : t) (identifier : string)
    : outcome string :=
  match fuel with
  | O => OutOfFuel
  | S fuel' =>
    match current_char self with
    | Some c =>
      if isalnum c || Ascii.eqb c "_"
      then read_identifier_loop fuel' (advance self) (identifier ++ str1 c)
      else Ret identifier self
    | None => Ret identifier self
    end
  end.

Definition read_identifier (fuel : nat) (self : t) : outcome Token.t :=
  let start_line := line self in
  let start_column := column self in
  bind (read_identifier_loop fuel self "") (fun identifier self1 =>
    let token_type :=
      match dict_get KEYWORDS identifier with
      | Some k => k
      | None => TokenType.标识符
      end in
    match token_type with
    | TokenType.真 => Ret (Token.mk TokenType.布尔值 (VBool true) start_line start_column) self1
    | TokenType.假 => Ret (Token.mk TokenType.布尔值 (VBool false) start_line start_column) self1
    | TokenType.空 => Ret (Token.mk TokenType.布尔值 VNone start_line start_column) self1
    | _ => Ret (Token.mk token_type (VStr identifier) start_line start_column) self1
    end).

Definition single_char_tokens : list (ascii * TokenType.t) :=
  [ ("+"%char, TokenType.加);
    ("-"%char, TokenType.减);
    ("*"%char, TokenType.乘);
    ("/"%char, TokenType.除);
    ("%"%char, TokenType.模);
    ("="%char, TokenType.赋值);
    ("<"%char, TokenType.小于);
    (">"%char, TokenType.大于);
    ("!"%char, TokenType.非);
    ("("%char, TokenType.左括号);
    (")"%char, TokenType.右括号);
    ("{"%char, TokenType.左大括号);
    ("}"%char, TokenType.右大括号);
    ("["%char, TokenType.左方括号);
    ("]"%char, TokenType.右方括号);
    (";"%char, TokenType.分号);
    (","%char, TokenType.逗号);
    ("."%char, TokenType.点) ].

Fixpoint char_get {A : Type} (d : list (ascii * A)) (k : ascii) : option A :=
  match d with
  | [] => None
  | (k', v) :: d' => if Ascii.eqb k k' then Some v else char_get d' k
  end.

(** The six two-character operators, tried in the order of the source. *)
Definition double_char_tokens : list (ascii * ascii * TokenType.t * string) :=
  [ ("="%char, "="%char, TokenType.等于, "==");
    ("!"%char, "="%char, TokenType.不等于, "!=");
    ("<"%char, "="%char, TokenType.小于等于, "<=");
    (">"%char, "="%char, TokenType.大于等于, ">=");
    ("&"%char, "&"%char, TokenType.与, "&&");
    ("|"%char, "|"%char, TokenType.或, "||") ].

Fixpoint double_get (d : list (ascii * ascii * TokenType.t * string))
    (c : ascii) (next : option ascii) : option (TokenType.t * string) :=
  match d with
  | [] => None
  | (a, b, k, s) :: d' =>
    if Ascii.eqb c a && is_char next b then Some (k, s) else double_get d' c next
  end.

Fixpoint next_token (fuel : nat) (self : t) : outcome Token.t :=
  match fuel with
  | O => OutOfFuel
  | S fuel' =>
    match current_char self with
    | None => Ret (Token.mk TokenType.文件结束 VNone (line self) (column self)) self
    | Some c =>
      let start_line := line self in
      let start_column := column self in
      if isspace c && negb (Ascii.eqb c NEWLINE) then
        bind (skip_whitespace fuel' self) (fun _ self1 => next_token fuel' self1)
      else if Ascii.eqb c NEWLINE then
        Ret (Token.mk TokenType.换行 (VStr (str1 NEWLINE)) start_line start_column)
            (advance self)
      else if isdigit c then read_number fuel' self
      else if Ascii.eqb c DQUOTE || Ascii.eqb c SQUOTE then read_string fuel' self
      else if isalpha c || Ascii.eqb c "_" then read_identifier fuel' self
      else if Ascii.eqb c "/" && is_char (peek self 1) "/" then
        bind (skip_line_comment fuel' self) (fun _ self1 => next_token fuel' self1)
      else
        match double_get double_char_tokens c (peek self 1) with
        | Some (token_type, text) =>
          Ret (Token.mk token_type (VStr text) start_line start_column)
              (advance (advance self))
        | None =>
          match char_get single_char_tokens c with
          | Some token_type =>
            Ret (Token.mk token_type (VStr (str1 c)) start_line start_column)
                (advance self)
          | None =>
            Ret (Token.mk TokenType.错误 (VStr (str1 c)) start_line start_column)
                (advance self)
          end
        end
    end
  end.

(** The loop of [tokenize]. *)
Fixpoint tokenize_loop (fuel : nat) (self : t) (tokens : list Token.t)
    : outcome (list Token.t) :=
  match fuel with
  | O => OutOfFuel
  | S fuel' =>
    bind (next_token fuel' self) (fun token self1 =>
      let tokens := (tokens ++ [token])%list in
      if TokenType.eqb (Token.类型 token) TokenType.文件结束
      then Ret tokens self1
      else tokenize_loop fuel' self1 tokens)
  end.

Definition tokenize (fuel : nat) (self : t) : outcome (list Token.t) :=
  tokenize_loop fuel self [].

(** [__next__]: [None] stands for the [StopIteration] it raises at the end
    of the input. *)
Definition next_ (fuel : nat) (self : t) : outcome (option Token.t) :=
  bind (next_token fuel self) (fun token self1 =>
    if TokenType.eqb (Token.类型 token) TokenType.文件结束
    then Ret None self1
    else Ret (Some token) self1).

(** [list(lexer)], as in the tests: [__iter__] returns the scanner itself
    and [__next__] is called until it raises [StopIteration]. *)
Fixpoint list_loop (fuel : nat) (self : t) (tokens : list Token.t)
    : outcome (list Token.t) :=
  match fuel with
  | O => OutOfFuel
  | S fuel' =>
    bind (next_ fuel' self) (fun item self1 =>
      match item with
      | Some token => list_loop fuel' self1 (tokens ++ [token])%list
      | None => Ret tokens self1
      end)
  end.

Definition list_ (fuel : nat) (self : t) : outcome (list Token.t) :=
  list_loop fuel self [].

End Lexer.

(** ** src/ast *)

(** Every node carries the position its constructor passes to [ASTNode]:
    a binary or unary node that of its operator token, an expression
    statement that of its expression, the others the position given. *)
Inductive 表达式 : Set :=
  | 二元运算表达式 (左操作数 : 表达式) (运算符 : Token.t) (右操作数 : 表达式)
  | 一元运算表达式 (运算符 : Token.t) (操作数 : 表达式)
  | 字面量表达式 (token : Token.t)
  | 标识符表达式 (名称 : Value) (行号 列号 : Z)
  | 函数调用表达式 (函数 : 表达式) (参数列表 : list 表达式) (行号 列号 : Z)
  | 赋值表达式 (目标 : 表达式) (值 : 表达式) (行号 列号 : Z).

Inductive 语句 : Set :=
  | 表达式语句 (表达式 : 表达式)
  | 变量声明语句 (名称 : Value) (初始值 : option 表达式) (行号 列号 : Z)
  | 函数声明语句 (名称 : Value) (参数列表 : list Value) (函数体 : 语句) (行号 列号 : Z)
  | 返回语句 (返回值 : option 表达式) (行号 列号 : Z)
  | 如果语句 (条件 : 表达式) (then分支 : 语句) (else分支 : option 语句) (行号 列号 : Z)
  | 当语句 (条件 : 表达式) (循环体 : 语句) (行号 列号 : Z)
  | 代码块语句 (语句列表 : list 语句) (行号 列号 : Z).

Inductive 程序 : Set :=
  | 程序_ (语句列表 : list 语句).

(** ** src/parser/parser.py *)

Module Parser.

Inductive exn : Set :=
  | ParserError (message : string) (token : Token.t)
  | IndexError.

(** The parser object is its token list, which never changes, and the
    cursor [current]; an outcome carries the cursor it leaves behind. *)
Inductive outcome (A : Type) : Type :=
  | Ret (a : A) (current : nat)
  | Raise (e : exn) (current : nat)
  | OutOfFuel.
Arguments Ret {A} a current.
Arguments Raise {A} e current.
Arguments OutOfFuel {A}.

Definition M (A : Type) : Type := nat -> outcome A.

Definition ret {A} (a : A) : M A := fun current => Ret a current.

Definition bind {A B} (m : M A) (k : A -> M B) : M B :=
  fun current =>
    match m current with
    | Ret a current' => k a current'
    | Raise e current' => Raise e current'
    | OutOfFuel => OutOfFuel
    end.

Definition out_of_fuel {A} : M A := fun _ => OutOfFuel.

Declare Scope parser_scope.
Delimit Scope parser_scope with parser.
Notation "x <- m ;; k" := (bind m (fun x => k))
  (at level 61, m at next level, right associativity) : parser_scope.
Notation "m ;;; k" := (bind m (fun _ => k))
  (at level 61, right associativity) : parser_scope.
Local Open Scope parser_scope.

Section WithTokens.

Variable tokens : list Token.t.

Definition length : nat := List.length tokens.

(** [tokens[-1]] and [tokens[i]] for an index in range.  The default is
    what an empty list would need; [parse] raises [IndexError] on an empty
    list before any of them is consulted. *)
Definition eof_default : Token.t := Token.mk TokenType.文件结束 VNone 1 1.
Definition last_token : Token.t := List.last tokens eof_default.
Definition index (i : nat) : Token.t := List.nth i tokens eof_default.

Definition peek_at (offset current : nat) : Token.t :=
  let pos := current + offset in
  if length <=? pos then last_token else index pos.

Definition peek : M Token.t := fun current => Ret (peek_at 0 current) current.

Definition error {A} (message : string) : M A :=
  fun current => Raise (ParserError message (peek_at 0 current)) current.

Definition advance : M Token.t :=
  fun current =>
    if current <? length
    then Ret (index current) (S current)
    else Ret last_token current.

Definition match_ (token_types : list TokenType.t) : M bool :=
  current_token <- peek ;;
  ret (TokenType.mem (Token.类型 current_token) token_types).

Definition consume (token_type : TokenType.t) (message : string) : M Token.t :=
  b <- match_ [token_type] ;;
  if b then advance else error message.

Fixpoint skip_newlines (fuel : nat) : M unit :=
  match fuel with
  | O => out_of_fuel
  | S fuel' =>
    b <- match_ [TokenType.换行] ;;
    if b then advance ;;; skip_newlines fuel' else ret tt
  end.

Definition at_end : M bool :=
  t <- peek ;;
  ret (TokenType.eqb (Token.类型 t) TokenType.文件结束).

(** The loop of [parse_binary_left]. *)
Fixpoint parse_binary_left_loop (fuel : nat) (next_precedence : M 表达式)
    (operators : list TokenType.t) (expr : 表达式) : M 表达式 :=
  match fuel with
  | O => out_of_fuel
  | S fuel' =>
    b <- match_ operators ;;
    if b then
      operator <- advance ;;
      right <- next_precedence ;;
      parse_binary_left_loop fuel' next_precedence operators
        (二元运算表达式 expr operator right)
    else ret expr
  end.

Definition parse_binary_left (fuel : nat) (next_precedence : M 表达式)
    (operators : list TokenType.t) : M 表达式 :=
  expr <- next_precedence ;;
  parse_binary_left_loop fuel next_precedence operators expr.

(** The argument loop of [finish_call], written over the parser for one
    argument. *)
Fixpoint finish_call_loop (fuel : nat) (parse_expression : M 表达式)
    (arguments : list 表达式) : M (list 表达式) :=
  match fuel with
  | O => out_of_fuel
  | S fuel' =>
    b <- match_ [TokenType.逗号] ;;
    if b then
      advance ;;;
      a <- parse_expression ;;
      finish_call_loop fuel' parse_expression (arguments ++ [a])%list
    else ret arguments
  end.

Definition finish_call (fuel : nat) (parse_expression : M 表达式)
    (callee : 表达式) : M 表达式 :=
  paren <- consume TokenType.左括号 "期望 '('" ;;
  b <- match_ [TokenType.右括号] ;;
  arguments <-
    (if negb b then
       a <- parse_expression ;;
       finish_call_loop fuel parse_expression [a]
     else ret []) ;;
  consume TokenType.右括号 "期望 ')'" ;;;
  ret (函数调用表达式 callee arguments (Token.行号 paren) (Token.列号 paren)).

(** The loop of [parse_call]. *)
Fixpoint parse_call_loop (fuel : nat) (parse_expression : M 表达式)
    (expr : 表达式) : M 表达式 :=
  match fuel with
  | O => out_of_fuel
  | S fuel' =>
    b <- match_ [TokenType.左括号] ;;
    if b then
      expr <- finish_call fuel' parse_expression expr ;;
      parse_call_loop fuel' parse_expression expr
    else ret expr
  end.

Fixpoint parse_expression (fuel : nat) : M 表达式 :=
  match fuel with
  | O => out_of_fuel
  | S fuel' => parse_assignment fuel'
  end

with parse_assignment (fuel : nat) : M 表达式 :=
  match fuel with
  | O => out_of_fuel
  | S fuel' =>
    expr <- parse_logical_or fuel' ;;
    b <- match_ [TokenType.赋值] ;;
    if b then
      equals <- advance ;;
      value <- parse_assignment fuel' ;;
      ret (赋值表达式 expr value (Token.行号 equals) (Token.列号 equals))
    else ret expr
  end

with parse_logical_or (fuel : nat) : M 表达式 :=
  match fuel with
  | O => out_of_fuel
  | S fuel' => parse_binary_left fuel' (parse_logical_and fuel') [TokenType.或]
  end

with parse_logical_and (fuel : nat) : M 表达式 :=
  match fuel with
  | O => out_of_fuel
  | S fuel' => parse_binary_left fuel' (parse_equality fuel') [TokenType.与]
  end

with parse_equality (fuel : nat) : M 表达式 :=
  match fuel with
  | O => out_of_fuel
  | S fuel' =>
    parse_binary_left fuel' (parse_comparison fuel')
      [TokenType.等于; TokenType.不等于]
  end

with parse_comparison (fuel : nat) : M 表达式 :=
  match fuel with
  | O => out_of_fuel
  | S fuel' =>
    parse_binary_left fuel' (parse_addition fuel')
      [TokenType.大于; TokenType.大于等于; TokenType.小于; TokenType.小于等于]
  end

with parse_addition (fuel : nat) : M 表达式 :=
  match fuel with
  | O => out_of_fuel
  | S fuel' =>
    parse_binary_left fuel' (parse_multiplication fuel')
      [TokenType.加; TokenType.减]
  end

with parse_multiplication (fuel : nat) : M 表达式 :=
  match fuel with
  | O => out_of_fuel
  | S fuel' =>
    parse_binary_left fuel' (parse_unary fuel')
      [TokenType.乘; TokenType.除; TokenType.模]
  end

with parse_unary (fuel : nat) : M 表达式 :=
  match fuel with
  | O => out_of_fuel
  | S fuel' =>
    b <- match_ [TokenType.非; TokenType.减] ;;
    if b then
      operator <- advance ;;
      right <- parse_unary fuel' ;;
      ret (一元运算表达式 operator right)
    else parse_call fuel'
  end

with parse_call (fuel : nat) : M 表达式 :=
  match fuel with
  | O => out_of_fuel
  | S fuel' =>
    expr <- parse_primary fuel' ;;
    parse_call_loop fuel' (parse_expression fuel') expr
  end

with parse_primary (fuel : nat) : M 表达式 :=
  match fuel with
  | O => out_of_fuel
  | S fuel' =>
    b1 <- match_ [TokenType.真; TokenType.假; TokenType.空] ;;
    if b1 then t <- advance ;; ret (字面量表达式 t) else
    b2 <- match_ [TokenType.整数; TokenType.浮点数; TokenType.字符串; TokenType.布尔值] ;;
    if b2 then t <- advance ;; ret (字面量表达式 t) else
    b3 <- match_ [TokenType.标识符] ;;
    if b3 then t <- advance ;; ret (标识符表达式 (Token.值 t) (Token.行号 t) (Token.列号 t)) else
    b4 <- match_ [TokenType.左括号] ;;
    if b4 then
      advance ;;;
      expr <- parse_expression fuel' ;;
      consume TokenType.右括号 "期望 ')'" ;;;
      ret expr
    else error "期望表达式"
  end.

Definition parse_expression_statement (fuel : nat) : M 语句 :=
  expr <- parse_expression fuel ;;
  consume TokenType.分号 "期望 ';'" ;;;
  ret (表达式语句 expr).

Definition parse_return_statement (fuel : nat) : M 语句 :=
  return_token <- consume TokenType.返回 "期望 'return'" ;;
  b <- match_ [TokenType.分号; TokenType.换行; TokenType.文件结束] ;;
  value <-
    (if negb b then e <- parse_expression fuel ;; ret (Some e) else ret None) ;;
  consume TokenType.分号 "期望 ';'" ;;;
  ret (返回语句 value (Token.行号 return_token) (Token.列号 return_token)).

(** The parameter loop of [parse_function_declaration]. *)
Fixpoint parameters_loop (fuel : nat) (parameters : list Value) : M (list Value) :=
  match fuel with
  | O => out_of_fuel
  | S fuel' =>
    b <- match_ [TokenType.逗号] ;;
    if b then
      advance ;;;
      t <- consume TokenType.标识符 "期望参数名" ;;
      parameters_loop fuel' (parameters ++ [Token.值 t])%list
    else ret parameters
  end.

(** [self.tokens[self.current - 1]]; index [-1] is the last token. *)
Definition previous : M Token.t :=
  fun current =>
    Ret (match current with O => last_token | S i => index i end) current.

(** The loop of [synchronize]. *)
Fixpoint synchronize_loop (fuel : nat) : M unit :=
  match fuel with
  | O => out_of_fuel
  | S fuel' =>
    e <- at_end ;;
    if negb e then
      p <- previous ;;
      if TokenType.eqb (Token.类型 p) TokenType.分号 then ret tt else
      t <- peek ;;
      if TokenType.mem (Token.类型 t)
           [TokenType.函数; TokenType.如果; TokenType.当; TokenType.返回]
      then ret tt
      else advance ;;; synchronize_loop fuel'
    else ret tt
  end.

Definition synchronize (fuel : nat) : M unit :=
  advance ;;; synchronize_loop fuel.

(** [try: body except ParserError: handler]. *)
Definition try_except {A} (body : M A) (handler : M A) : M A :=
  fun current =>
    match body current with
    | Raise (ParserError _ _) current' => handler current'
    | r => r
    end.

Definition append_stmt (statements : list 语句) (stmt : option 语句) : list 语句 :=
  match stmt with
  | Some s => (statements ++ [s])%list
  | None => statements
  end.

Fixpoint parse_statement (fuel : nat) : M (option 语句) :=
  match fuel with
  | O => out_of_fuel
  | S fuel' =>
    try_except
      (b1 <- match_ [TokenType.函数] ;;
       if b1 then s <- parse_function_declaration fuel' ;; ret (Some s) else
       b2 <- match_ [TokenType.如果] ;;
       if b2 then s <- parse_if_statement fuel' ;; ret (Some s) else
       b3 <- match_ [TokenType.当] ;;
       if b3 then s <- parse_while_statement fuel' ;; ret (Some s) else
       b4 <- match_ [TokenType.返回] ;;
       if b4 then s <- parse_return_statement fuel' ;; ret (Some s) else
       b5 <- match_ [TokenType.左大括号] ;;
       if b5 then s <- parse_block_statement fuel' ;; ret (Some s) else
       s <- parse_expression_statement fuel' ;; ret (Some s))
      (synchronize fuel' ;;; ret None)
  end

with parse_function_declaration (fuel : nat) : M 语句 :=
  match fuel with
  | O => out_of_fuel
  | S fuel' =>
    func_token <- consume TokenType.函数 "期望 'func'" ;;
    name_token <- consume TokenType.标识符 "期望函数名" ;;
    let name := Token.值 name_token in
    consume TokenType.左括号 "期望 '('" ;;;
    b <- match_ [TokenType.右括号] ;;
    parameters <-
      (if negb b then
         t <- consume TokenType.标识符 "期望参数名" ;;
         parameters_loop fuel' [Token.值 t]
       else ret []) ;;
    consume TokenType.右括号 "期望 ')'" ;;;
    body <- parse_block_statement fuel' ;;
    ret (函数声明语句 name parameters body (Token.行号 func_token) (Token.列号 func_token))
  end

with parse_if_statement (fuel : nat) : M 语句 :=
  match fuel with
  | O => out_of_fuel
  | S fuel' =>
    if_token <- consume TokenType.如果 "期望 'if'" ;;
    consume TokenType.左括号 "期望 '('" ;;;
    condition <- parse_expression fuel' ;;
    consume TokenType.右括号 "期望 ')'" ;;;
    then_branch <- parse_statement fuel' ;;
    match then_branch with
    | None => error "期望语句"
    | Some then_branch =>
      b <- match_ [TokenType.否则] ;;
      else_branch <- (if b then advance ;;; parse_statement fuel' else ret None) ;;
      ret (如果语句 condition then_branch else_branch (Token.行号 if_token) (Token.列号 if_token))
    end
  end

with parse_while_statement (fuel : nat) : M 语句 :=
  match fuel with
  | O => out_of_fuel
  | S fuel' =>
    while_token <- consume TokenType.当 "期望 'while'" ;;
    consume TokenType.左括号 "期望 '('" ;;;
    condition <- parse_expression fuel' ;;
    consume TokenType.右括号 "期望 ')'" ;;;
    body <- parse_statement fuel' ;;
    match body with
    | None => error "期望语句"
    | Some body =>
      ret (当语句 condition body (Token.行号 while_token) (Token.列号 while_token))
    end
  end

with parse_block_statement (fuel : nat) : M 语句 :=
  match fuel with
  | O => out_of_fuel
  | S fuel' =>
    left_brace <- consume TokenType.左大括号 "期望 '{'" ;;
    skip_newlines fuel' ;;;
    statements <- parse_block_loop fuel' [] ;;
    consume TokenType.右大括号 "期望 '}'" ;;;
    ret (代码块语句 statements (Token.行号 left_brace) (Token.列号 left_brace))
  end

with parse_block_loop (fuel : nat) (statements : list 语句) : M (list 语句) :=
  match fuel with
  | O => out_of_fuel
  | S fuel' =>
    b <- match_ [TokenType.右大括号] ;;
    e <- at_end ;;
    if negb b && negb e then
      stmt <- parse_statement fuel' ;;
      skip_newlines fuel' ;;;
      parse_block_loop fuel' (append_stmt statements stmt)
    else ret statements
  end.

(** The loop of [parse]. *)
Fixpoint parse_loop (fuel : nat) (statements : list 语句) : M (list 语句) :=
  match fuel with
  | O => out_of_fuel
  | S fuel' =>
    e <- at_end ;;
    if negb e then
      stmt <- parse_statement fuel' ;;
      skip_newlines fuel' ;;;
      parse_loop fuel' (append_stmt statements stmt)
    else ret statements
  end.

(** [Parser(tokens).parse()]: the cursor starts at 0.  An empty token
    list makes the first [peek] raise [IndexError]. *)
Definition parse (fuel : nat) : outcome 程序 :=
  match tokens with
  | [] => Raise IndexError 0
  | _ =>
    (skip_newlines fuel ;;;
     statements <- parse_loop fuel [] ;;
     ret (程序_ statements)) 0
  end.

End WithTokens.

(** What [parse_source] can do: return the program, let an exception of
    the scanner or of the parser through, or exhaust the fuel. *)
Inductive source_outcome : Set :=
  | Parsed (program : 程序)
  | LexerRaised (e : Lexer.exn)
  | ParserRaised (e : exn)
  | NoFuel.

Definition parse_source (fuel : nat) (source : string) : source_outcome :=
  match Lexer.tokenize fuel (Lexer.init source) with
  | Lexer.Ret tokens _ =>
    match parse tokens fuel with
    | Ret program _ => Parsed program
    | Raise e _ => ParserRaised e
    | OutOfFuel => NoFuel
    end
  | Lexer.Raise e => LexerRaised e
  | Lexer.OutOfFuel => NoFuel
  end.

End Parser.


(** ** src/parser/precedence.py *)

Module 结合性.

Inductive t : Set := 左结合 | 右结合 | 无结合.

Definition eq_dec (a b : t) : {a = b} + {a <> b}.
Proof. decide equality. Defined.

Definition eqb (a b : t) : bool := if eq_dec a b then true else false.

End 结合性.

Module 运算符优先级.

Definition _优先级表 : list (TokenType.t * (Z * 结合性.t)) :=
  [ (TokenType.赋值, (1, 结合性.右结合));
    (TokenType.或, (2, 结合性.左结合));
    (TokenType.与, (3, 结合性.左结合));
    (TokenType.等于, (4, 结合性.左结合));
    (TokenType.不等于, (4, 结合性.左结合));
    (TokenType.小于, (5, 结合性.左结合));
    (TokenType.大于, (5, 结合性.左结合));
    (TokenType.小于等于, (5, 结合性.左结合));
    (TokenType.大于等于, (5, 结合性.左结合));
    (TokenType.加, (6, 结合性.左结合));
    (TokenType.减, (6, 结合性.左结合));
    (TokenType.乘, (7, 结合性.左结合));
    (TokenType.除, (7, 结合性.左结合));
    (TokenType.模, (7, 结合性.左结合));
    (TokenType.非, (8, 结合性.右结合)) ]%Z.

(** [d.get(k)] on a [dict] keyed by token kinds. *)
Fixpoint 表取 {A : Type} (d : list (TokenType.t * A)) (k : TokenType.t) : option A :=
  match d with
  | [] => None
  | (k', v) :: d' => if TokenType.eqb k k' then Some v else 表取 d' k
  end.

(** [cls._优先级表.get(token_type, (0, 结合性.无结合))]. *)
Definition 条目 (token_type : TokenType.t) : Z * 结合性.t :=
  match 表取 _优先级表 token_type with
  | Some v => v
  | None => (0%Z, 结合性.无结合)
  end.

Definition get_优先级 (token_type : TokenType.t) : Z := fst (条目 token_type).

Definition get_结合性 (token_type : TokenType.t) : 结合性.t := snd (条目 token_type).

Definition is_二元运算符 (token_type : TokenType.t) : bool :=
  match 表取 _优先级表 token_type with
  | Some _ => true
  | None => false
  end.

Definition is_一元运算符 (token_type : TokenType.t) : bool :=
  TokenType.mem token_type [TokenType.非; TokenType.减].

Definition is_右结合 (token_type : TokenType.t) : bool :=
  结合性.eqb (get_结合性 token_type) 结合性.右结合.

End 运算符优先级.

(** ** src/semantic/types.py *)

Module 基本类型枚举.

Inductive t : Set := 整数 | 浮点数 | 字符串 | 布尔值 | 空值 | 未知.

Definition eq_dec (a b : t) : {a = b} + {a <> b}.
Proof. decide equality. Defined.

Definition eqb (a b : t) : bool := if eq_dec a b then true else false.

End 基本类型枚举.

(** A type is a [基本类型] value or a [函数类型] object.  The latter is
    mutated after it has been shared (its return type is set once the body
    of the function has been visited), so a type holds the address of the
    object in [类型堆]. *)
Inductive 类型 : Set :=
  | 基本类型 (类型值 : 基本类型枚举.t)
  | 函数类型 (地址 : nat).

Record 函数类型对象 : Set := mk函数类型 {
  参数类型列表 : list 类型;
  返回类型 : 类型
}.

Definition 类型堆 : Set := list 函数类型对象.

(** The object at an address; every address in use was returned by an
    allocation, so the default is never read. *)
Definition 取函数类型 (heap : 类型堆) (a : nat) : 函数类型对象 :=
  nth a heap (mk函数类型 [] (基本类型 基本类型枚举.未知)).

Definition is_numeric (self : 类型) : bool :=
  match self with
  | 基本类型 k =>
    基本类型枚举.eqb k 基本类型枚举.整数 || 基本类型枚举.eqb k 基本类型枚举.浮点数
  | 函数类型 _ => false
  end.

(** [基本类型.is_compatible_with]. *)
Definition 基本类型_is_compatible_with (self : 基本类型枚举.t) (other : 类型) : bool :=
  match other with
  | 基本类型 o =>
    if is_numeric (基本类型 self) && is_numeric other then true
    else 基本类型枚举.eqb self o
  | 函数类型 _ => false
  end.

(** [基本类型.is_assignable_from]. *)
Definition 基本类型_is_assignable_from (self : 基本类型枚举.t) (other : 类型) : bool :=
  match other with
  | 基本类型 o =>
    if 基本类型枚举.eqb self 基本类型枚举.浮点数 && 基本类型枚举.eqb o 基本类型枚举.整数
    then true
    else 基本类型枚举.eqb self o
  | 函数类型 _ => false
  end.

(** [is_compatible_with], dispatched on the class of [self].  On function
    types it recurses through the objects, which may be cyclic; [None] is
    the exhausted fuel. *)
Fixpoint is_compatible_with (fuel : nat) (heap : 类型堆) (self other : 类型)
    : option bool :=
  match self with
  | 基本类型 k => Some (基本类型_is_compatible_with k other)
  | 函数类型 a =>
    match other with
    | 函数类型 b =>
      match fuel with
      | O => None
      | S fuel' =>
        let s := 取函数类型 heap a in
        let o := 取函数类型 heap b in
        if negb (List.length (参数类型列表 s) =? List.length (参数类型列表 o))
        then Some false
        else
          (fix loop (l : list (类型 * 类型)) : option bool :=
             match l with
             | [] => is_compatible_with fuel' heap (返回类型 s) (返回类型 o)
             | (self_param, other_param) :: l' =>
               match is_compatible_with fuel' heap self_param other_param with
               | None => None
               | Some false => Some false
               | Some true => loop l'
               end
             end) (combine (参数类型列表 s) (参数类型列表 o))
      end
    | 基本类型 _ => Some false
    end
  end.

(** [is_assignable_from]: [基本类型] overrides it, [函数类型] inherits the
    base method, which is [is_compatible_with]. *)
Definition is_assignable_from (fuel : nat) (heap : 类型堆) (self other : 类型)
    : option bool :=
  match self with
  | 基本类型 k => Some (基本类型_is_assignable_from k other)
  | 函数类型 _ => is_compatible_with fuel heap self other
  end.

(** [==] on types: [__eq__] of the class of [self].  The two lists of
    parameter types are compared as Python compares lists: the lengths
    first, then item by item, an item being equal to itself without a
    call of [__eq__]. *)
Fixpoint 类型_eq (fuel : nat) (heap : 类型堆) (self other : 类型) : option bool :=
  match self with
  | 基本类型 k =>
    Some (match other with
          | 基本类型 o => 基本类型枚举.eqb k o
          | 函数类型 _ => false
          end)
  | 函数类型 a =>
    match other with
    | 函数类型 b =>
      match fuel with
      | O => None
      | S fuel' =>
        let s := 取函数类型 heap a in
        let o := 取函数类型 heap b in
        if negb (List.length (参数类型列表 s) =? List.length (参数类型列表 o))
        then Some false
        else
          (fix loop (l : list (类型 * 类型)) : option bool :=
             match l with
             | [] => 类型_eq fuel' heap (返回类型 s) (返回类型 o)
             | (x, y) :: l' =>
               match
                 match x, y with
                 | 函数类型 a', 函数类型 b' =>
                   if a' =? b' then Some true else 类型_eq fuel' heap x y
                 | _, _ => 类型_eq fuel' heap x y
                 end
               with
               | None => None
               | Some false => Some false
               | Some true => loop l'
               end
             end) (combine (参数类型列表 s) (参数类型列表 o))
      end
    | 基本类型 _ => Some false
    end
  end.

Module 类型系统.

Definition 整数类型 : 类型 := 基本类型 基本类型枚举.整数.
Definition 浮点数类型 : 类型 := 基本类型 基本类型枚举.浮点数.
Definition 字符串类型 : 类型 := 基本类型 基本类型枚举.字符串.
Definition 布尔值类型 : 类型 := 基本类型 基本类型枚举.布尔值.
Definition 空值类型 : 类型 := 基本类型 基本类型枚举.空值.
Definition 未知类型 : 类型 := 基本类型 基本类型枚举.未知.

Definition _算术运算类型规则 (left_type right_type : 类型) : option 类型 :=
  match left_type, right_type with
  | 基本类型 l, 基本类型 r =>
    if 基本类型枚举.eqb l 基本类型枚举.未知 || 基本类型枚举.eqb r 基本类型枚举.未知
    then Some 未知类型
    else if is_numeric left_type && is_numeric right_type then
      if 基本类型枚举.eqb l 基本类型枚举.浮点数 || 基本类型枚举.eqb r 基本类型枚举.浮点数
      then Some 浮点数类型
      else Some 整数类型
    else if 基本类型枚举.eqb l 基本类型枚举.字符串 && 基本类型枚举.eqb r 基本类型枚举.字符串
    then Some 字符串类型
    else None
  | _, _ => None
  end.

Definition _比较运算类型规则 (left_type right_type : 类型) : option 类型 :=
  match left_type, right_type with
  | 基本类型 l, 基本类型 r =>
    if 基本类型枚举.eqb l 基本类型枚举.未知 || 基本类型枚举.eqb r 基本类型枚举.未知
    then Some 布尔值类型
    else if is_numeric left_type && is_numeric right_type then Some 布尔值类型
    else if 基本类型枚举.eqb l r then Some 布尔值类型
    else None
  | _, _ => None
  end.

Definition _逻辑运算类型规则 (left_type right_type : 类型) : option 类型 :=
  match left_type, right_type with
  | 基本类型 l, 基本类型 r =>
    if 基本类型枚举.eqb l 基本类型枚举.未知 || 基本类型枚举.eqb r 基本类型枚举.未知
    then Some 布尔值类型
    else if 基本类型枚举.eqb l 基本类型枚举.布尔值 && 基本类型枚举.eqb r 基本类型枚举.布尔值
    then Some 布尔值类型
    else None
  | _, _ => None
  end.

Definition _一元减法类型规则 (operand_type : 类型) : option 类型 :=
  match operand_type with
  | 基本类型 k =>
    if 基本类型枚举.eqb k 基本类型枚举.未知 then Some 未知类型
    else if is_numeric operand_type then Some operand_type
    else None
  | _ => None
  end.

Definition _一元非类型规则 (operand_type : 类型) : option 类型 :=
  match operand_type with
  | 基本类型 k =>
    if 基本类型枚举.eqb k 基本类型枚举.未知 then Some 布尔值类型
    else if 基本类型枚举.eqb k 基本类型枚举.布尔值 then Some 布尔值类型
    else None
  | _ => None
  end.

(** The two dispatch tables built by [__init__]. *)
Definition 二元运算符类型规则 (operator : TokenType.t)
    : option (类型 -> 类型 -> option 类型) :=
  match operator with
  | TokenType.加 | TokenType.减 | TokenType.乘 | TokenType.除 | TokenType.模 =>
    Some _算术运算类型规则
  | TokenType.等于 | TokenType.不等于 | TokenType.小于 | TokenType.大于
  | TokenType.小于等于 | TokenType.大于等于 =>
    Some _比较运算类型规则
  | TokenType.与 | TokenType.或 => Some _逻辑运算类型规则
  | _ => None
  end.

Definition 一元运算符类型规则 (operator : TokenType.t)
    : option (类型 -> option 类型) :=
  match operator with
  | TokenType.减 => Some _一元减法类型规则
  | TokenType.非 => Some _一元非类型规则
  | _ => None
  end.

Definition infer_literal_type (token_type : TokenType.t) (value : Value) : 类型 :=
  if TokenType.eqb token_type TokenType.整数 then 整数类型
  else if TokenType.eqb token_type TokenType.浮点数 then 浮点数类型
  else if TokenType.eqb token_type TokenType.字符串 then 字符串类型
  else if TokenType.eqb token_type TokenType.布尔值 then 布尔值类型
  else match value with
       | VNone => 空值类型
       | _ => 未知类型
       end.

Definition check_binary_operation (left_type : 类型) (operator : TokenType.t)
    (right_type : 类型) : option 类型 :=
  match 二元运算符类型规则 operator with
  | Some rule => rule left_type right_type
  | None => None
  end.

Definition check_unary_operation (operator : TokenType.t) (operand_type : 类型)
    : option 类型 :=
  match 一元运算符类型规则 operator with
  | Some rule => rule operand_type
  | None => None
  end.

Definition check_assignment (fuel : nat) (heap : 类型堆)
    (target_type value_type : 类型) : option bool :=
  is_assignable_from fuel heap target_type value_type.

(** [check_function_call]: the outer [option] is the fuel of the
    comparisons, the inner one the [Optional] of the source. *)
Definition check_function_call (fuel : nat) (heap : 类型堆)
    (func_type : 类型) (arg_types : list 类型) : option (option 类型) :=
  match func_type with
  | 基本类型 _ => Some None
  | 函数类型 a =>
    let f := 取函数类型 heap a in
    if negb (List.length arg_types =? List.length (参数类型列表 f))
    then Some None
    else
      (fix loop (l : list (类型 * 类型)) : option (option 类型) :=
         match l with
         | [] => Some (Some (返回类型 f))
         | (arg_type, param_type) :: l' =>
           match is_assignable_from fuel heap param_type arg_type with
           | None => None
           | Some false => Some None
           | Some true => loop l'
           end
         end) (combine arg_types (参数类型列表 f))
  end.

Definition get_common_type (fuel : nat) (heap : 类型堆)
    (type1 type2 : 类型) : option (option 类型) :=
  match 类型_eq fuel heap type1 type2 with
  | None => None
  | Some true => Some (Some type1)
  | Some false =>
    Some
      match type1, type2 with
      | 基本类型 k1, 基本类型 k2 =>
        if is_numeric type1 && is_numeric type2 then
          if 基本类型枚举.eqb k1 基本类型枚举.浮点数
             || 基本类型枚举.eqb k2 基本类型枚举.浮点数
          then Some 浮点数类型
          else Some 整数类型
        else None
      | _, _ => None
      end
  end.

End 类型系统.

(** [t != self.类型系统.未知类型] and [==]: the right operand is a
    [基本类型], so [__eq__] never looks inside a function type. *)
Definition 是未知类型 (t : 类型) : bool :=
  match t with
  | 基本类型 k => 基本类型枚举.eqb k 基本类型枚举.未知
  | 函数类型 _ => false
  end.

(** ** src/semantic/symbols.py *)

(** An f-string, kept as the sequence of its literal and interpolated
    pieces (rendering through [__str__] is not modelled). *)
Inductive 片段 : Set :=
  | 文 (s : string)
  | 名 (v : Value)
  | 型 (t : 类型)
  | 数 (n : nat).

Inductive 符号 : Set :=
  | 变量符号 (名称 : Value) (类型_ : 类型) (行号 列号 : Z) (是否已初始化 : bool)
  | 函数符号 (名称 : Value) (类型_ : 类型) (参数列表 : list Value)
      (行号 列号 : Z) (是否已定义 : bool)
  | 参数符号 (名称 : Value) (类型_ : 类型) (参数位置 : nat) (行号 列号 : Z).

Definition 符号_名称 (s : 符号) : Value :=
  match s with
  | 变量符号 n _ _ _ _ => n
  | 函数符号 n _ _ _ _ _ => n
  | 参数符号 n _ _ _ _ => n
  end.

Definition 符号_类型 (s : 符号) : 类型 :=
  match s with
  | 变量符号 _ t _ _ _ => t
  | 函数符号 _ t _ _ _ _ => t
  | 参数符号 _ t _ _ _ => t
  end.

(** [symbol.类型 = t]. *)
Definition 设类型 (s : 符号) (t : 类型) : 符号 :=
  match s with
  | 变量符号 n _ l c i => 变量符号 n t l c i
  | 函数符号 n _ ps l c d => 函数符号 n t ps l c d
  | 参数符号 n _ p l c => 参数符号 n t p l c
  end.

Definition mark_initialized (s : 符号) : 符号 :=
  match s with
  | 变量符号 n t l c _ => 变量符号 n t l c true
  | _ => s
  end.

Definition mark_defined (s : 符号) : 符号 :=
  match s with
  | 函数符号 n t ps l c _ => 函数符号 n t ps l c true
  | _ => s
  end.

Definition 是变量符号 (s : 符号) : bool :=
  match s with 变量符号 _ _ _ _ _ => true | _ => false end.

Definition 是参数符号 (s : 符号) : bool :=
  match s with 参数符号 _ _ _ _ _ => true | _ => false end.

(** Symbol objects are mutated through references held by the scopes and
    by local variables of the analyzer, so they live in a store. *)
Definition 符号堆 : Set := list 符号.

Definition 取符号 (heap : 符号堆) (a : nat) : 符号 :=
  nth a heap (变量符号 VNone (基本类型 基本类型枚举.未知) 0 0 false).

(** Overwrite the object at an address. *)
Fixpoint 写 {A : Type} (l : list A) (a : nat) (x : A) : list A :=
  match l, a with
  | [], _ => []
  | _ :: l', O => x :: l'
  | y :: l', S a' => y :: 写 l' a' x
  end.

(** A [dict] keyed by names.  Keys are compared structurally, which is
    [==] on [str], the declared type of a name. *)
Definition 名称相同 (a b : Value) : bool := if Value_eq_dec a b then true else false.

Fixpoint 字典取 {A : Type} (d : list (Value * A)) (k : Value) : option A :=
  match d with
  | [] => None
  | (k', v) :: d' => if 名称相同 k k' then Some v else 字典取 d' k
  end.

Definition 字典含 {A : Type} (d : list (Value * A)) (k : Value) : bool :=
  match 字典取 d k with Some _ => true | None => false end.

(** [d[k] = v]: overwrite in place or append. *)
Fixpoint 字典存 {A : Type} (d : list (Value * A)) (k : Value) (v : A)
    : list (Value * A) :=
  match d with
  | [] => [(k, v)]
  | (k', v') :: d' =>
    if 名称相同 k k' then (k', v) :: d' else (k', v') :: 字典存 d' k v
  end.

Module 符号表.

(** [编号] is the identity of the scope object: the number of scopes
    created before it. *)
Record t : Set := mk {
  编号 : nat;
  名称 : list 片段;
  符号映射 : list (Value * nat)
}.

Definition define (heap : 符号堆) (self : t) (符号 : nat) : bool * t :=
  let 名 := 符号_名称 (取符号 heap 符号) in
  if 字典含 (符号映射 self) 名 then (false, self)
  else (true, mk (编号 self) (名称 self) (字典存 (符号映射 self) 名 符号)).

Definition lookup (self : t) (名 : Value) : option nat :=
  字典取 (符号映射 self) 名.


Definition get_all_symbols (self : t) : list nat :=
  map snd (符号映射 self).

Definition get_symbol_count (self : t) : nat :=
  List.length (符号映射 self).

End 符号表.

Module 作用域管理器.

(** [作用域栈] is kept innermost first: [作用域栈[-1]] is the head.
    [全局作用域] holds the identity of the scope it refers to, and [已创建]
    counts the scope objects created so far. *)
Record t : Set := mk {
  作用域栈 : list 符号表.t;
  全局作用域 : option nat;
  已创建 : nat
}.

Definition init : t := mk [] None 0.

Definition enter_scope (名称 : list 片段) (self : t) : t :=
  let new_scope := 符号表.mk (已创建 self) 名称 [] in
  mk (new_scope :: 作用域栈 self)
     (match 全局作用域 self with
      | None => Some (符号表.编号 new_scope)
      | Some g => Some g
      end)
     (S (已创建 self)).

Definition exit_scope (self : t) : option 符号表.t * t :=
  match 作用域栈 self with
  | top :: rest => (Some top, mk rest (全局作用域 self) (已创建 self))
  | [] => (None, self)
  end.

Definition current_scope (self : t) : option 符号表.t :=
  match 作用域栈 self with
  | top :: _ => Some top
  | [] => None
  end.

Definition define_symbol (heap : 符号堆) (符号 : nat) (self : t) : bool * t :=
  match 作用域栈 self with
  | current :: rest =>
    let (ok, current') := 符号表.define heap current 符号 in
    (ok, mk (current' :: rest) (全局作用域 self) (已创建 self))
  | [] => (false, self)
  end.

Fixpoint lookup_in (scopes : list 符号表.t) (名 : Value) : option nat :=
  match scopes with
  | [] => None
  | scope :: outer =>
    match 符号表.lookup scope 名 with
    | Some symbol => Some symbol
    | None => lookup_in outer 名
    end
  end.

Definition lookup_symbol (名 : Value) (self : t) : option nat :=
  lookup_in (作用域栈 self) 名.

Definition lookup_symbol_current_scope (名 : Value) (self : t) : option nat :=
  match current_scope self with
  | Some current => 符号表.lookup current 名
  | None => None
  end.

Definition is_global_scope (self : t) : bool :=
  List.length (作用域栈 self) =? 1.

Definition get_scope_depth (self : t) : nat := List.length (作用域栈 self).

End 作用域管理器.

(** ** src/semantic/analyzer.py *)

Module 语义错误.

Record t : Set := mk {
  message : list 片段;
  行号 : Z;
  列号 : Z
}.

End 语义错误.

Record 分析结果 : Set := mk分析结果 {
  结果类型 : 类型;
  是否可赋值 : bool
}.

Module 语义分析器.

(** The analyzer object, with the two stores of the objects it creates.
    The [类型系统] it holds has no state of its own. *)
Record t : Set := mk {
  作用域管理器_ : 作用域管理器.t;
  错误列表 : list 语义错误.t;
  当前函数返回类型 : option 类型;
  在赋值左侧 : bool;
  符号们 : 符号堆;
  函数类型们 : 类型堆
}.

(** A method either returns a value in a new analyzer state or exhausts
    its fuel; no method raises. *)
Definition M (A : Type) : Type := t -> option (A * t).

Definition ret {A} (a : A) : M A := fun self => Some (a, self).

Definition bind {A B} (m : M A) (k : A -> M B) : M B :=
  fun self =>
    match m self with
    | Some (a, self') => k a self'
    | None => None
    end.

Definition out_of_fuel {A} : M A := fun _ => None.

Declare Scope analyzer_scope.
Delimit Scope analyzer_scope with analyzer.
Notation "x <- m ;; k" := (bind m (fun x => k))
  (at level 61, m at next level, right associativity) : analyzer_scope.
Notation "m ;;; k" := (bind m (fun _ => k))
  (at level 61, right associativity) : analyzer_scope.
Local Open Scope analyzer_scope.

Definition 设作用域管理器 (m : 作用域管理器.t) (self : t) : t :=
  mk m (错误列表 self) (当前函数返回类型 self) (在赋值左侧 self)
     (符号们 self) (函数类型们 self).

Definition 设当前函数返回类型 (r : option 类型) : M unit :=
  fun self =>
    Some (tt, mk (作用域管理器_ self) (错误列表 self) r (在赋值左侧 self)
                 (符号们 self) (函数类型们 self)).

Definition 取当前函数返回类型 : M (option 类型) :=
  fun self => Some (当前函数返回类型 self, self).

Definition error (message : list 片段) (行号 列号 : Z) : M unit :=
  fun self =>
    Some (tt, mk (作用域管理器_ self)
                 (错误列表 self ++ [语义错误.mk message 行号 列号])%list
                 (当前函数返回类型 self) (在赋值左侧 self)
                 (符号们 self) (函数类型们 self)).

(** Constructing a symbol object: it gets the next free address. *)
Definition 新符号 (s : 符号) : M nat :=
  fun self =>
    Some (List.length (符号们 self),
          mk (作用域管理器_ self) (错误列表 self) (当前函数返回类型 self)
             (在赋值左侧 self) (符号们 self ++ [s])%list (函数类型们 self)).

Definition 读符号 (a : nat) : M 符号 :=
  fun self => Some (取符号 (符号们 self) a, self).

Definition 改符号 (a : nat) (f : 符号 -> 符号) : M unit :=
  fun self =>
    Some (tt, mk (作用域管理器_ self) (错误列表 self) (当前函数返回类型 self)
                 (在赋值左侧 self)
                 (写 (符号们 self) a (f (取符号 (符号们 self) a)))
                 (函数类型们 self)).

(** Constructing a [函数类型] object. *)
Definition 新函数类型 (o : 函数类型对象) : M nat :=
  fun self =>
    Some (List.length (函数类型们 self),
          mk (作用域管理器_ self) (错误列表 self) (当前函数返回类型 self)
             (在赋值左侧 self) (符号们 self) (函数类型们 self ++ [o])%list).

Definition 读函数类型 (a : nat) : M 函数类型对象 :=
  fun self => Some (取函数类型 (函数类型们 self) a, self).

(** [函数类型_obj.返回类型 = r]. *)
Definition 设返回类型 (a : nat) (r : 类型) : M unit :=
  fun self =>
    let o := 取函数类型 (函数类型们 self) a in
    Some (tt, mk (作用域管理器_ self) (错误列表 self) (当前函数返回类型 self)
                 (在赋值左侧 self) (符号们 self)
                 (写 (函数类型们 self) a (mk函数类型 (参数类型列表 o) r))).

Definition enter_scope (名称 : list 片段) : M unit :=
  fun self =>
    Some (tt, 设作用域管理器 (作用域管理器.enter_scope 名称 (作用域管理器_ self)) self).

Definition exit_scope : M (option 符号表.t) :=
  fun self =>
    let (r, m) := 作用域管理器.exit_scope (作用域管理器_ self) in
    Some (r, 设作用域管理器 m self).

Definition define_symbol (符号 : nat) : M bool :=
  fun self =>
    let (ok, m) := 作用域管理器.define_symbol (符号们 self) 符号 (作用域管理器_ self) in
    Some (ok, 设作用域管理器 m self).

Definition lookup_symbol (名 : Value) : M (option nat) :=
  fun self => Some (作用域管理器.lookup_symbol 名 (作用域管理器_ self), self).

Definition lookup_symbol_current_scope (名 : Value) : M (option nat) :=
  fun self =>
    Some (作用域管理器.lookup_symbol_current_scope 名 (作用域管理器_ self), self).

Definition 兼容 (fuel : nat) (a b : 类型) : M bool :=
  fun self =>
    match is_compatible_with fuel (函数类型们 self) a b with
    | Some r => Some (r, self)
    | None => None
    end.

Definition check_assignment (fuel : nat) (target_type value_type : 类型) : M bool :=
  fun self =>
    match 类型系统.check_assignment fuel (函数类型们 self) target_type value_type with
    | Some r => Some (r, self)
    | None => None
    end.

(** [[f(x) for x in l]] and [for x in l: f(x)]. *)
Fixpoint 逐个 {A B : Type} (f : A -> M B) (l : list A) : M (list B) :=
  match l with
  | [] => ret []
  | x :: l' => r <- f x ;; rs <- 逐个 f l' ;; ret (r :: rs)
  end.

Definition 当_ (b : bool) (m : M unit) : M unit := if b then m else ret tt.

Fixpoint visit_表达式 (fuel : nat) (node : 表达式) : M 分析结果 :=
  match fuel with
  | O => out_of_fuel
  | S fuel' =>
    match node with
    | 二元运算表达式 左操作数 运算符 右操作数 =>
      left_result <- visit_表达式 fuel' 左操作数 ;;
      right_result <- visit_表达式 fuel' 右操作数 ;;
      match 类型系统.check_binary_operation (结果类型 left_result)
              (Token.类型 运算符) (结果类型 right_result) with
      | None =>
        error [文 "不支持的二元运算："; 型 (结果类型 left_result); 文 " ";
               名 (Token.值 运算符); 文 " "; 型 (结果类型 right_result)]
              (Token.行号 运算符) (Token.列号 运算符) ;;;
        ret (mk分析结果 类型系统.未知类型 false)
      | Some result_type => ret (mk分析结果 result_type false)
      end
    | 一元运算表达式 运算符 操作数 =>
      operand_result <- visit_表达式 fuel' 操作数 ;;
      match 类型系统.check_unary_operation (Token.类型 运算符)
              (结果类型 operand_result) with
      | None =>
        error [文 "不支持的一元运算："; 名 (Token.值 运算符);
               型 (结果类型 operand_result)]
              (Token.行号 运算符) (Token.列号 运算符) ;;;
        ret (mk分析结果 类型系统.未知类型 false)
      | Some result_type => ret (mk分析结果 result_type false)
      end
    | 字面量表达式 token =>
      ret (mk分析结果
             (类型系统.infer_literal_type (Token.类型 token) (Token.值 token)) false)
    | 标识符表达式 名称 行号 列号 =>
      symbol <- lookup_symbol 名称 ;;
      match symbol with
      | None =>
        error [文 "未定义的标识符 '"; 名 名称; 文 "'"] 行号 列号 ;;;
        ret (mk分析结果 类型系统.未知类型 true)
      | Some a =>
        s <- 读符号 a ;;
        当_ (match s with
             | 变量符号 _ _ _ _ 是否已初始化 => negb 是否已初始化
             | _ => false
             end)
           (error [文 "变量 '"; 名 名称; 文 "' 在初始化前使用"] 行号 列号) ;;;
        ret (mk分析结果 (符号_类型 s) (是变量符号 s || 是参数符号 s))
      end
    | 函数调用表达式 函数 参数列表 行号 列号 =>
      func_result <- visit_表达式 fuel' 函数 ;;
      arg_results <- 逐个 (visit_表达式 fuel') 参数列表 ;;
      let arg_types := map 结果类型 arg_results in
      match 结果类型 func_result with
      | 函数类型 a =>
        o <- 读函数类型 a ;;
        if negb (List.length arg_types =? List.length (参数类型列表 o)) then
          error [文 "函数调用参数不匹配：期望 "; 数 (List.length (参数类型列表 o));
                 文 " 个参数，实际 "; 数 (List.length arg_types); 文 " 个"]
                行号 列号 ;;;
          ret (mk分析结果 类型系统.未知类型 false)
        else ret (mk分析结果 (返回类型 o) false)
      | 基本类型 _ =>
        error [文 "'"; 型 (结果类型 func_result); 文 "' 不是函数类型"] 行号 列号 ;;;
        ret (mk分析结果 类型系统.未知类型 false)
      end
    | 赋值表达式 目标 值 行号 列号 =>
      value_result <- visit_表达式 fuel' 值 ;;
      match 目标 with
      | 标识符表达式 var_name _ _ =>
        existing_symbol <- lookup_symbol var_name ;;
        match existing_symbol with
        | None =>
          var_symbol <- 新符号 (变量符号 var_name (结果类型 value_result)
                                  行号 列号 true) ;;
          define_symbol var_symbol ;;;
          ret (mk分析结果 (结果类型 value_result) false)
        | Some a =>
          s <- 读符号 a ;;
          if negb (是变量符号 s || 是参数符号 s) then
            error [文 "'"; 名 var_name; 文 "' 不是变量"] 行号 列号 ;;;
            ret (mk分析结果 类型系统.未知类型 false)
          else
            incompatible <-
              (if negb (是未知类型 (符号_类型 s)) then
                 ok <- check_assignment fuel' (符号_类型 s) (结果类型 value_result) ;;
                 ret (negb ok)
               else ret false) ;;
            当_ incompatible
              (error [文 "类型不兼容：无法将 "; 型 (结果类型 value_result);
                      文 " 赋值给 "; 型 (符号_类型 s)] 行号 列号) ;;;
            当_ (是未知类型 (符号_类型 s))
              (改符号 a (fun x => 设类型 x (结果类型 value_result))) ;;;
            当_ (是变量符号 s) (改符号 a mark_initialized) ;;;
            s' <- 读符号 a ;;
            ret (mk分析结果 (符号_类型 s') false)
        end
      | _ =>
        error [文 "不支持的赋值目标"] 行号 列号 ;;;
        ret (mk分析结果 类型系统.未知类型 false)
      end
    end
  end.

(** The parameter loop of [visit_函数声明语句], over [enumerate]. *)
Fixpoint 定义参数 (i : nat) (参数列表 : list Value) (行号 列号 : Z) : M unit :=
  match 参数列表 with
  | [] => ret tt
  | param_name :: rest =>
    param_symbol <- 新符号 (参数符号 param_name 类型系统.未知类型 i 行号 列号) ;;
    ok <- define_symbol param_symbol ;;
    当_ (negb ok)
      (error [文 "参数 '"; 名 param_name; 文 "' 重复定义"] 行号 列号) ;;;
    定义参数 (S i) rest 行号 列号
  end.

(** The check shared by [visit_如果语句] and [visit_当语句]. *)
Definition 条件非布尔 (t : 类型) : bool :=
  match t with
  | 基本类型 k =>
    negb (基本类型枚举.eqb k 基本类型枚举.布尔值)
    && negb (基本类型枚举.eqb k 基本类型枚举.未知)
  | 函数类型 _ => false
  end.

Fixpoint visit_语句 (fuel : nat) (node : 语句) : M 分析结果 :=
  match fuel with
  | O => out_of_fuel
  | S fuel' =>
    match node with
    | 表达式语句 表达式 => visit_表达式 fuel' 表达式
    | 变量声明语句 名称 初始值 行号 列号 =>
      existing_symbol <- lookup_symbol_current_scope 名称 ;;
      match existing_symbol with
      | Some _ =>
        error [文 "变量 '"; 名 名称; 文 "' 已经定义"] 行号 列号 ;;;
        ret (mk分析结果 类型系统.未知类型 false)
      | None =>
        r <- match 初始值 with
             | Some e => result <- visit_表达式 fuel' e ;; ret (结果类型 result, true)
             | None => ret (类型系统.未知类型, false)
             end ;;
        变量符号_obj <- 新符号 (变量符号 名称 (fst r) 行号 列号 (snd r)) ;;
        define_symbol 变量符号_obj ;;;
        ret (mk分析结果 (fst r) false)
      end
    | 函数声明语句 名称 参数列表 函数体 行号 列号 =>
      existing_symbol <- lookup_symbol_current_scope 名称 ;;
      match existing_symbol with
      | Some _ =>
        error [文 "函数 '"; 名 名称; 文 "' 已经定义"] 行号 列号 ;;;
        ret (mk分析结果 类型系统.未知类型 false)
      | None =>
        let 参数类型列表 := map (fun _ => 类型系统.未知类型) 参数列表 in
        函数类型_obj <- 新函数类型 (mk函数类型 参数类型列表 类型系统.未知类型) ;;
        函数符号_obj <- 新符号 (函数符号 名称 (函数类型 函数类型_obj) 参数列表
                                   行号 列号 false) ;;
        define_symbol 函数符号_obj ;;;
        enter_scope [文 "函数_"; 名 名称] ;;;
        定义参数 0 参数列表 行号 列号 ;;;
        old_return_type <- 取当前函数返回类型 ;;
        设当前函数返回类型 None ;;;
        visit_语句 fuel' 函数体 ;;;
        inferred <- 取当前函数返回类型 ;;
        设返回类型 函数类型_obj
          (match inferred with
           | Some r => r
           | None => 类型系统.空值类型
           end) ;;;
        设当前函数返回类型 old_return_type ;;;
        exit_scope ;;;
        改符号 函数符号_obj mark_defined ;;;
        ret (mk分析结果 (函数类型 函数类型_obj) false)
      end
    | 返回语句 返回值 行号 列号 =>
      返回值类型 <- match 返回值 with
                    | Some e => result <- visit_表达式 fuel' e ;; ret (结果类型 result)
                    | None => ret 类型系统.空值类型
                    end ;;
      current <- 取当前函数返回类型 ;;
      match current with
      | None => 设当前函数返回类型 (Some 返回值类型)
      | Some c =>
        compatible <- 兼容 fuel' c 返回值类型 ;;
        当_ (negb compatible && negb (是未知类型 返回值类型) && negb (是未知类型 c))
          (error [文 "返回类型不一致：期望 "; 型 c; 文 "，实际 "; 型 返回值类型]
                 行号 列号)
      end ;;;
      ret (mk分析结果 返回值类型 false)
    | 如果语句 条件 then分支 else分支 行号 列号 =>
      condition_result <- visit_表达式 fuel' 条件 ;;
      当_ (条件非布尔 (结果类型 condition_result))
        (error [文 "条件必须是布尔类型，实际是 "; 型 (结果类型 condition_result)]
               行号 列号) ;;;
      visit_语句 fuel' then分支 ;;;
      match else分支 with
      | Some e => visit_语句 fuel' e ;;; ret tt
      | None => ret tt
      end ;;;
      ret (mk分析结果 类型系统.空值类型 false)
    | 当语句 条件 循环体 行号 列号 =>
      condition_result <- visit_表达式 fuel' 条件 ;;
      当_ (条件非布尔 (结果类型 condition_result))
        (error [文 "while条件必须是布尔类型，实际是 "; 型 (结果类型 condition_result)]
               行号 列号) ;;;
      visit_语句 fuel' 循环体 ;;;
      ret (mk分析结果 类型系统.空值类型 false)
    | 代码块语句 语句列表 行号 列号 =>
      enter_scope [文 "代码块"] ;;;
      逐个 (visit_语句 fuel') 语句列表 ;;;
      exit_scope ;;;
      ret (mk分析结果 类型系统.空值类型 false)
    end
  end.

Definition visit_程序 (fuel : nat) (node : 程序) : M 分析结果 :=
  match node with
  | 程序_ 语句列表 =>
    逐个 (visit_语句 fuel) 语句列表 ;;;
    ret (mk分析结果 类型系统.空值类型 false)
  end.

Definition analyze (fuel : nat) (ast : 程序) : M (list 语义错误.t) :=
  fun self =>
    let self0 := mk (作用域管理器_ self) [] (当前函数返回类型 self)
                    (在赋值左侧 self) (符号们 self) (函数类型们 self) in
    match visit_程序 fuel ast self0 with
    | Some (_, self') => Some (错误列表 self', self')
    | None => None
    end.

(** [create_builtin_symbols()], then the rest of [__init__]. *)
Definition create_builtin_symbols : M (list nat) :=
  print_func_type <- 新函数类型 (mk函数类型 [类型系统.字符串类型] 类型系统.空值类型) ;;
  print_symbol <- 新符号 (函数符号 (VStr "print") (函数类型 print_func_type)
                            [VStr "message"] 0 0 true) ;;
  len_func_type <- 新函数类型 (mk函数类型 [类型系统.字符串类型] 类型系统.整数类型) ;;
  len_symbol <- 新符号 (函数符号 (VStr "len") (函数类型 len_func_type)
                          [VStr "s"] 0 0 true) ;;
  str_func_type <- 新函数类型 (mk函数类型 [类型系统.整数类型] 类型系统.字符串类型) ;;
  str_symbol <- 新符号 (函数符号 (VStr "str") (函数类型 str_func_type)
                          [VStr "value"] 0 0 true) ;;
  ret [print_symbol; len_symbol; str_symbol].

Definition 空 : t := mk 作用域管理器.init [] None false [] [].

(** [语义分析器()]. *)
Definition init : t :=
  match (enter_scope [文 "全局作用域"] ;;;
         builtins <- create_builtin_symbols ;;
         逐个 define_symbol builtins) 空 with
  | Some (_, self) => self
  | None => 空
  end.

End 语义分析器.

(** * Vocabulary of the statements *)

(** What a visit may do to the scope stack it finds: nothing below the
    innermost scope changes, the innermost scope is the same object under
    the same name, and its bindings only grow at the end. *)
Definition 栈保持 (before after : list 符号表.t) : Prop :=
  match before, after with
  | [], [] => True
  | top :: rest, top' :: rest' =>
    rest' = rest
    /\ 符号表.编号 top' = 符号表.编号 top
    /\ 符号表.名称 top' = 符号表.名称 top
    /\ exists added,
         符号表.符号映射 top' = (符号表.符号映射 top ++ added)%list
  | _, _ => False
  end.

Definition 管理器保持 (m m' : 作用域管理器.t) : Prop :=
  栈保持 (作用域管理器.作用域栈 m) (作用域管理器.作用域栈 m')
  /\ (forall g, 作用域管理器.全局作用域 m = Some g ->
                作用域管理器.全局作用域 m' = Some g)
  /\ 作用域管理器.已创建 m <= 作用域管理器.已创建 m'.

(** A computation of the analyzer that leaves the scope stack as it
    found it. *)
Definition 保持 {A : Type} (m : 语义分析器.M A) : Prop :=
  forall self a self',
    m self = Some (a, self') ->
    管理器保持 (语义分析器.作用域管理器_ self) (语义分析器.作用域管理器_ self').

(** A computation that runs inside a scope and pops it: from a stack
    [top :: rest] it ends in the stack [rest], kept as above. *)
Definition 出栈后保持 {A : Type} (m : 语义分析器.M A) : Prop :=
  forall self a self' top rest,
    m self = Some (a, self') ->
    作用域管理器.作用域栈 (语义分析器.作用域管理器_ self) = top :: rest ->
    管理器保持
      (作用域管理器.mk rest
         (作用域管理器.全局作用域 (语义分析器.作用域管理器_ self))
         (作用域管理器.已创建 (语义分析器.作用域管理器_ self)))
      (语义分析器.作用域管理器_ self').

(** The scanner's view of its input: the text from the cursor on. *)
Fixpoint 跳过 (n : nat) (s : string) : string :=
  match n, s with
  | O, _ => s
  | S n', String _ s' => 跳过 n' s'
  | S _, EmptyString => EmptyString
  end.

Definition 首 (s : string) : option ascii :=
  match s with
  | String c _ => Some c
  | EmptyString => None
  end.

Definition 余文 (self : Lexer.t) : string :=
  跳过 (Lexer.position self) (Lexer.source self).

(** The number of characters still to be read. *)
Definition 文长 (self : Lexer.t) : nat := String.length (余文 self).

(** The fields of a scanner agree with each other. *)
Definition 良构 (self : Lexer.t) : Prop :=
  Lexer.length self = String.length (Lexer.source self)
  /\ Lexer.current_char self = 首 (余文 self).

(** A method returns a result satisfying [Q] or raises an exception
    satisfying [E]; its fuel does not run out. *)
Definition 后 {A : Type} (r : Lexer.outcome A)
    (Q : A -> Lexer.t -> Prop) (E : Lexer.exn -> Prop) : Prop :=
  match r with
  | Lexer.Ret a self => Q a self
  | Lexer.Raise e => E e
  | Lexer.OutOfFuel => False
  end.

(** More fuel does not change an outcome other than exhaustion. *)
Definition 不减 {A : Type} (r1 r2 : Lexer.outcome A) : Prop :=
  r1 = Lexer.OutOfFuel \/ r1 = r2.

(** [未闭合 q s]: the text [s] after an opening quote [q] runs to the end
    of the input without an unescaped [q]. *)
Fixpoint 未闭合 (q : ascii) (s : string) : bool :=
  match s with
  | EmptyString => true
  | String c s' =>
    if Ascii.eqb c q then false
    else if Ascii.eqb c BACKSLASH then
      match s' with
      | EmptyString => true
      | String _ s'' => 未闭合 q s''
      end
    else 未闭合 q s'
  end.

(** The states in which the scanner looks for its next token: the initial
    one, and those it is left in by a run of blanks, by a line comment or
    by a token other than the end of the input. *)
Inductive 扫描到 (src : string) : Lexer.t -> Prop :=
  | 扫描到_起点 : 扫描到 src (Lexer.init src)
  | 扫描到_空白 self c fuel self' :
      扫描到 src self ->
      Lexer.current_char self = Some c ->
      isspace c = true -> c <> NEWLINE ->
      Lexer.skip_whitespace fuel self = Lexer.Ret tt self' ->
      扫描到 src self'
  | 扫描到_注释 self fuel self' :
      扫描到 src self ->
      Lexer.current_char self = Some "/"%char ->
      Lexer.peek self 1 = Some "/"%char ->
      Lexer.skip_line_comment fuel self = Lexer.Ret tt self' ->
      扫描到 src self'
  | 扫描到_词 self fuel token self' :
      扫描到 src self ->
      Lexer.next_token fuel self = Lexer.Ret token self' ->
      Token.类型 token <> TokenType.文件结束 ->
      扫描到 src self'.

(** The scanner reaches a string literal that is unterminated at the end
    of the input. *)
Definition 遇到未闭合字符串 (src : string) : Prop :=
  exists self q,
    扫描到 src self
    /\ Lexer.current_char self = Some q
    /\ (q = DQUOTE \/ q = SQUOTE)
    /\ 未闭合 q (余文 (Lexer.advance self)) = true.

(** No rule of [next_token] matches the character [c], followed by
    [next]. *)
Definition 无规则 (c : ascii) (next : option ascii) : Prop :=
  isspace c = false
  /\ isdigit c = false
  /\ c <> DQUOTE /\ c <> SQUOTE
  /\ isalpha c = false /\ c <> "_"%char
  /\ Lexer.double_get Lexer.double_char_tokens c next = None
  /\ Lexer.char_get Lexer.single_char_tokens c = None.

(** The same vocabulary for the parser: a method returns a result and a
    cursor satisfying [Q] or raises with [E]; more fuel does not change an
    outcome other than exhaustion. *)
Definition 果 {A : Type} (r : Parser.outcome A)
    (Q : A -> nat -> Prop) (E : Parser.exn -> nat -> Prop) : Prop :=
  match r with
  | Parser.Ret a current => Q a current
  | Parser.Raise e current => E e current
  | Parser.OutOfFuel => False
  end.

Definition 不减P {A : Type} (r1 r2 : Parser.outcome A) : Prop :=
  r1 = Parser.OutOfFuel \/ r1 = r2.

Definition 升 {A : Type} (m1 m2 : Parser.M A) : Prop :=
  forall current, 不减P (m1 current) (m2 current).

(** A token list as the scanner returns it: it ends with an end-of-input
    token. *)
Definition 以文件结束收尾 (tokens : list Token.t) : Prop :=
  exists l t, tokens = (l ++ [t])%list /\ Token.类型 t = TokenType.文件结束.

(** The cursor is where [synchronize] stops: at the end of the input,
    just past a semicolon, or at a keyword that starts a statement. *)
Definition 同步点 (tokens : list Token.t) (current : nat) : bool :=
  TokenType.eqb (Token.类型 (Parser.peek_at tokens 0 current)) TokenType.文件结束
  || TokenType.eqb
       (Token.类型 (match current with
                    | O => Parser.last_token tokens
                    | S i => Parser.index tokens i
                    end))
       TokenType.分号
  || TokenType.mem (Token.类型 (Parser.peek_at tokens 0 current))
       [TokenType.函数; TokenType.如果; TokenType.当; TokenType.返回].

(** Postconditions on the cursor.  A raised exception is a [ParserError]
    and the cursor has not moved back; a returned result leaves the cursor
    strictly further ([前进]) or not further back ([不退]), within the token
    list. *)
Definition 语法错误于 (tokens : list Token.t) (lo : nat) : Parser.exn -> nat -> Prop :=
  fun e c =>
    (exists message token, e = Parser.ParserError message token)
    /\ lo <= c /\ c <= Parser.length tokens.

Definition 前进 {A : Type} (tokens : list Token.t) (lo : nat) : A -> nat -> Prop :=
  fun _ c => lo < c /\ c <= Parser.length tokens.

Definition 不退 {A : Type} (tokens : list Token.t) (lo : nat) : A -> nat -> Prop :=
  fun _ c => lo <= c /\ c <= Parser.length tokens.

Definition 无异常 : Parser.exn -> nat -> Prop := fun _ _ => False.

(** The fuel that suffices at a cursor: twelve units per remaining token
    and a constant for the method. *)
Definition 够 (tokens : list Token.t) (k current fuel : nat) : Prop :=
  12 * (Parser.length tokens - current) + k <= fuel.

(** What [parse_statement] leaves behind: the cursor has not moved back,
    it has moved on whenever a token was left to read, and a discarded
    statement ([None]) leaves it at a synchronisation point. *)
Definition 语句后 (tokens : list Token.t) (lo : nat) : option 语句 -> nat -> Prop :=
  fun r c =>
    lo <= c /\ c <= Parser.length tokens
    /\ (lo < Parser.length tokens -> lo < c)
    /\ (r = None -> 同步点 tokens c = true).

(** What [synchronize] leaves behind, started at [lo]: it has consumed one
    token if there was one, stopped at a synchronisation point, and passed
    none on the way. *)
Definition 同步后 (tokens : list Token.t) (lo : nat) : unit -> nat -> Prop :=
  fun _ c =>
    lo <= c /\ c <= Parser.length tokens
    /\ (lo < Parser.length tokens -> lo < c)
    /\ 同步点 tokens c = true
    /\ forall p, (if lo <? Parser.length tokens then S lo else lo) <= p -> p < c ->
                 同步点 tokens p = false.

(** * Vocabulary of the further properties *)

(** The outcome is not a returned value. *)
Definition 未返回 {A : Type} (r : Parser.outcome A) : Prop :=
  match r with
  | Parser.Ret _ _ => False
  | _ => True
  end.

(** The outcome is not a raised exception. *)
Definition 未抛出 {A : Type} (r : Parser.outcome A) : Prop :=
  match r with
  | Parser.Raise _ _ => False
  | _ => True
  end.

(** The operations of a scope manager that change it, and a run of them. *)
Inductive 操作 : Set :=
  | 进入 (名称 : list 片段)
  | 退出
  | 定义 (heap : 符号堆) (符号 : nat).

Definition 执行一步 (m : 作用域管理器.t) (op : 操作) : 作用域管理器.t :=
  match op with
  | 进入 名称 => 作用域管理器.enter_scope 名称 m
  | 退出 => snd (作用域管理器.exit_scope m)
  | 定义 heap 符号 => snd (作用域管理器.define_symbol heap 符号 m)
  end.

Definition 执行 (ops : list 操作) (m : 作用域管理器.t) : 作用域管理器.t :=
  fold_left 执行一步 ops m.

(** The diagnostics of [self'] are those of [self] with more at the end. *)
Definition 错误只增 (self self' : 语义分析器.t) : Prop :=
  exists added,
    语义分析器.错误列表 self' = (语义分析器.错误列表 self ++ added)%list.

(** A computation of the analyzer that only appends diagnostics. *)
Definition 只增 {A : Type} (m : 语义分析器.M A) : Prop :=
  forall self a self', m self = Some (a, self') -> 错误只增 self self'.

(** A computation that leaves [当前函数返回类型] as it found it. *)
Definition 返回类型不变 {A : Type} (m : 语义分析器.M A) : Prop :=
  forall self a self',
    m self = Some (a, self') ->
    语义分析器.当前函数返回类型 self' = 语义分析器.当前函数返回类型 self.

(** The payload of a token has the Python type that its kind announces:
    an [int] for an integer, a [float] for a float, a [bool] or [None] for
    a boolean, [None] for the end of the input and a [str] for every other
    kind; the kinds [真], [假] and [空] do not occur. *)
Definition 词合规 (t : Token.t) : bool :=
  match Token.类型 t with
  | TokenType.整数 => match Token.值 t with VInt _ => true | _ => false end
  | TokenType.浮点数 => match Token.值 t with VFloat _ => true | _ => false end
  | TokenType.布尔值 =>
    match Token.值 t with VBool _ | VNone => true | _ => false end
  | TokenType.文件结束 => match Token.值 t with VNone => true | _ => false end
  | TokenType.真 | TokenType.假 | TokenType.空 => false
  | _ => match Token.值 t with VStr _ => true | _ => false end
  end.

(** What a scanner method returns satisfies [P]. *)
Definition 若返回 {A : Type} (r : Lexer.outcome A) (P : A -> Prop) : Prop :=
  match r with
  | Lexer.Ret a _ => P a
  | _ => True
  end.

(** Lines and columns are counted from 1. *)
Definition 位置合规 (self : Lexer.t) : Prop :=
  (1 <= Lexer.line self)%Z /\ (1 <= Lexer.column self)%Z.

Definition 词位置合规 (t : Token.t) : Prop :=
  (1 <= Token.行号 t)%Z /\ (1 <= Token.列号 t)%Z.

(** What a scanner method returns, and the state it returns in, satisfy
    [P]. *)
Definition 若返回于 {A : Type} (r : Lexer.outcome A)
    (P : A -> Lexer.t -> Prop) : Prop :=
  match r with
  | Lexer.Ret a s => P a s
  | _ => True
  end.

(** * Properties *)

(** ** The type system *)

(** C1.  Integer, Float, String and Boolean tokens are typed Int, Float,
    String and Bool; the token the scanner produces for [null] has kind
    [布尔值] and payload [None], so [infer_literal_type] answers Bool for it
    and never reaches the branch that answers Void for a [None] payload. *)
Theorem infer_literal_type_null_token :
  (forall v, 类型系统.infer_literal_type TokenType.整数 v = 类型系统.整数类型)
  /\ (forall v, 类型系统.infer_literal_type TokenType.浮点数 v = 类型系统.浮点数类型)
  /\ (forall v, 类型系统.infer_literal_type TokenType.字符串 v = 类型系统.字符串类型)
  /\ (forall v, 类型系统.infer_literal_type TokenType.布尔值 v = 类型系统.布尔值类型)
  /\ (exists tok rest self,
        Lexer.tokenize 8 (Lexer.init "null") = Lexer.Ret (tok :: rest) self
        /\ Token.类型 tok = TokenType.布尔值
        /\ Token.值 tok = VNone
        /\ 类型系统.infer_literal_type (Token.类型 tok) (Token.值 tok)
           = 类型系统.布尔值类型
        /\ 类型系统.infer_literal_type (Token.类型 tok) (Token.值 tok)
           <> 类型系统.空值类型).
Proof.
  repeat split; try reflexivity.
  eexists _, _, _. split; [vm_compute; reflexivity|].
  repeat split; discriminate.
Qed.

(** C2.  The arithmetic rule does not look at the operator: two String
    operands yield String for each of [+], [-], [*], [/] and [%]. *)
Theorem check_binary_string_operands :
  forall op,
    In op [TokenType.加; TokenType.减; TokenType.乘; TokenType.除; TokenType.模] ->
    类型系统.check_binary_operation 类型系统.字符串类型 op 类型系统.字符串类型
    = Some 类型系统.字符串类型.
Proof.
  intros op H. simpl in H.
  repeat (destruct H as [<- | H]; [reflexivity|]). contradiction.
Qed.

Lemma check_binary_string_operands_witness :
  类型系统.check_binary_operation 类型系统.字符串类型 TokenType.减 类型系统.字符串类型
  = Some 类型系统.字符串类型.
Proof.
  apply (check_binary_string_operands TokenType.减). simpl. auto.
Defined.

(** On primitive types [check_assignment] returns true exactly when the
    two kinds are identical or the target is Float and the value is Int; it
    always returns, whatever the fuel and the store. *)
Lemma is_assignable_primitive :
  forall fuel heap a b,
    类型系统.check_assignment fuel heap (基本类型 a) (基本类型 b)
    = Some (基本类型_is_assignable_from a (基本类型 b))
    /\ (基本类型_is_assignable_from a (基本类型 b) = true
        <-> (a = b \/ (a = 基本类型枚举.浮点数 /\ b = 基本类型枚举.整数))).
Proof.
  intros fuel heap a b. split; [reflexivity|].
  destruct a, b; simpl; split; intro H;
    first [ discriminate H
          | reflexivity
          | (left; reflexivity)
          | (right; split; reflexivity)
          | (destruct H as [H | [H1 H2]]; discriminate) ].
Qed.


(** Overwriting a symbol by one of the same type does not change the type
    read at its address. *)
Lemma 符号_类型_写 (heap : 符号堆) :
  forall addr x,
    符号_类型 x = 符号_类型 (取符号 heap addr) ->
    符号_类型 (取符号 (写 heap addr x) addr) = 符号_类型 (取符号 heap addr).
Proof.
  induction heap as [|y heap IH]; intros [|addr] x H; try reflexivity.
  - exact H.
  - apply (IH addr x). exact H.
Qed.

(** C3.  [is_assignable] has no case for the unknown type: on primitive
    types it returns true exactly when the two kinds are identical or the
    target is Float and the value is Int, so an unknown value is refused by
    every other target and an unknown target refuses every other value.
    The analyzer guards the call for an unknown target only: assigning a
    value of unknown type to a variable of a known type is reported as
    [类型不兼容], as in [x = 1; func f(p) { x = p; }], where the parameter
    [p] has the unknown type. *)
Theorem assignment_rejects_unknown_value :
  (forall fuel heap a b,
     类型系统.check_assignment fuel heap (基本类型 a) (基本类型 b) = Some true
     <-> (a = b \/ (a = 基本类型枚举.浮点数 /\ b = 基本类型枚举.整数)))
  /\ (forall fuel heap a,
        a <> 基本类型枚举.未知 ->
        类型系统.check_assignment fuel heap (基本类型 a) 类型系统.未知类型 = Some false
        /\ 类型系统.check_assignment fuel heap 类型系统.未知类型 (基本类型 a)
           = Some false)
  /\ (forall fuel name value l c l' c' self s1 value_result addr a l0 c0 i,
        语义分析器.visit_表达式 fuel value self = Some (value_result, s1) ->
        结果类型 value_result = 类型系统.未知类型 ->
        作用域管理器.lookup_symbol name (语义分析器.作用域管理器_ s1) = Some addr ->
        取符号 (语义分析器.符号们 s1) addr = 变量符号 name (基本类型 a) l0 c0 i ->
        a <> 基本类型枚举.未知 ->
        exists self',
          语义分析器.visit_表达式 (S fuel)
            (赋值表达式 (标识符表达式 name l' c') value l c) self
          = Some (mk分析结果 (基本类型 a) false, self')
          /\ 语义分析器.错误列表 self'
             = (语义分析器.错误列表 s1
                ++ [语义错误.mk
                      [文 "类型不兼容：无法将 "; 型 类型系统.未知类型;
                       文 " 赋值给 "; 型 (基本类型 a)] l c])%list)
  /\ (exists program self',
        Parser.parse_source 400 "x = 1; func f(p) { x = p; }" = Parser.Parsed program
        /\ 语义分析器.analyze 20 program 语义分析器.init
           = Some ([语义错误.mk
                      [文 "类型不兼容：无法将 "; 型 类型系统.未知类型;
                       文 " 赋值给 "; 型 类型系统.整数类型] 1 22],
                   self')).
Proof.
  split; [|split; [|split]].
  - intros fuel heap a b.
    destruct (is_assignable_primitive fuel heap a b) as [E H].
    rewrite E. rewrite <- H. split; [intros G; injection G; auto | intros ->; reflexivity].
  - intros fuel heap a Ha. destruct a; try (contradiction Ha; reflexivity);
      split; reflexivity.
  - intros fuel name value l c l' c' self s1 value_result addr a l0 c0 i
      Hv Ht Hl Hs Ha.
    cbn [语义分析器.visit_表达式]. unfold 语义分析器.bind at 1. rewrite Hv.
    unfold 语义分析器.bind at 1. unfold 语义分析器.lookup_symbol at 1. rewrite Hl.
    unfold 语义分析器.bind at 1. unfold 语义分析器.读符号 at 1. rewrite Hs.
    cbn [是变量符号 是参数符号 orb negb 符号_类型 是未知类型].
    assert (Hu : 基本类型枚举.eqb a 基本类型枚举.未知 = false).
    { unfold 基本类型枚举.eqb. destruct (基本类型枚举.eq_dec a 基本类型枚举.未知);
        [contradiction | reflexivity]. }
    rewrite Hu, Ht. cbn [negb].
    assert (Hc : forall heap,
               类型系统.check_assignment fuel heap (基本类型 a) 类型系统.未知类型
               = Some false).
    { intros heap. destruct a; try (contradiction Ha; reflexivity); reflexivity. }
    unfold 语义分析器.bind, 语义分析器.check_assignment. rewrite Hc.
    cbn [语义分析器.ret negb 语义分析器.当_ 语义分析器.error 语义分析器.改符号
           语义分析器.读符号].
    unfold 语义分析器.ret. simpl.
    rewrite 符号_类型_写 by (rewrite Hs; reflexivity).
    rewrite Hs. simpl.
    eexists. split; reflexivity.
  - eexists _, _. split.
    + vm_compute. reflexivity.
    + vm_compute. reflexivity.
Qed.

Lemma assignment_rejects_unknown_value_witness :
  let heap := [变量符号 (VStr "x") 类型系统.整数类型 1 3 true;
               参数符号 (VStr "p") 类型系统.未知类型 0 1 8] in
  let self :=
    语义分析器.mk
      (作用域管理器.mk [符号表.mk 0 [文 "全局作用域"] [(VStr "x", 0); (VStr "p", 1)]]
         (Some 0) 1)
      [] None false heap [] in
  exists self',
    语义分析器.visit_表达式 2
      (赋值表达式 (标识符表达式 (VStr "x") 1 20) (标识符表达式 (VStr "p") 1 24) 1 22)
      self
    = Some (mk分析结果 类型系统.整数类型 false, self')
    /\ 语义分析器.错误列表 self'
       = [语义错误.mk
            [文 "类型不兼容：无法将 "; 型 类型系统.未知类型;
             文 " 赋值给 "; 型 类型系统.整数类型] 1 22].
Proof.
  intros heap self.
  apply (proj1 (proj2 (proj2 assignment_rejects_unknown_value)) 1 (VStr "x")
           (标识符表达式 (VStr "p") 1 24) 1%Z 22%Z 1%Z 20%Z self self
           (mk分析结果 类型系统.未知类型 true) 0 基本类型枚举.整数 1%Z 3%Z true);
    first [reflexivity | discriminate].
Defined.
(** ** Symbol tables *)

Lemma 名称相同_true (a b : Value) : 名称相同 a b = true <-> a = b.
Proof.
  unfold 名称相同. destruct (Value_eq_dec a b); split; congruence.
Qed.


Lemma 字典存_absent {A : Type} (d : list (Value * A)) (k : Value) (v : A) :
  字典取 d k = None -> 字典存 d k v = (d ++ [(k, v)])%list.
Proof.
  induction d as [|[k' v'] d IH]; simpl; [reflexivity|].
  destruct (名称相同 k k'); [discriminate|].
  intros H. rewrite IH by assumption. reflexivity.
Qed.

Lemma 字典取_app_new {A : Type} (d : list (Value * A)) (k : Value) (v : A) :
  字典取 d k = None -> 字典取 (d ++ [(k, v)])%list k = Some v.
Proof.
  induction d as [|[k' v'] d IH]; simpl.
  - intros _. rewrite (proj2 (名称相同_true k k) eq_refl). reflexivity.
  - destruct (名称相同 k k'); [discriminate | exact IH].
Qed.

Lemma define_absent (heap : 符号堆) (self : 符号表.t) (符号 : nat) :
  字典含 (符号表.符号映射 self) (符号_名称 (取符号 heap 符号)) = false ->
  符号表.define heap self 符号
  = (true, 符号表.mk (符号表.编号 self) (符号表.名称 self)
             (符号表.符号映射 self ++ [(符号_名称 (取符号 heap 符号), 符号)])%list).
Proof.
  unfold 符号表.define, 字典含.
  destruct (字典取 (符号表.符号映射 self) (符号_名称 (取符号 heap 符号))) eqn:E;
    [discriminate|].
  intros _. rewrite 字典存_absent by assumption. reflexivity.
Qed.

Lemma define_present (heap : 符号堆) (self : 符号表.t) (符号 : nat) :
  字典含 (符号表.符号映射 self) (符号_名称 (取符号 heap 符号)) = true ->
  符号表.define heap self 符号 = (false, self).
Proof.
  unfold 符号表.define. intros ->. reflexivity.
Qed.



(** ** The analyzer *)

Lemma 栈保持_refl (s : list 符号表.t) : 栈保持 s s.
Proof.
  destruct s as [|top rest]; simpl; [exact I|].
  repeat split. exists []. rewrite app_nil_r. reflexivity.
Qed.

Lemma 栈保持_trans (a b c : list 符号表.t) :
  栈保持 a b -> 栈保持 b c -> 栈保持 a c.
Proof.
  destruct a as [|ta ra], b as [|tb rb], c as [|tc rc]; simpl; try tauto.
  intros (-> & Hi & Hn & l1 & H1) (-> & Hi' & Hn' & l2 & H2).
  repeat split; try congruence.
  exists (l1 ++ l2)%list. rewrite H2, H1, app_assoc. reflexivity.
Qed.

Lemma 管理器保持_refl (m : 作用域管理器.t) : 管理器保持 m m.
Proof.
  repeat split; [apply 栈保持_refl | auto | lia].
Qed.

Lemma 管理器保持_trans (a b c : 作用域管理器.t) :
  管理器保持 a b -> 管理器保持 b c -> 管理器保持 a c.
Proof.
  intros (H1 & H2 & H3) (H1' & H2' & H3').
  repeat split; [eapply 栈保持_trans; eassumption | auto | lia].
Qed.

Lemma bind_Some {A B : Type} (m : 语义分析器.M A) (k : A -> 语义分析器.M B)
    (self : 语义分析器.t) (x : B * 语义分析器.t) :
  语义分析器.bind m k self = Some x ->
  exists a s1, m self = Some (a, s1) /\ k a s1 = Some x.
Proof.
  unfold 语义分析器.bind. destruct (m self) as [[a s1]|]; [|discriminate].
  intros H. exists a, s1. split; [reflexivity | exact H].
Qed.

Lemma 保持_bind {A B : Type} (m : 语义分析器.M A) (k : A -> 语义分析器.M B) :
  保持 m -> (forall a, 保持 (k a)) -> 保持 (语义分析器.bind m k).
Proof.
  intros Hm Hk self b self' H.
  apply bind_Some in H. destruct H as (a & s1 & H1 & H2).
  eapply 管理器保持_trans; [eapply Hm | eapply Hk]; eassumption.
Qed.

Lemma 保持_ret {A : Type} (a : A) : 保持 (语义分析器.ret a).
Proof.
  intros self b self' H. injection H as _ <-. apply 管理器保持_refl.
Qed.

Lemma 保持_out_of_fuel {A : Type} : 保持 (@语义分析器.out_of_fuel A).
Proof. intros self b self' H. discriminate H. Qed.

(** A computation that does not touch the scope manager. *)
Lemma 保持_same {A : Type} (m : 语义分析器.M A) :
  (forall self a self', m self = Some (a, self') ->
     语义分析器.作用域管理器_ self' = 语义分析器.作用域管理器_ self) ->
  保持 m.
Proof.
  intros Hm self a self' H. rewrite (Hm _ _ _ H). apply 管理器保持_refl.
Qed.

Lemma 保持_error (message : list 片段) (l c : Z) : 保持 (语义分析器.error message l c).
Proof. apply 保持_same. intros self a self' H. injection H as _ <-. reflexivity. Qed.

Lemma 保持_新符号 (s : 符号) : 保持 (语义分析器.新符号 s).
Proof. apply 保持_same. intros self a self' H. injection H as _ <-. reflexivity. Qed.

Lemma 保持_读符号 (a : nat) : 保持 (语义分析器.读符号 a).
Proof. apply 保持_same. intros self x self' H. injection H as _ <-. reflexivity. Qed.

Lemma 保持_改符号 (a : nat) (f : 符号 -> 符号) : 保持 (语义分析器.改符号 a f).
Proof. apply 保持_same. intros self x self' H. injection H as _ <-. reflexivity. Qed.

Lemma 保持_新函数类型 (o : 函数类型对象) : 保持 (语义分析器.新函数类型 o).
Proof. apply 保持_same. intros self x self' H. injection H as _ <-. reflexivity. Qed.

Lemma 保持_读函数类型 (a : nat) : 保持 (语义分析器.读函数类型 a).
Proof. apply 保持_same. intros self x self' H. injection H as _ <-. reflexivity. Qed.

Lemma 保持_设返回类型 (a : nat) (r : 类型) : 保持 (语义分析器.设返回类型 a r).
Proof. apply 保持_same. intros self x self' H. injection H as _ <-. reflexivity. Qed.

Lemma 保持_设当前函数返回类型 (r : option 类型) :
  保持 (语义分析器.设当前函数返回类型 r).
Proof. apply 保持_same. intros self x self' H. injection H as _ <-. reflexivity. Qed.

Lemma 保持_取当前函数返回类型 : 保持 语义分析器.取当前函数返回类型.
Proof. apply 保持_same. intros self x self' H. injection H as _ <-. reflexivity. Qed.

Lemma 保持_lookup_symbol (n : Value) : 保持 (语义分析器.lookup_symbol n).
Proof. apply 保持_same. intros self x self' H. injection H as _ <-. reflexivity. Qed.

Lemma 保持_lookup_symbol_current_scope (n : Value) :
  保持 (语义分析器.lookup_symbol_current_scope n).
Proof. apply 保持_same. intros self x self' H. injection H as _ <-. reflexivity. Qed.

Lemma 保持_兼容 (fuel : nat) (a b : 类型) : 保持 (语义分析器.兼容 fuel a b).
Proof.
  apply 保持_same. intros self x self' H. unfold 语义分析器.兼容 in H.
  destruct (is_compatible_with fuel (语义分析器.函数类型们 self) a b); [|discriminate].
  injection H as _ <-. reflexivity.
Qed.

Lemma 保持_check_assignment (fuel : nat) (a b : 类型) :
  保持 (语义分析器.check_assignment fuel a b).
Proof.
  apply 保持_same. intros self x self' H. unfold 语义分析器.check_assignment in H.
  destruct (类型系统.check_assignment fuel (语义分析器.函数类型们 self) a b);
    [|discriminate].
  injection H as _ <-. reflexivity.
Qed.

Lemma define_栈保持 (heap : 符号堆) (top : 符号表.t) (符号 : nat) :
  符号表.编号 (snd (符号表.define heap top 符号)) = 符号表.编号 top
  /\ 符号表.名称 (snd (符号表.define heap top 符号)) = 符号表.名称 top
  /\ exists added,
       符号表.符号映射 (snd (符号表.define heap top 符号))
       = (符号表.符号映射 top ++ added)%list.
Proof.
  destruct (字典含 (符号表.符号映射 top) (符号_名称 (取符号 heap 符号))) eqn:E.
  - rewrite (define_present _ _ _ E). simpl. repeat split.
    exists []. rewrite app_nil_r. reflexivity.
  - rewrite (define_absent _ _ _ E). simpl. repeat split. eexists. reflexivity.
Qed.

Lemma 保持_define_symbol (符号 : nat) : 保持 (语义分析器.define_symbol 符号).
Proof.
  intros self ok self' H. unfold 语义分析器.define_symbol in H.
  destruct (作用域管理器.define_symbol (语义分析器.符号们 self) 符号
              (语义分析器.作用域管理器_ self)) as [ok' m] eqn:E.
  injection H as _ <-. simpl.
  unfold 作用域管理器.define_symbol in E.
  destruct (作用域管理器.作用域栈 (语义分析器.作用域管理器_ self))
    as [|top rest] eqn:Es.
  - injection E as _ <-. apply 管理器保持_refl.
  - pose proof (define_栈保持 (语义分析器.符号们 self) top 符号) as Hd.
    destruct (符号表.define (语义分析器.符号们 self) top 符号) as [ok'' top'].
    injection E as _ <-. simpl in Hd.
    repeat split; simpl; try rewrite Es; simpl; try tauto; auto.
Qed.

Lemma 保持_当_ (b : bool) (m : 语义分析器.M unit) :
  保持 m -> 保持 (语义分析器.当_ b m).
Proof.
  intros H. destruct b; simpl; [exact H | apply 保持_ret].
Qed.

Lemma 保持_逐个 {A B : Type} (f : A -> 语义分析器.M B) (l : list A) :
  (forall x, 保持 (f x)) -> 保持 (语义分析器.逐个 f l).
Proof.
  intros Hf. induction l as [|x l IH]; simpl.
  - apply 保持_ret.
  - apply 保持_bind; [apply Hf|]. intros r.
    apply 保持_bind; [exact IH|]. intros rs. apply 保持_ret.
Qed.

Lemma 保持_enter_scope {A : Type} (名称 : list 片段) (k : unit -> 语义分析器.M A) :
  (forall u, 出栈后保持 (k u)) ->
  保持 (语义分析器.bind (语义分析器.enter_scope 名称) k).
Proof.
  intros Hk self a self' H.
  apply bind_Some in H. destruct H as (u & s1 & H1 & H2).
  injection H1 as _ <-.
  specialize (Hk u _ _ _ _ _ H2 eq_refl). simpl in Hk.
  eapply 管理器保持_trans; [|exact Hk].
  repeat split; simpl; [apply 栈保持_refl | | lia].
  intros g Hg. rewrite Hg. reflexivity.
Qed.

Lemma 出栈后保持_bind {A B : Type} (m : 语义分析器.M A) (k : A -> 语义分析器.M B) :
  保持 m -> (forall a, 出栈后保持 (k a)) -> 出栈后保持 (语义分析器.bind m k).
Proof.
  intros Hm Hk self b self' top rest H Hs.
  apply bind_Some in H. destruct H as (a & s1 & H1 & H2).
  destruct (Hm _ _ _ H1) as (Hst & Hg & Hn).
  rewrite Hs in Hst.
  destruct (作用域管理器.作用域栈 (语义分析器.作用域管理器_ s1))
    as [|top1 rest1] eqn:Es1; simpl in Hst; [contradiction|].
  destruct Hst as (-> & _).
  specialize (Hk a _ _ _ _ _ H2 Es1).
  eapply 管理器保持_trans; [|exact Hk].
  repeat split; simpl; [apply 栈保持_refl | exact Hg | exact Hn].
Qed.

Lemma 出栈后保持_exit_scope {A : Type} (k : option 符号表.t -> 语义分析器.M A) :
  (forall r, 保持 (k r)) ->
  出栈后保持 (语义分析器.bind 语义分析器.exit_scope k).
Proof.
  intros Hk self b self' top rest H Hs.
  apply bind_Some in H. destruct H as (r & s1 & H1 & H2).
  unfold 语义分析器.exit_scope, 作用域管理器.exit_scope in H1.
  rewrite Hs in H1. injection H1 as _ <-.
  exact (Hk _ _ _ _ H2).
Qed.

Ltac 保持_step IH :=
  first
    [ apply 保持_ret
    | apply 保持_out_of_fuel
    | apply 保持_error
    | apply 保持_新符号
    | apply 保持_读符号
    | apply 保持_改符号
    | apply 保持_新函数类型
    | apply 保持_读函数类型
    | apply 保持_设返回类型
    | apply 保持_设当前函数返回类型
    | apply 保持_取当前函数返回类型
    | apply 保持_lookup_symbol
    | apply 保持_lookup_symbol_current_scope
    | apply 保持_兼容
    | apply 保持_check_assignment
    | apply 保持_define_symbol
    | apply IH
    | apply 保持_当_
    | (apply 保持_逐个; intros ?)
    | (apply 保持_enter_scope; intros ?)
    | (apply 出栈后保持_exit_scope; intros ?)
    | (apply 出栈后保持_bind; [|intros ?])
    | (apply 保持_bind; [|intros ?])
    | match goal with
      | |- 保持 (match ?x with _ => _ end) => destruct x
      | |- 出栈后保持 (match ?x with _ => _ end) => destruct x
      end ].

Lemma 保持_visit_表达式 (fuel : nat) :
  forall node, 保持 (语义分析器.visit_表达式 fuel node).
Proof.
  induction fuel as [|fuel IH]; intros node.
  - apply 保持_out_of_fuel.
  - destruct node; simpl; repeat 保持_step IH.
Qed.

Lemma 保持_定义参数 (参数列表 : list Value) :
  forall i l c, 保持 (语义分析器.定义参数 i 参数列表 l c).
Proof.
  induction 参数列表 as [|p ps IH]; intros i l c; simpl; repeat 保持_step IH.
Qed.

Lemma 保持_visit_语句 (fuel : nat) :
  forall node, 保持 (语义分析器.visit_语句 fuel node).
Proof.
  induction fuel as [|fuel IH]; intros node.
  - apply 保持_out_of_fuel.
  - destruct node; simpl;
      repeat first [apply 保持_visit_表达式 | apply 保持_定义参数 | 保持_step IH].
Qed.

Lemma 管理器保持_编号 (m m' : 作用域管理器.t) (n : nat) :
  管理器保持 m m' ->
  Forall (fun s => 符号表.编号 s < n) (作用域管理器.作用域栈 m) ->
  Forall (fun s => 符号表.编号 s < n) (作用域管理器.作用域栈 m').
Proof.
  intros (Hs & _ & _) Hall.
  destruct (作用域管理器.作用域栈 m) as [|top rest],
           (作用域管理器.作用域栈 m') as [|top' rest']; simpl in Hs;
    try contradiction; [constructor|].
  destruct Hs as (-> & Hid & _). inversion Hall; subst.
  constructor; [rewrite Hid; assumption | assumption].
Qed.

(** C10.  Every visit of a statement returns with the scope stack it was
    given: the scopes below the innermost one are untouched, the innermost
    one is the same object with its bindings extended, and no scope
    created during the visit (an identity at or above the creation count
    at entry) is left on the stack, so each scope pushed for a function or
    a block has been popped again by the time the visit returns.  After
    [analyze] on a fresh analyzer the stack is the single global scope,
    the object created first, still holding the builtins. *)
Theorem analyze_restores_scope_stack :
  (forall fuel node self r self',
     语义分析器.visit_语句 fuel node self = Some (r, self') ->
     管理器保持 (语义分析器.作用域管理器_ self) (语义分析器.作用域管理器_ self')
     /\ forall n,
          Forall (fun s => 符号表.编号 s < n)
            (作用域管理器.作用域栈 (语义分析器.作用域管理器_ self)) ->
          Forall (fun s => 符号表.编号 s < n)
            (作用域管理器.作用域栈 (语义分析器.作用域管理器_ self')))
  /\ (forall fuel ast errors self',
        语义分析器.analyze fuel ast 语义分析器.init = Some (errors, self') ->
        exists g added,
          作用域管理器.作用域栈 (语义分析器.作用域管理器_ self') = [g]
          /\ 符号表.编号 g = 0
          /\ 符号表.名称 g = [文 "全局作用域"]
          /\ 作用域管理器.全局作用域 (语义分析器.作用域管理器_ self') = Some 0
          /\ 符号表.符号映射 g
             = ([(VStr "print", 0); (VStr "len", 1); (VStr "str", 2)] ++ added)%list).
Proof.
  split.
  - intros fuel node self r self' H.
    pose proof (保持_visit_语句 fuel node _ _ _ H) as Hk.
    split; [exact Hk|]. intros n. apply 管理器保持_编号. exact Hk.
  - intros fuel [语句列表] errors self' H.
    unfold 语义分析器.analyze in H.
    match type of H with
    | match ?v ?s0 with _ => _ end = _ =>
      destruct (v s0) as [[r s1]|] eqn:E; [|discriminate]
    end.
    injection H as _ <-.
    assert (Hk : 保持 (语义分析器.visit_程序 fuel (程序_ 语句列表))).
    { simpl. apply 保持_bind; [|intros ?; apply 保持_ret].
      apply 保持_逐个. intros x. apply 保持_visit_语句. }
    destruct (Hk _ _ _ E) as (Hs & Hg & _). simpl in Hs, Hg.
    destruct (作用域管理器.作用域栈 (语义分析器.作用域管理器_ s1)) as [|g rest];
      [contradiction|].
    destruct Hs as (-> & Hid & Hname & added & Hmap).
    exists g, added. repeat split; auto.
Qed.

Lemma analyze_restores_scope_stack_witness :
  match Parser.parse_source 80 "func f(a) { { x = a; } return x; } { f(1); }" with
  | Parser.Parsed ast =>
    match 语义分析器.analyze 40 ast 语义分析器.init with
    | Some (_, self') =>
      exists g added,
        作用域管理器.作用域栈 (语义分析器.作用域管理器_ self') = [g]
        /\ 符号表.编号 g = 0
        /\ 符号表.名称 g = [文 "全局作用域"]
        /\ 作用域管理器.全局作用域 (语义分析器.作用域管理器_ self') = Some 0
        /\ 符号表.符号映射 g
           = ([(VStr "print", 0); (VStr "len", 1); (VStr "str", 2)] ++ added)%list
    | None => False
    end
  | _ => False
  end.
Proof.
  destruct (Parser.parse_source 80 "func f(a) { { x = a; } return x; } { f(1); }")
    as [ast| | |] eqn:Ep; try (vm_compute in Ep; discriminate Ep).
  destruct (语义分析器.analyze 40 ast 语义分析器.init) as [[errors self']|] eqn:Ea.
  - exact (proj2 analyze_restores_scope_stack 40 ast errors self' Ea).
  - vm_compute in Ep. injection Ep as <-. vm_compute in Ea. discriminate Ea.
Defined.




(** ** The scanner *)

Lemma 首_跳过 (s : string) : forall n, String.get n s = 首 (跳过 n s).
Proof.
  induction s as [|c s IH]; intros [|n]; simpl; auto.
Qed.

Lemma 跳过_length (s : string) :
  forall n, String.length (跳过 n s) = String.length s - n.
Proof.
  induction s as [|c s IH]; intros [|n]; simpl; auto.
Qed.

Lemma 跳过_S (s : string) :
  forall n c rest, 跳过 n s = String c rest -> 跳过 (S n) s = rest.
Proof.
  induction s as [|a s IH]; intros [|n] c rest H; simpl in *;
    try discriminate.
  - injection H as _ <-. reflexivity.
  - eapply IH. eassumption.
Qed.

Lemma 跳过_S_nil (s : string) :
  forall n, 跳过 n s = EmptyString -> 跳过 (S n) s = EmptyString.
Proof.
  induction s as [|a s IH]; intros [|n] H; simpl in *;
    try discriminate; auto.
Qed.

Lemma 良构_init (src : string) : 良构 (Lexer.init src).
Proof.
  split; simpl; [reflexivity|]. unfold 余文. simpl. destruct src; reflexivity.
Qed.

Lemma 良构_advance (self : Lexer.t) :
  良构 self ->
  良构 (Lexer.advance self)
  /\ Lexer.source (Lexer.advance self) = Lexer.source self
  /\ Lexer.position (Lexer.advance self) = S (Lexer.position self)
  /\ 余文 (Lexer.advance self) = 跳过 (S (Lexer.position self)) (Lexer.source self).
Proof.
  intros [Hl Hc]. unfold 良构, 余文, Lexer.advance.
  cbn [Lexer.source Lexer.position Lexer.length Lexer.current_char].
  repeat split; auto.
  destruct (Lexer.length self <=? S (Lexer.position self)) eqn:E.
  - apply Nat.leb_le in E.
    pose proof (跳过_length (Lexer.source self) (S (Lexer.position self))) as Hn.
    rewrite Hl in E.
    destruct (跳过 (S (Lexer.position self)) (Lexer.source self)); [reflexivity|].
    simpl in Hn. lia.
  - apply 首_跳过.
Qed.

(** When a character is under the cursor, [advance] moves to the rest of
    the text. *)
Lemma 余文_advance (self : Lexer.t) (c : ascii) :
  良构 self ->
  Lexer.current_char self = Some c ->
  exists rest,
    余文 self = String c rest /\ 余文 (Lexer.advance self) = rest
    /\ 良构 (Lexer.advance self)
    /\ Lexer.source (Lexer.advance self) = Lexer.source self.
Proof.
  intros Hwf Hc.
  destruct (良构_advance self Hwf) as (Hwf' & Hs & _ & Ht).
  destruct Hwf as [_ Hcur]. rewrite Hc in Hcur.
  destruct (余文 self) as [|c' rest] eqn:E; [discriminate|].
  injection Hcur as ->. exists rest.
  split; [reflexivity|].
  split; [rewrite Ht; eapply 跳过_S; exact E|].
  split; assumption.
Qed.

Lemma 余文_nil (self : Lexer.t) :
  良构 self -> Lexer.current_char self = None -> 余文 self = EmptyString.
Proof.
  intros [_ Hcur] Hc. rewrite Hc in Hcur.
  destruct (余文 self); [reflexivity | discriminate].
Qed.

(** *** More fuel gives the same outcome *)

Lemma 不减_bind {A B : Type} (m1 m2 : Lexer.outcome A)
    (k1 k2 : A -> Lexer.t -> Lexer.outcome B) :
  不减 m1 m2 -> (forall a s, 不减 (k1 a s) (k2 a s)) ->
  不减 (Lexer.bind m1 k1) (Lexer.bind m2 k2).
Proof.
  intros [-> | ->] Hk; [left; reflexivity|].
  destruct m2; simpl; [apply Hk | right; reflexivity | left; reflexivity].
Qed.

Lemma 不减_elim {A : Type} (r1 r2 : Lexer.outcome A) :
  不减 r1 r2 -> r1 <> Lexer.OutOfFuel -> r2 = r1.
Proof. intros [-> | ->] H; [contradiction | reflexivity]. Qed.

Ltac 不减_tac IH :=
  repeat first
    [ (left; reflexivity)
    | (right; reflexivity)
    | (apply IH; lia)
    | (apply 不减_bind; [|intros ? ?])
    | match goal with
      | |- 不减 (match ?x with _ => _ end) (match ?x with _ => _ end) => destruct x
      | |- 不减 (if ?x then _ else _) (if ?x then _ else _) => destruct x
      end ].

Lemma 不减_skip_whitespace (n : nat) :
  forall m self, n <= m ->
    不减 (Lexer.skip_whitespace n self) (Lexer.skip_whitespace m self).
Proof.
  induction n as [|n IH]; intros [|m] self H; try lia; simpl; 不减_tac IH.
Qed.

Lemma 不减_skip_to_eol (n : nat) :
  forall m self, n <= m ->
    不减 (Lexer.skip_to_eol n self) (Lexer.skip_to_eol m self).
Proof.
  induction n as [|n IH]; intros [|m] self H; try lia; simpl; 不减_tac IH.
Qed.

Lemma 不减_skip_line_comment (n m : nat) (self : Lexer.t) :
  n <= m ->
  不减 (Lexer.skip_line_comment n self) (Lexer.skip_line_comment m self).
Proof. intros H. apply 不减_skip_to_eol. exact H. Qed.

Lemma 不减_read_number_loop (n : nat) :
  forall m self number_str has_dot, n <= m ->
    不减 (Lexer.read_number_loop n self number_str has_dot)
         (Lexer.read_number_loop m self number_str has_dot).
Proof.
  induction n as [|n IH]; intros [|m] self number_str has_dot H; try lia;
    simpl; 不减_tac IH.
Qed.

Lemma 不减_read_number (n m : nat) (self : Lexer.t) :
  n <= m -> 不减 (Lexer.read_number n self) (Lexer.read_number m self).
Proof.
  intros H. unfold Lexer.read_number.
  apply 不减_bind; [apply 不减_read_number_loop; exact H|].
  intros a s. right. reflexivity.
Qed.

Lemma 不减_read_string_loop (n : nat) :
  forall m self quote_char string_value, n <= m ->
    不减 (Lexer.read_string_loop n self quote_char string_value)
         (Lexer.read_string_loop m self quote_char string_value).
Proof.
  induction n as [|n IH]; intros [|m] self quote_char string_value H; try lia;
    simpl; 不减_tac IH.
Qed.

Lemma 不减_read_string (n m : nat) (self : Lexer.t) :
  n <= m -> 不减 (Lexer.read_string n self) (Lexer.read_string m self).
Proof.
  intros H. unfold Lexer.read_string.
  apply 不减_bind; [apply 不减_read_string_loop; exact H|].
  intros a s. right. reflexivity.
Qed.

Lemma 不减_read_identifier_loop (n : nat) :
  forall m self identifier, n <= m ->
    不减 (Lexer.read_identifier_loop n self identifier)
         (Lexer.read_identifier_loop m self identifier).
Proof.
  induction n as [|n IH]; intros [|m] self identifier H; try lia;
    simpl; 不减_tac IH.
Qed.

Lemma 不减_read_identifier (n m : nat) (self : Lexer.t) :
  n <= m -> 不减 (Lexer.read_identifier n self) (Lexer.read_identifier m self).
Proof.
  intros H. unfold Lexer.read_identifier.
  apply 不减_bind; [apply 不减_read_identifier_loop; exact H|].
  intros a s. right. reflexivity.
Qed.

Lemma 不减_next_token (n : nat) :
  forall m self, n <= m ->
    不减 (Lexer.next_token n self) (Lexer.next_token m self).
Proof.
  induction n as [|n IH]; intros [|m] self H; try lia;
    try (left; reflexivity).
  simpl.
  repeat first
    [ (left; reflexivity)
    | (right; reflexivity)
    | (apply IH; lia)
    | (apply 不减_skip_whitespace; lia)
    | (apply 不减_skip_line_comment; lia)
    | (apply 不减_read_number; lia)
    | (apply 不减_read_string; lia)
    | (apply 不减_read_identifier; lia)
    | (apply 不减_bind; [|intros ? ?])
    | match goal with
      | |- 不减 (match ?x with _ => _ end) (match ?x with _ => _ end) => destruct x
      | |- 不减 (if ?x then _ else _) (if ?x then _ else _) => destruct x
      end ].
Qed.

Lemma 不减_tokenize_loop (n : nat) :
  forall m self tokens, n <= m ->
    不减 (Lexer.tokenize_loop n self tokens) (Lexer.tokenize_loop m self tokens).
Proof.
  induction n as [|n IH]; intros [|m] self tokens H; try lia;
    try (left; reflexivity).
  simpl. apply 不减_bind; [apply 不减_next_token; lia|].
  intros a s. 不减_tac IH.
Qed.

(** *** Enough fuel: every loop stops, in a consistent state *)

Lemma peek_advance (self : Lexer.t) :
  Lexer.peek self 1 = Lexer.current_char (Lexer.advance self).
Proof.
  unfold Lexer.peek, Lexer.advance. simpl. rewrite Nat.add_1_r. reflexivity.
Qed.

Opaque Lexer.advance.

Lemma 后_impl {A : Type} (r : Lexer.outcome A)
    (Q Q' : A -> Lexer.t -> Prop) (E E' : Lexer.exn -> Prop) :
  后 r Q E -> (forall a s, Q a s -> Q' a s) -> (forall e, E e -> E' e) ->
  后 r Q' E'.
Proof. destruct r; simpl; auto. Qed.

Lemma 后_bind {A B : Type} (m : Lexer.outcome A) (k : A -> Lexer.t -> Lexer.outcome B)
    (Q : A -> Lexer.t -> Prop) (Q' : B -> Lexer.t -> Prop) (E : Lexer.exn -> Prop) :
  后 m Q E -> (forall a s, Q a s -> 后 (k a s) Q' E) ->
  后 (Lexer.bind m k) Q' E.
Proof. destruct m; simpl; auto. Qed.

Ltac 收 := repeat match goal with |- _ /\ _ => split end.

Lemma 文长_advance (self : Lexer.t) (c : ascii) :
  良构 self -> Lexer.current_char self = Some c ->
  良构 (Lexer.advance self)
  /\ Lexer.source (Lexer.advance self) = Lexer.source self
  /\ 文长 self = S (文长 (Lexer.advance self))
  /\ 余文 self = String c (余文 (Lexer.advance self)).
Proof.
  intros Hwf Hc. destruct (余文_advance self c Hwf Hc) as (rest & H1 & H2 & H3 & H4).
  unfold 文长. rewrite H1, H2. simpl. auto.
Qed.

Lemma 后_skip_whitespace (fuel : nat) :
  forall self,
    良构 self -> 文长 self < fuel ->
    后 (Lexer.skip_whitespace fuel self)
      (fun _ s =>
         良构 s /\ Lexer.source s = Lexer.source self /\ 文长 s <= 文长 self
         /\ forall c, Lexer.current_char self = Some c ->
                      isspace c && negb (Ascii.eqb c NEWLINE) = true ->
                      文长 s < 文长 self)
      (fun _ => False).
Proof.
  induction fuel as [|fuel IH]; intros self Hwf Hfuel; [lia|].
  simpl. destruct (Lexer.current_char self) as [c|] eqn:Hc.
  - destruct (isspace c && negb (Ascii.eqb c NEWLINE)) eqn:Hb.
    + destruct (文长_advance self c Hwf Hc) as (Hwf' & Hs & Hl & _).
      eapply 后_impl; [apply IH; [exact Hwf' | lia] | | auto].
      intros [] s (H1 & H2 & H3 & _).
      收; first [assumption | congruence | lia | (intros; lia)].
    + simpl. 收; auto. intros c' Hc' Hb'. congruence.
  - simpl. 收; auto. intros c' Hc'. discriminate.
Qed.

Lemma 后_skip_to_eol (fuel : nat) :
  forall self,
    良构 self -> 文长 self < fuel ->
    后 (Lexer.skip_to_eol fuel self)
      (fun _ s => 良构 s /\ Lexer.source s = Lexer.source self /\ 文长 s <= 文长 self)
      (fun _ => False).
Proof.
  induction fuel as [|fuel IH]; intros self Hwf Hfuel; [lia|].
  simpl. destruct (Lexer.current_char self) as [c|] eqn:Hc.
  - destruct (negb (Ascii.eqb c NEWLINE)).
    + destruct (文长_advance self c Hwf Hc) as (Hwf' & Hs & Hl & _).
      eapply 后_impl; [apply IH; [exact Hwf' | lia] | | auto].
      intros [] s (H1 & H2 & H3). 收; try congruence; lia.
    + simpl. auto.
  - simpl. auto.
Qed.

Lemma 后_skip_line_comment (fuel : nat) (self : Lexer.t) (c d : ascii) :
  良构 self -> 文长 self < fuel ->
  Lexer.current_char self = Some c -> Lexer.peek self 1 = Some d ->
  后 (Lexer.skip_line_comment fuel self)
    (fun _ s => 良构 s /\ Lexer.source s = Lexer.source self /\ 文长 s < 文长 self)
    (fun _ => False).
Proof.
  intros Hwf Hfuel Hc Hd. rewrite peek_advance in Hd.
  destruct (文长_advance self c Hwf Hc) as (Hwf1 & Hs1 & Hl1 & _).
  destruct (文长_advance _ d Hwf1 Hd) as (Hwf2 & Hs2 & Hl2 & _).
  unfold Lexer.skip_line_comment.
  eapply 后_impl; [apply 后_skip_to_eol; [exact Hwf2 | lia] | | auto].
  intros [] s (H1 & H2 & H3). 收; try congruence; lia.
Qed.

Lemma 后_read_identifier_loop (fuel : nat) :
  forall self identifier,
    良构 self -> 文长 self < fuel ->
    后 (Lexer.read_identifier_loop fuel self identifier)
      (fun _ s =>
         良构 s /\ Lexer.source s = Lexer.source self /\ 文长 s <= 文长 self
         /\ forall c, Lexer.current_char self = Some c ->
                      isalnum c || Ascii.eqb c "_" = true ->
                      文长 s < 文长 self)
      (fun _ => False).
Proof.
  induction fuel as [|fuel IH]; intros self identifier Hwf Hfuel; [lia|].
  simpl. destruct (Lexer.current_char self) as [c|] eqn:Hc.
  - destruct (isalnum c || Ascii.eqb c "_") eqn:Hb.
    + destruct (文长_advance self c Hwf Hc) as (Hwf' & Hs & Hl & _).
      eapply 后_impl; [apply IH; [exact Hwf' | lia] | | auto].
      intros a s (H1 & H2 & H3 & _).
      收; first [assumption | congruence | lia | (intros; lia)].
    + simpl. 收; auto. intros c' Hc' Hb'. congruence.
  - simpl. 收; auto. intros c' Hc'. discriminate.
Qed.

Lemma KEYWORDS_not_eof (identifier : string) :
  dict_get KEYWORDS identifier <> Some TokenType.文件结束.
Proof.
  unfold KEYWORDS. simpl.
  repeat match goal with
         | |- (if ?b then _ else _) <> _ => destruct b; [discriminate|]
         end.
  discriminate.
Qed.

Lemma 后_read_identifier (fuel : nat) (self : Lexer.t) (c : ascii) :
  良构 self -> 文长 self < fuel ->
  Lexer.current_char self = Some c -> isalpha c || Ascii.eqb c "_" = true ->
  后 (Lexer.read_identifier fuel self)
    (fun token s =>
       良构 s /\ Lexer.source s = Lexer.source self /\ 文长 s < 文长 self
       /\ Token.类型 token <> TokenType.文件结束)
    (fun _ => False).
Proof.
  intros Hwf Hfuel Hc Hb. unfold Lexer.read_identifier.
  eapply 后_bind; [apply 后_read_identifier_loop; assumption|].
  intros identifier s (H1 & H2 & _ & H4).
  assert (Hlt : 文长 s < 文长 self).
  { apply (H4 c Hc). unfold isalnum.
    apply orb_true_iff in Hb. destruct Hb as [-> | ->]; simpl;
      [reflexivity | apply orb_true_r]. }
  pose proof (KEYWORDS_not_eof identifier) as Hk.
  destruct (dict_get KEYWORDS identifier) as [k|];
    [destruct k | ]; simpl; 收; auto; try discriminate; try congruence.
Qed.

Lemma 后_read_string_loop (fuel : nat) :
  forall self q string_value,
    良构 self -> 文长 self < fuel ->
    后 (Lexer.read_string_loop fuel self (Some q) string_value)
      (fun _ s =>
         良构 s /\ Lexer.source s = Lexer.source self /\ 文长 s <= 文长 self
         /\ ((Lexer.current_char s = Some q /\ 未闭合 q (余文 self) = false)
             \/ (Lexer.current_char s = None /\ 未闭合 q (余文 self) = true)))
      (fun e =>
         (exists message line column, e = Lexer.LexerError message line column)
         /\ 未闭合 q (余文 self) = true).
Proof.
  induction fuel as [|fuel IH]; intros self q string_value Hwf Hfuel; [lia|].
  simpl. destruct (Lexer.current_char self) as [c|] eqn:Hc.
  - destruct (文长_advance self c Hwf Hc) as (Hwf1 & Hs1 & Hl1 & Ht1).
    rewrite (Ascii.eqb_sym q c).
    destruct (Ascii.eqb c q) eqn:Hq; simpl.
    + apply Ascii.eqb_eq in Hq. subst c.
      收; auto. left. split; [assumption|].
      rewrite Ht1. simpl. rewrite Ascii.eqb_refl. reflexivity.
    + destruct (Ascii.eqb c BACKSLASH) eqn:Hbs.
      * destruct (Lexer.current_char (Lexer.advance self)) as [e|] eqn:He.
        -- destruct (文长_advance _ e Hwf1 He) as (Hwf2 & Hs2 & Hl2 & Ht2).
           eapply 后_impl; [apply IH; [exact Hwf2 | lia] | |].
           ++ intros a s (H1 & H2 & H3 & H4).
              收; first [assumption | congruence | lia | idtac].
              rewrite Ht1, Ht2. simpl. rewrite Hq, Hbs. exact H4.
           ++ intros x (H1 & H2). split; [exact H1|].
              rewrite Ht1, Ht2. simpl. rewrite Hq, Hbs. exact H2.
        -- simpl. split; [eexists _, _, _; reflexivity|].
           rewrite Ht1, (余文_nil _ Hwf1 He). simpl. rewrite Hq, Hbs. reflexivity.
      * eapply 后_impl; [apply IH; [exact Hwf1 | lia] | |].
        -- intros a s (H1 & H2 & H3 & H4).
           收; first [assumption | congruence | lia | idtac].
           rewrite Ht1. simpl. rewrite Hq, Hbs. exact H4.
        -- intros x (H1 & H2). split; [exact H1|].
           rewrite Ht1. simpl. rewrite Hq, Hbs. exact H2.
  - simpl. 收; auto. right. split; [exact Hc|].
    rewrite (余文_nil _ Hwf Hc). reflexivity.
Qed.

Lemma 后_read_string (fuel : nat) (self : Lexer.t) (q : ascii) :
  良构 self -> 文长 self < fuel ->
  Lexer.current_char self = Some q ->
  后 (Lexer.read_string fuel self)
    (fun token s =>
       良构 s /\ Lexer.source s = Lexer.source self /\ 文长 s < 文长 self
       /\ Token.类型 token = TokenType.字符串
       /\ 未闭合 q (余文 (Lexer.advance self)) = false)
    (fun e =>
       (exists message line column, e = Lexer.LexerError message line column)
       /\ 未闭合 q (余文 (Lexer.advance self)) = true).
Proof.
  intros Hwf Hfuel Hc. unfold Lexer.read_string. rewrite Hc.
  destruct (文长_advance self q Hwf Hc) as (Hwf1 & Hs1 & Hl1 & Ht1).
  eapply 后_bind; [apply 后_read_string_loop; [exact Hwf1 | lia]|].
  intros string_value s (H1 & H2 & H3 & [[H4 H5] | [H4 H5]]); rewrite H4.
  - rewrite Ascii.eqb_refl. simpl.
    destruct (文长_advance s q H1 H4) as (Hwf2 & Hs2 & Hl2 & _).
    收; first [assumption | congruence | lia | reflexivity].
  - simpl. split; [eexists _, _, _; reflexivity | exact H5].
Qed.

Lemma str_app_nil_r (a : string) : (a ++ "")%string = a.
Proof. induction a as [|c a IH]; simpl; [reflexivity | rewrite IH; reflexivity]. Qed.

Lemma str_app_assoc (a b c : string) : ((a ++ b) ++ c)%string = (a ++ (b ++ c))%string.
Proof. induction a as [|x a IH]; simpl; [reflexivity | rewrite IH; reflexivity]. Qed.

Lemma str_app_length (a b : string) :
  String.length (a ++ b) = String.length a + String.length b.
Proof. induction a as [|x a IH]; simpl; [reflexivity | rewrite IH; reflexivity]. Qed.

Lemma 跳过_plus (s : string) :
  forall n m, 跳过 (n + m) s = 跳过 m (跳过 n s).
Proof.
  induction s as [|c s IH]; intros [|n] m; simpl; auto.
  destruct m; reflexivity.
Qed.

Lemma 跳过_app (a b : string) : 跳过 (String.length a) (a ++ b) = b.
Proof. induction a as [|x a IH]; simpl; [destruct b; reflexivity | exact IH]. Qed.

Lemma endswith_split (s : string) (d : ascii) :
  endswith s d = true -> exists b, s = (b ++ str1 d)%string.
Proof.
  induction s as [|c s IH]; simpl; [discriminate|].
  destruct s as [|c' s'].
  - intros H. apply Ascii.eqb_eq in H. subst. exists ""%string. reflexivity.
  - intros H. destruct (IH H) as [b Hb]. exists (String c b). simpl.
    rewrite <- Hb. reflexivity.
Qed.

Lemma drop_last_snoc (b : string) (d : ascii) : drop_last (b ++ str1 d) = b.
Proof.
  induction b as [|c b IH]; simpl; [reflexivity|].
  rewrite IH. destruct b; reflexivity.
Qed.

Lemma 后_read_number_loop (fuel : nat) :
  forall self number_str has_dot,
    良构 self -> 文长 self < fuel ->
    后 (Lexer.read_number_loop fuel self number_str has_dot)
      (fun r s =>
         良构 s /\ Lexer.source s = Lexer.source self
         /\ exists added,
              fst r = (number_str ++ added)%string
              /\ 余文 self = (added ++ 余文 s)%string
              /\ Lexer.position s = Lexer.position self + String.length added)
      (fun _ => False).
Proof.
  induction fuel as [|fuel IH]; intros self number_str has_dot Hwf Hfuel; [lia|].
  simpl.
  assert (Hstop : forall r : string * bool, fst r = number_str ->
            后 (Lexer.Ret r self)
              (fun r s =>
                 良构 s /\ Lexer.source s = Lexer.source self
                 /\ exists added,
                      fst r = (number_str ++ added)%string
                      /\ 余文 self = (added ++ 余文 s)%string
                      /\ Lexer.position s
                         = Lexer.position self + String.length added)
              (fun _ => False)).
  { intros r Hr. simpl. 收; auto. exists ""%string.
    rewrite str_app_nil_r. simpl. 收; auto. }
  destruct (Lexer.current_char self) as [c|] eqn:Hc; [|apply Hstop; reflexivity].
  destruct (isdigit c || Ascii.eqb c DOT); [|apply Hstop; reflexivity].
  destruct (Ascii.eqb c DOT && has_dot); [apply Hstop; reflexivity|].
  destruct (文长_advance self c Hwf Hc) as (Hwf1 & Hs1 & Hl1 & Ht1).
  destruct (良构_advance self Hwf) as (_ & _ & Hp1 & _).
  eapply 后_impl; [apply IH; [exact Hwf1 | lia] | | auto].
  intros r s (H1 & H2 & added & H3 & H4 & H5).
  收; first [assumption | congruence | idtac].
  exists (String c added). 收.
  - rewrite H3, str_app_assoc. reflexivity.
  - rewrite Ht1, H4. reflexivity.
  - rewrite H5, Hp1. simpl. lia.
Qed.

Lemma isdigit_not_dot (c : ascii) : isdigit c = true -> Ascii.eqb c DOT = false.
Proof.
  intros H. destruct (Ascii.eqb c DOT) eqn:E; [|reflexivity].
  apply Ascii.eqb_eq in E. subst c. discriminate H.
Qed.

Lemma 后_read_number (fuel : nat) (self : Lexer.t) (c : ascii) :
  良构 self -> 文长 self < fuel ->
  Lexer.current_char self = Some c -> isdigit c = true ->
  后 (Lexer.read_number fuel self)
    (fun token s =>
       良构 s /\ Lexer.source s = Lexer.source self /\ 文长 s < 文长 self
       /\ Token.类型 token <> TokenType.文件结束)
    (fun e => e = Lexer.ValueError).
Proof.
  intros Hwf Hfuel Hc Hd. unfold Lexer.read_number.
  destruct fuel as [|fuel]; [lia|]. simpl.
  rewrite Hc, Hd, (isdigit_not_dot c Hd). simpl.
  destruct (文长_advance self c Hwf Hc) as (Hwf1 & Hs1 & Hl1 & Ht1).
  destruct (良构_advance self Hwf) as (_ & _ & Hp1 & _).
  eapply 后_bind;
    [eapply 后_impl; [apply 后_read_number_loop; [exact Hwf1 | lia] | | ];
     [intros a s H; exact H | intros e []] |].
  intros [number_str has_dot] s (H1 & H2 & added & H3 & H4 & H5).
  simpl in H3.
  assert (Hlen : 文长 self = S (String.length added + 文长 s)).
  { rewrite Hl1. unfold 文长 at 1. rewrite H4, str_app_length. reflexivity. }
  destruct (endswith number_str DOT) eqn:Hend.
  - destruct (endswith_split _ _ Hend) as [body Hbody].
    rewrite Hbody, drop_last_snoc.
    assert (Hadded : exists body', added = (body' ++ str1 DOT)%string).
    { rewrite H3 in Hbody. destruct body as [|b body'].
      - simpl in Hbody. destruct added; simpl in Hbody; [|discriminate].
        injection Hbody as ->. discriminate Hd.
      - simpl in Hbody. injection Hbody as _ ->. exists body'. reflexivity. }
    destruct Hadded as [body' ->].
    rewrite str_app_length in Hlen, H5. simpl in Hlen, H5.
    rewrite str_app_assoc in H4. simpl in H4.
    assert (Ht2 : 跳过 (Lexer.position s - 1) (Lexer.source s)
                  = String DOT (余文 s)).
    { replace (Lexer.position s - 1)
        with (Lexer.position (Lexer.advance self) + String.length body') by lia.
      rewrite 跳过_plus, H2. fold (余文 (Lexer.advance self)).
      rewrite H4. apply 跳过_app. }
    assert (Hwf2 : 良构 (Lexer.mk (Lexer.source s) (Lexer.length s)
                          (Lexer.position s - 1) (Lexer.line s)
                          (Lexer.column s - 1)%Z (Some DOT))).
    { destruct H1 as [Hl Hcur]. split; simpl; [exact Hl|].
      unfold 余文. simpl. rewrite Ht2. reflexivity. }
    assert (Hl2 : 文长 (Lexer.mk (Lexer.source s) (Lexer.length s)
                         (Lexer.position s - 1) (Lexer.line s)
                         (Lexer.column s - 1)%Z (Some DOT)) = S (文长 s)).
    { unfold 文长 at 1. unfold 余文. simpl. rewrite Ht2. reflexivity. }
    destruct (py_int body) as [value|]; simpl; [|reflexivity].
    收; first [assumption | congruence | lia | discriminate].
  - destruct has_dot.
    + destruct (py_float number_str) as [value|]; simpl; [|reflexivity].
      收; first [assumption | congruence | lia | discriminate].
    + destruct (py_int number_str) as [value|]; simpl; [|reflexivity].
      收; first [assumption | congruence | lia | discriminate].
Qed.

Lemma TokenType_eqb_true (a b : TokenType.t) : TokenType.eqb a b = true <-> a = b.
Proof.
  unfold TokenType.eqb. destruct (TokenType.eq_dec a b); split; congruence.
Qed.

Lemma TokenType_eqb_false (a b : TokenType.t) : TokenType.eqb a b = false <-> a <> b.
Proof.
  unfold TokenType.eqb. destruct (TokenType.eq_dec a b); split; congruence.
Qed.

Lemma double_get_Some (c : ascii) (next : option ascii) (k : TokenType.t) (text : string) :
  Lexer.double_get Lexer.double_char_tokens c next = Some (k, text) ->
  k <> TokenType.文件结束 /\ exists d, next = Some d.
Proof.
  assert (Hn : (exists d, next = Some d) \/ next = None)
    by (destruct next; [left; eexists; reflexivity | right; reflexivity]).
  destruct Hn as [Hn | ->].
  - simpl.
    repeat match goal with
           | |- (if ?b then _ else _) = _ -> _ =>
             destruct b; [intros H; injection H as <- _; split; [discriminate | exact Hn]|]
           end.
    discriminate.
  - simpl. repeat rewrite andb_false_r. discriminate.
Qed.

Lemma char_get_not_eof (c : ascii) :
  Lexer.char_get Lexer.single_char_tokens c <> Some TokenType.文件结束.
Proof.
  simpl.
  repeat match goal with
         | |- (if ?b then _ else _) <> _ => destruct b; [discriminate|]
         end.
  discriminate.
Qed.

Opaque Lexer.double_get Lexer.char_get.

Lemma 后_next_token (fuel : nat) :
  forall self,
    良构 self -> S (文长 self) < fuel ->
    后 (Lexer.next_token fuel self)
      (fun token s =>
         良构 s /\ Lexer.source s = Lexer.source self
         /\ 文长 s <= 文长 self
         /\ (Token.类型 token <> TokenType.文件结束 -> 文长 s < 文长 self)
         /\ (Token.类型 token = TokenType.文件结束 -> Lexer.current_char s = None))
      (fun _ => True).
Proof.
  induction fuel as [|fuel IH]; intros self Hwf Hfuel; [lia|].
  simpl. destruct (Lexer.current_char self) as [c|] eqn:Hc.
  2:{ simpl. 收; auto. intros H. exfalso. apply H. reflexivity. }
  destruct (文长_advance self c Hwf Hc) as (Hwf1 & Hs1 & Hl1 & Ht1).
  destruct (isspace c && negb (Ascii.eqb c NEWLINE)) eqn:Hsp.
  { eapply 后_bind;
      [eapply 后_impl; [apply 后_skip_whitespace; [exact Hwf | lia] | | ];
       [intros a s H; exact H | intros e []] |].
    intros [] s (H1 & H2 & H3 & H4). specialize (H4 c Hc Hsp).
    eapply 后_impl; [apply IH; [exact H1 | lia] | | auto].
    intros token s' (G1 & G2 & G3 & G4 & G5).
    收; first [assumption | congruence | lia | (intros; lia)]. }
  destruct (Ascii.eqb c NEWLINE).
  { simpl. 收; first [assumption | lia | (intros; lia) | discriminate]. }
  destruct (isdigit c) eqn:Hdg.
  { eapply 后_impl; [apply (后_read_number fuel self c); auto; lia | | auto].
    intros token s (H1 & H2 & H3 & H4).
    收; first [assumption | lia | (intros; lia) | (intros; contradiction)]. }
  destruct (Ascii.eqb c DQUOTE || Ascii.eqb c SQUOTE).
  { eapply 后_impl; [apply (后_read_string fuel self c); auto; lia | | auto].
    intros token s (H1 & H2 & H3 & H4 & _).
    收; first [assumption | lia | (intros; lia) | (intros; congruence)]. }
  destruct (isalpha c || Ascii.eqb c "_") eqn:Hal.
  { eapply 后_impl; [apply (后_read_identifier fuel self c); auto; lia | | auto].
    intros token s (H1 & H2 & H3 & H4).
    收; first [assumption | lia | (intros; lia) | (intros; contradiction)]. }
  destruct (Ascii.eqb c "/" && Lexer.is_char (Lexer.peek self 1) "/") eqn:Hcm.
  { apply andb_true_iff in Hcm. destruct Hcm as [_ Hpk].
    destruct (Lexer.peek self 1) as [d|] eqn:Hd; [|discriminate].
    eapply 后_bind;
      [eapply 后_impl; [apply (后_skip_line_comment fuel self c d); auto; lia | | ];
       [intros a s H; exact H | intros e []] |].
    intros [] s (H1 & H2 & H3).
    eapply 后_impl; [apply IH; [exact H1 | lia] | | auto].
    intros token s' (G1 & G2 & G3 & G4 & G5).
    收; first [assumption | congruence | lia | (intros; lia)]. }
  destruct (Lexer.double_get Lexer.double_char_tokens c (Lexer.peek self 1))
    as [[token_type text]|] eqn:Hdb.
  { destruct (double_get_Some _ _ _ _ Hdb) as (Hk & d & Hd).
    rewrite peek_advance in Hd.
    destruct (文长_advance _ d Hwf1 Hd) as (Hwf2 & Hs2 & Hl2 & _).
    simpl. 收; first [assumption | congruence | lia | (intros; lia)
                      | (intros; contradiction)]. }
  pose proof (char_get_not_eof c) as Hsg.
  destruct (Lexer.char_get Lexer.single_char_tokens c) as [token_type|]; simpl;
    收; first [assumption | lia | (intros; lia) | (intros; congruence)
               | discriminate].
Qed.

Lemma 后_tokenize_loop (fuel : nat) :
  forall self tokens,
    良构 self -> S (S (文长 self)) < fuel ->
    后 (Lexer.tokenize_loop fuel self tokens)
      (fun r _ =>
         exists l t,
           r = (tokens ++ l ++ [t])%list
           /\ Forall (fun x => Token.类型 x <> TokenType.文件结束) l
           /\ Token.类型 t = TokenType.文件结束)
      (fun _ => True).
Proof.
  induction fuel as [|fuel IH]; intros self tokens Hwf Hfuel; [lia|].
  simpl.
  eapply 后_bind; [apply 后_next_token; [exact Hwf | lia]|].
  intros token s (H1 & H2 & H3 & H4 & H5).
  destruct (TokenType.eqb (Token.类型 token) TokenType.文件结束) eqn:E.
  - apply TokenType_eqb_true in E. simpl. exists [], token. auto.
  - apply TokenType_eqb_false in E.
    eapply 后_impl; [apply IH; [exact H1 | specialize (H4 E); lia] | | auto].
    intros r s' (l & t & -> & Hl & Ht).
    exists (token :: l), t. rewrite <- app_assoc. simpl. auto.
Qed.

Lemma 文长_init (src : string) : 文长 (Lexer.init src) = String.length src.
Proof. reflexivity. Qed.

(** C7.  With fuel beyond the length of the source, [tokenize] does not
    run out of fuel; when it returns, the tokens are a sequence without
    an end-of-input token followed by exactly one end-of-input token.  On
    the empty source it returns that one token, at line 1, column 1. *)
Theorem tokenize_ends_with_eof :
  (forall (source_code : string) (fuel : nat),
     String.length source_code + 3 <= fuel ->
     match Lexer.tokenize fuel (Lexer.init source_code) with
     | Lexer.Ret tokens _ =>
       exists l t,
         tokens = (l ++ [t])%list
         /\ Forall (fun x => Token.类型 x <> TokenType.文件结束) l
         /\ Token.类型 t = TokenType.文件结束
     | Lexer.Raise _ => True
     | Lexer.OutOfFuel => False
     end)
  /\ (forall fuel : nat,
        2 <= fuel ->
        Lexer.tokenize fuel (Lexer.init "")
        = Lexer.Ret [Token.mk TokenType.文件结束 VNone 1 1] (Lexer.init "")).
Proof.
  split.
  - intros source_code fuel Hfuel.
    pose proof (后_tokenize_loop fuel (Lexer.init source_code) []
                  (良构_init source_code)) as H.
    rewrite 文长_init in H. specialize (H ltac:(lia)).
    unfold Lexer.tokenize.
    destruct (Lexer.tokenize_loop fuel (Lexer.init source_code) []); simpl in H;
      auto.
  - intros [|[|fuel]] H; try lia. reflexivity.
Qed.

Lemma tokenize_ends_with_eof_witness :
  match Lexer.tokenize 16 (Lexer.init "x = 123 + 456") with
  | Lexer.Ret tokens _ =>
    exists l t,
      tokens = (l ++ [t])%list
      /\ Forall (fun x => Token.类型 x <> TokenType.文件结束) l
      /\ Token.类型 t = TokenType.文件结束
  | Lexer.Raise _ => True
  | Lexer.OutOfFuel => False
  end
  /\ Lexer.tokenize 2 (Lexer.init "")
     = Lexer.Ret [Token.mk TokenType.文件结束 VNone 1 1] (Lexer.init "").
Proof.
  split.
  - apply (proj1 tokenize_ends_with_eof "x = 123 + 456" 16). simpl. lia.
  - apply (proj2 tokenize_ends_with_eof 2). lia.
Defined.

(** *** When the scanner raises *)

(** What holds of the outcomes with enough fuel holds of every outcome
    other than exhaustion. *)
Lemma 后_any_fuel {A : Type} (f : nat -> Lexer.outcome A) (N : nat)
    (Q : A -> Lexer.t -> Prop) (E : Lexer.exn -> Prop) :
  (forall n m, n <= m -> 不减 (f n) (f m)) ->
  (forall F, N <= F -> 后 (f F) Q E) ->
  forall n, f n <> Lexer.OutOfFuel -> 后 (f n) Q E.
Proof.
  intros Hmono Hpost n Hn.
  rewrite <- (不减_elim _ _ (Hmono n (Nat.max n N) (Nat.le_max_l n N)) Hn).
  apply Hpost. apply Nat.le_max_r.
Qed.

Lemma 扫描到_良构 (src : string) (self : Lexer.t) : 扫描到 src self -> 良构 self.
Proof.
  induction 1 as [|self c fuel self' _ IH Hc Hsp Hnl Hrun
                  |self fuel self' _ IH Hc Hpk Hrun
                  |self fuel token self' _ IH Hrun Hk].
  - apply 良构_init.
  - pose proof (后_any_fuel (fun n => Lexer.skip_whitespace n self) (S (文长 self)) _ _
                  (fun n m H => 不减_skip_whitespace n m self H)
                  (fun F H => 后_skip_whitespace F self IH H) fuel) as H.
    simpl in H. rewrite Hrun in H. apply H. discriminate.
  - pose proof (后_any_fuel (fun n => Lexer.skip_line_comment n self) (S (文长 self)) _ _
                  (fun n m H => 不减_skip_line_comment n m self H)
                  (fun F H => 后_skip_line_comment F self _ _ IH H Hc Hpk) fuel) as H.
    simpl in H. rewrite Hrun in H. apply H. discriminate.
  - pose proof (后_any_fuel (fun n => Lexer.next_token n self) (S (S (文长 self))) _ _
                  (fun n m H => 不减_next_token n m self H)
                  (fun F H => 后_next_token F self IH H) fuel) as H.
    simpl in H. rewrite Hrun in H. apply H. discriminate.
Qed.

Lemma next_token_LexerError (src : string) (fuel : nat) :
  forall self message line column,
    扫描到 src self ->
    Lexer.next_token fuel self = Lexer.Raise (Lexer.LexerError message line column) ->
    遇到未闭合字符串 src.
Proof.
  induction fuel as [|fuel IH]; intros self message line column Hreach H;
    [discriminate|].
  pose proof (扫描到_良构 _ _ Hreach) as Hwf.
  simpl in H. destruct (Lexer.current_char self) as [c|] eqn:Hc; [|discriminate].
  destruct (isspace c && negb (Ascii.eqb c NEWLINE)) eqn:Hsp.
  { destruct (Lexer.skip_whitespace fuel self) as [[] s| |] eqn:Hrun;
      try discriminate; simpl in H.
    - apply andb_true_iff in Hsp. destruct Hsp as [Hsp Hnl].
      apply negb_true_iff, Ascii.eqb_neq in Hnl.
      eapply IH; [|exact H]. eapply 扫描到_空白; eassumption.
    - pose proof (后_any_fuel (fun n => Lexer.skip_whitespace n self) (S (文长 self)) _ _
                    (fun n m H => 不减_skip_whitespace n m self H)
                    (fun F H => 后_skip_whitespace F self Hwf H) fuel) as G.
      simpl in G. rewrite Hrun in G. exfalso. apply G. discriminate. }
  destruct (Ascii.eqb c NEWLINE); [discriminate|].
  destruct (isdigit c) eqn:Hdg.
  { pose proof (后_any_fuel (fun n => Lexer.read_number n self) (S (文长 self)) _ _
                  (fun n m H => 不减_read_number n m self H)
                  (fun F H => 后_read_number F self c Hwf H Hc Hdg) fuel) as G.
    simpl in G. rewrite H in G. discriminate G. discriminate. }
  destruct (Ascii.eqb c DQUOTE || Ascii.eqb c SQUOTE) eqn:Hq.
  { pose proof (后_any_fuel (fun n => Lexer.read_string n self) (S (文长 self)) _ _
                  (fun n m H => 不减_read_string n m self H)
                  (fun F H => 后_read_string F self c Hwf H Hc) fuel) as G.
    simpl in G. rewrite H in G. destruct G as [_ G]; [discriminate|].
    exists self, c. 收; auto.
    apply orb_true_iff in Hq.
    destruct Hq as [Hq | Hq]; apply Ascii.eqb_eq in Hq; auto. }
  destruct (isalpha c || Ascii.eqb c "_") eqn:Hal.
  { pose proof (后_any_fuel (fun n => Lexer.read_identifier n self) (S (文长 self)) _ _
                  (fun n m H => 不减_read_identifier n m self H)
                  (fun F H => 后_read_identifier F self c Hwf H Hc Hal) fuel) as G.
    simpl in G. rewrite H in G. exfalso. apply G. discriminate. }
  destruct (Ascii.eqb c "/" && Lexer.is_char (Lexer.peek self 1) "/") eqn:Hcm.
  { apply andb_true_iff in Hcm. destruct Hcm as [Hsl Hpk].
    apply Ascii.eqb_eq in Hsl. subst c.
    destruct (Lexer.peek self 1) as [d|] eqn:Hd; [|discriminate].
    simpl in Hpk. apply Ascii.eqb_eq in Hpk. subst d.
    destruct (Lexer.skip_line_comment fuel self) as [[] s| |] eqn:Hrun;
      try discriminate; simpl in H.
    - eapply IH; [|exact H]. eapply 扫描到_注释; eassumption.
    - pose proof (后_any_fuel (fun n => Lexer.skip_line_comment n self)
                    (S (文长 self)) _ _
                    (fun n m H => 不减_skip_line_comment n m self H)
                    (fun F H => 后_skip_line_comment F self _ _ Hwf H Hc Hd) fuel) as G.
      simpl in G. rewrite Hrun in G. exfalso. apply G. discriminate. }
  destruct (Lexer.double_get Lexer.double_char_tokens c (Lexer.peek self 1))
    as [[token_type text]|]; [discriminate|].
  destruct (Lexer.char_get Lexer.single_char_tokens c); discriminate.
Qed.

Lemma tokenize_loop_LexerError (src : string) (fuel : nat) :
  forall self tokens message line column,
    扫描到 src self ->
    Lexer.tokenize_loop fuel self tokens
    = Lexer.Raise (Lexer.LexerError message line column) ->
    遇到未闭合字符串 src.
Proof.
  induction fuel as [|fuel IH]; intros self tokens message line column Hreach H;
    [discriminate|].
  simpl in H.
  destruct (Lexer.next_token fuel self) as [token s|e|] eqn:Hnt; simpl in H;
    [| |discriminate].
  - destruct (TokenType.eqb (Token.类型 token) TokenType.文件结束) eqn:E;
      [discriminate|].
    apply TokenType_eqb_false in E.
    eapply IH; [|exact H]. eapply 扫描到_词; eassumption.
  - injection H as ->. eapply next_token_LexerError; eassumption.
Qed.

Lemma 同果 {A : Type} (f : nat -> Lexer.outcome A) (a b : nat) :
  (forall n m, n <= m -> 不减 (f n) (f m)) ->
  f a <> Lexer.OutOfFuel -> f b <> Lexer.OutOfFuel -> f a = f b.
Proof.
  intros Hmono Ha Hb.
  rewrite <- (不减_elim _ _ (Hmono a (Nat.max a b) (Nat.le_max_l a b)) Ha).
  rewrite <- (不减_elim _ _ (Hmono b (Nat.max a b) (Nat.le_max_r a b)) Hb).
  reflexivity.
Qed.

Lemma 后_not_OutOfFuel {A : Type} (r : Lexer.outcome A)
    (Q : A -> Lexer.t -> Prop) (E : Lexer.exn -> Prop) :
  后 r Q E -> r <> Lexer.OutOfFuel.
Proof. destruct r; simpl; [discriminate | discriminate | contradiction]. Qed.

Lemma next_token_S (self : Lexer.t) (fuel : nat) :
  良构 self -> S (文长 self) < fuel ->
  Lexer.next_token (S fuel) self = Lexer.next_token fuel self.
Proof.
  intros Hwf H. symmetry.
  apply (同果 (fun n => Lexer.next_token n self) fuel (S fuel)).
  - intros n m Hnm. apply 不减_next_token. exact Hnm.
  - eapply 后_not_OutOfFuel. apply 后_next_token; [exact Hwf | exact H].
  - eapply 后_not_OutOfFuel. apply 后_next_token; [exact Hwf | lia].
Qed.

(** Skipping blanks or a comment first does not change the next token. *)
Lemma next_token_after_blanks (self self' : Lexer.t) (c : ascii) (fuel0 : nat) :
  良构 self ->
  Lexer.current_char self = Some c ->
  isspace c = true -> c <> NEWLINE ->
  Lexer.skip_whitespace fuel0 self = Lexer.Ret tt self' ->
  良构 self' /\ 文长 self' < 文长 self
  /\ forall F, S (文长 self) < F ->
               Lexer.next_token F self = Lexer.next_token F self'.
Proof.
  intros Hwf Hc Hsp Hnl Hrun.
  assert (Hb : isspace c && negb (Ascii.eqb c NEWLINE) = true).
  { rewrite Hsp. apply Ascii.eqb_neq in Hnl. rewrite Hnl. reflexivity. }
  assert (Hany : forall f, 文长 self < f ->
                           Lexer.skip_whitespace f self = Lexer.Ret tt self').
  { intros f Hf. rewrite <- Hrun.
    apply (同果 (fun n => Lexer.skip_whitespace n self) f fuel0).
    - intros n m Hnm. apply 不减_skip_whitespace. exact Hnm.
    - eapply 后_not_OutOfFuel. apply 后_skip_whitespace; [exact Hwf | exact Hf].
    - rewrite Hrun. discriminate. }
  pose proof (后_skip_whitespace (S (文长 self)) self Hwf ltac:(lia)) as Hpost.
  rewrite (Hany (S (文长 self)) ltac:(lia)) in Hpost. simpl in Hpost.
  destruct Hpost as (Hwf' & _ & _ & Hlt). specialize (Hlt c Hc Hb).
  收; auto.
  intros [|F] HF; [lia|].
  rewrite (next_token_S self' F Hwf' ltac:(lia)).
  simpl. rewrite Hc, Hb, (Hany F ltac:(lia)). reflexivity.
Qed.

Lemma next_token_after_comment (self self' : Lexer.t) (fuel0 : nat) :
  良构 self ->
  Lexer.current_char self = Some "/"%char ->
  Lexer.peek self 1 = Some "/"%char ->
  Lexer.skip_line_comment fuel0 self = Lexer.Ret tt self' ->
  良构 self' /\ 文长 self' < 文长 self
  /\ forall F, S (文长 self) < F ->
               Lexer.next_token F self = Lexer.next_token F self'.
Proof.
  intros Hwf Hc Hpk Hrun.
  assert (Hany : forall f, 文长 self < f ->
                           Lexer.skip_line_comment f self = Lexer.Ret tt self').
  { intros f Hf. rewrite <- Hrun.
    apply (同果 (fun n => Lexer.skip_line_comment n self) f fuel0).
    - intros n m Hnm. apply 不减_skip_line_comment. exact Hnm.
    - eapply 后_not_OutOfFuel.
      apply (后_skip_line_comment f self _ _ Hwf Hf Hc Hpk).
    - rewrite Hrun. discriminate. }
  pose proof (后_skip_line_comment (S (文长 self)) self _ _ Hwf ltac:(lia) Hc Hpk)
    as Hpost.
  rewrite (Hany (S (文长 self)) ltac:(lia)) in Hpost. simpl in Hpost.
  destruct Hpost as (Hwf' & _ & Hlt).
  收; auto.
  intros [|F] HF; [lia|].
  rewrite (next_token_S self' F Hwf' ltac:(lia)).
  simpl. rewrite Hc, Hpk. simpl. rewrite (Hany F ltac:(lia)). reflexivity.
Qed.

Lemma quote_dispatch (q : ascii) :
  q = DQUOTE \/ q = SQUOTE ->
  isspace q = false /\ Ascii.eqb q NEWLINE = false /\ isdigit q = false
  /\ Ascii.eqb q DQUOTE || Ascii.eqb q SQUOTE = true.
Proof. intros [-> | ->]; repeat split. Qed.

Lemma unterminated_raises (self : Lexer.t) (q : ascii) :
  良构 self ->
  Lexer.current_char self = Some q ->
  q = DQUOTE \/ q = SQUOTE ->
  未闭合 q (余文 (Lexer.advance self)) = true ->
  forall fuel tokens,
    S (S (文长 self)) < fuel ->
    exists message line column,
      Lexer.tokenize_loop fuel self tokens
      = Lexer.Raise (Lexer.LexerError message line column).
Proof.
  intros Hwf Hc Hq Hun [|[|fuel]] tokens Hfuel; try lia.
  destruct (quote_dispatch q Hq) as (H1 & H2 & H3 & H4).
  pose proof (后_read_string fuel self q Hwf ltac:(lia) Hc) as Hpost.
  simpl. rewrite Hc, H1, H2, H3, H4. simpl.
  destruct (Lexer.read_string fuel self) as [token s|e|]; simpl in Hpost |- *.
  - destruct Hpost as (_ & _ & _ & _ & Hpost). congruence.
  - destruct Hpost as [(message & line & column & ->) _].
    eexists _, _, _. reflexivity.
  - contradiction.
Qed.

Lemma reach_then_raise (src : string) (self : Lexer.t) :
  扫描到 src self ->
  (forall fuel tokens,
     S (S (文长 self)) < fuel ->
     exists message line column,
       Lexer.tokenize_loop fuel self tokens
       = Lexer.Raise (Lexer.LexerError message line column)) ->
  forall fuel tokens,
    S (S (文长 (Lexer.init src))) < fuel ->
    exists message line column,
      Lexer.tokenize_loop fuel (Lexer.init src) tokens
      = Lexer.Raise (Lexer.LexerError message line column).
Proof.
  induction 1 as [|self c fuel0 self' Hreach IH Hc Hsp Hnl Hrun
                  |self fuel0 self' Hreach IH Hc Hpk Hrun
                  |self fuel0 token self' Hreach IH Hrun Hk];
    intros Hfail; [exact Hfail | | |]; apply IH;
    pose proof (扫描到_良构 _ _ Hreach) as Hwf.
  - destruct (next_token_after_blanks _ _ _ _ Hwf Hc Hsp Hnl Hrun)
      as (Hwf' & Hlt & Hsame).
    intros [|fuel] tokens Hfuel; [lia|].
    destruct (Hfail (S fuel) tokens ltac:(lia)) as (m & l & col & H).
    exists m, l, col. rewrite <- H. simpl.
    rewrite (Hsame fuel ltac:(lia)). reflexivity.
  - destruct (next_token_after_comment _ _ _ Hwf Hc Hpk Hrun)
      as (Hwf' & Hlt & Hsame).
    intros [|fuel] tokens Hfuel; [lia|].
    destruct (Hfail (S fuel) tokens ltac:(lia)) as (m & l & col & H).
    exists m, l, col. rewrite <- H. simpl.
    rewrite (Hsame fuel ltac:(lia)). reflexivity.
  - intros [|fuel] tokens Hfuel; [lia|].
    assert (Hnt : Lexer.next_token fuel self = Lexer.Ret token self').
    { rewrite <- Hrun.
      apply (同果 (fun n => Lexer.next_token n self) fuel fuel0).
      - intros n m Hnm. apply 不减_next_token. exact Hnm.
      - eapply 后_not_OutOfFuel. apply 后_next_token; [exact Hwf | lia].
      - rewrite Hrun. discriminate. }
    pose proof (后_next_token fuel self Hwf ltac:(lia)) as Hpost.
    rewrite Hnt in Hpost. simpl in Hpost.
    destruct Hpost as (_ & _ & _ & Hlt & _). specialize (Hlt Hk).
    simpl. rewrite Hnt. simpl.
    apply TokenType_eqb_false in Hk. rewrite Hk.
    apply Hfail. lia.
Qed.

Lemma 无规则_dispatch (c : ascii) (next : option ascii) :
  无规则 c next ->
  Ascii.eqb c NEWLINE = false
  /\ Ascii.eqb c DQUOTE || Ascii.eqb c SQUOTE = false
  /\ isalpha c || Ascii.eqb c "_" = false
  /\ Ascii.eqb c "/" = false.
Proof.
  intros (Hsp & _ & Hdq & Hsq & Hal & Hus & _ & Hsg).
  收.
  - destruct (Ascii.eqb c NEWLINE) eqn:E; [|reflexivity].
    apply Ascii.eqb_eq in E. subst c. vm_compute in Hsp. discriminate Hsp.
  - apply Ascii.eqb_neq in Hdq, Hsq. rewrite Hdq, Hsq. reflexivity.
  - apply Ascii.eqb_neq in Hus. rewrite Hal, Hus. reflexivity.
  - destruct (Ascii.eqb c "/") eqn:E; [|reflexivity].
    apply Ascii.eqb_eq in E. subst c. vm_compute in Hsg. discriminate Hsg.
Qed.

(** C6.  With fuel beyond the length of the source, [tokenize] raises a
    [LexerError] (which carries a line and a column) exactly when the
    scanner reaches, at a position where it looks for a token, a quote
    whose string literal is unterminated at the end of the input.  A
    character that no rule matches raises nothing: [next_token] returns
    the Error token carrying that character and moves past it. *)
Theorem lexer_error_iff_unterminated_string :
  (forall (source_code : string) (fuel : nat),
     String.length source_code + 3 <= fuel ->
     (exists message line column,
        Lexer.tokenize fuel (Lexer.init source_code)
        = Lexer.Raise (Lexer.LexerError message line column))
     <-> 遇到未闭合字符串 source_code)
  /\ (forall (self : Lexer.t) (c : ascii) (fuel : nat),
        Lexer.current_char self = Some c ->
        无规则 c (Lexer.peek self 1) ->
        Lexer.next_token (S fuel) self
        = Lexer.Ret (Token.mk TokenType.错误 (VStr (str1 c))
                       (Lexer.line self) (Lexer.column self))
                    (Lexer.advance self)).
Proof.
  split.
  - intros source_code fuel Hfuel. split.
    + intros (message & line & column & H).
      eapply tokenize_loop_LexerError; [apply 扫描到_起点 | exact H].
    + intros (self & q & Hreach & Hc & Hq & Hun).
      apply (reach_then_raise source_code self Hreach).
      * apply unterminated_raises with (q := q); auto.
        eapply 扫描到_良构. exact Hreach.
      * rewrite 文长_init. lia.
  - intros self c fuel Hc Hno.
    destruct (无规则_dispatch c _ Hno) as (H1 & H2 & H3 & H4).
    destruct Hno as (Hsp & Hdg & _ & _ & _ & _ & Hdb & Hsg).
    simpl. rewrite Hc, Hsp, H1, Hdg, H2, H3, H4. simpl.
    rewrite Hdb, Hsg. reflexivity.
Qed.

Transparent Lexer.double_get Lexer.char_get.

Lemma lexer_error_iff_unterminated_string_witness :
  ((exists message line column,
      Lexer.tokenize 7 (Lexer.init "'abc")
      = Lexer.Raise (Lexer.LexerError message line column))
   <-> 遇到未闭合字符串 "'abc")
  /\ Lexer.next_token 1 (Lexer.init "@")
     = Lexer.Ret (Token.mk TokenType.错误 (VStr "@") 1 1)
                 (Lexer.advance (Lexer.init "@")).
Proof.
  split.
  - apply (proj1 lexer_error_iff_unterminated_string "'abc" 7). simpl. lia.
  - apply (proj2 lexer_error_iff_unterminated_string (Lexer.init "@") "@"%char 0).
    + reflexivity.
    + repeat split; discriminate.
Defined.

Transparent Lexer.advance.

(** ** The parser *)

(** *** More fuel gives the same outcome *)

Lemma 升_refl {A : Type} (m : Parser.M A) : 升 m m.
Proof. intros c. right. reflexivity. Qed.

Lemma 升_out_of_fuel {A : Type} (m : Parser.M A) : 升 Parser.out_of_fuel m.
Proof. intros c. left. reflexivity. Qed.

Lemma 升_bind {A B : Type} (m1 m2 : Parser.M A) (k1 k2 : A -> Parser.M B) :
  升 m1 m2 -> (forall a, 升 (k1 a) (k2 a)) ->
  升 (Parser.bind m1 k1) (Parser.bind m2 k2).
Proof.
  intros Hm Hk c. unfold Parser.bind.
  destruct (Hm c) as [-> | ->]; [left; reflexivity|].
  destruct (m2 c); [apply Hk | right; reflexivity | left; reflexivity].
Qed.

Lemma 升_try_except {A : Type} (b1 b2 h1 h2 : Parser.M A) :
  升 b1 b2 -> 升 h1 h2 -> 升 (Parser.try_except b1 h1) (Parser.try_except b2 h2).
Proof.
  intros Hb Hh c. unfold Parser.try_except.
  destruct (Hb c) as [-> | ->]; [left; reflexivity|].
  destruct (b2 c) as [a c'|[msg tok|] c'|];
    [right; reflexivity | apply Hh | right; reflexivity | left; reflexivity].
Qed.

Lemma 不减P_elim {A : Type} (r1 r2 : Parser.outcome A) :
  不减P r1 r2 -> r1 <> Parser.OutOfFuel -> r2 = r1.
Proof. intros [-> | ->] H; [contradiction | reflexivity]. Qed.

Ltac 升_tac tac :=
  repeat first
    [ apply 升_refl
    | apply 升_out_of_fuel
    | tac
    | (apply 升_bind; [|intros ?])
    | apply 升_try_except
    | match goal with
      | |- 升 (match ?x with _ => _ end) (match ?x with _ => _ end) => destruct x
      | |- 升 (if ?x then _ else _) (if ?x then _ else _) => destruct x
      end ].

Section ParserMono.

Variable tokens : list Token.t.

Lemma 升_skip_newlines (n : nat) :
  forall m, n <= m -> 升 (Parser.skip_newlines tokens n) (Parser.skip_newlines tokens m).
Proof.
  induction n as [|n IH]; intros [|m] H; try lia; simpl;
    升_tac ltac:(apply IH; lia).
Qed.

Lemma 升_parse_binary_left_loop (n : nat) :
  forall m next1 next2 operators expr,
    n <= m -> 升 next1 next2 ->
    升 (Parser.parse_binary_left_loop tokens n next1 operators expr)
       (Parser.parse_binary_left_loop tokens m next2 operators expr).
Proof.
  induction n as [|n IH]; intros [|m] next1 next2 operators expr H Hn; try lia;
    simpl; 升_tac ltac:(first [assumption | apply IH; [lia | assumption]]).
Qed.

Lemma 升_parse_binary_left (n m : nat) (next1 next2 : Parser.M 表达式)
    (operators : list TokenType.t) :
  n <= m -> 升 next1 next2 ->
  升 (Parser.parse_binary_left tokens n next1 operators)
     (Parser.parse_binary_left tokens m next2 operators).
Proof.
  intros H Hn. unfold Parser.parse_binary_left.
  apply 升_bind; [exact Hn|]. intros expr.
  apply 升_parse_binary_left_loop; assumption.
Qed.

Lemma 升_finish_call_loop (n : nat) :
  forall m pe1 pe2 arguments,
    n <= m -> 升 pe1 pe2 ->
    升 (Parser.finish_call_loop tokens n pe1 arguments)
       (Parser.finish_call_loop tokens m pe2 arguments).
Proof.
  induction n as [|n IH]; intros [|m] pe1 pe2 arguments H Hp; try lia;
    simpl; 升_tac ltac:(first [assumption | apply IH; [lia | assumption]]).
Qed.

Lemma 升_finish_call (n m : nat) (pe1 pe2 : Parser.M 表达式) (callee : 表达式) :
  n <= m -> 升 pe1 pe2 ->
  升 (Parser.finish_call tokens n pe1 callee) (Parser.finish_call tokens m pe2 callee).
Proof.
  intros H Hp. unfold Parser.finish_call.
  升_tac ltac:(first [assumption | apply 升_finish_call_loop; assumption]).
Qed.

Lemma 升_parse_call_loop (n : nat) :
  forall m pe1 pe2 expr,
    n <= m -> 升 pe1 pe2 ->
    升 (Parser.parse_call_loop tokens n pe1 expr)
       (Parser.parse_call_loop tokens m pe2 expr).
Proof.
  induction n as [|n IH]; intros [|m] pe1 pe2 expr H Hp; try lia;
    simpl;
    升_tac ltac:(first [ assumption
                       | apply IH; [lia | assumption]
                       | apply 升_finish_call; [lia | assumption] ]).
Qed.

Lemma 升_expressions (n : nat) :
  forall m, n <= m ->
    升 (Parser.parse_expression tokens n) (Parser.parse_expression tokens m)
    /\ 升 (Parser.parse_assignment tokens n) (Parser.parse_assignment tokens m)
    /\ 升 (Parser.parse_logical_or tokens n) (Parser.parse_logical_or tokens m)
    /\ 升 (Parser.parse_logical_and tokens n) (Parser.parse_logical_and tokens m)
    /\ 升 (Parser.parse_equality tokens n) (Parser.parse_equality tokens m)
    /\ 升 (Parser.parse_comparison tokens n) (Parser.parse_comparison tokens m)
    /\ 升 (Parser.parse_addition tokens n) (Parser.parse_addition tokens m)
    /\ 升 (Parser.parse_multiplication tokens n) (Parser.parse_multiplication tokens m)
    /\ 升 (Parser.parse_unary tokens n) (Parser.parse_unary tokens m)
    /\ 升 (Parser.parse_call tokens n) (Parser.parse_call tokens m)
    /\ 升 (Parser.parse_primary tokens n) (Parser.parse_primary tokens m).
Proof.
  induction n as [|n IH]; intros [|m] H; try lia.
  - repeat split; apply 升_refl.
  - repeat split; apply 升_out_of_fuel.
  - destruct (IH m ltac:(lia))
      as (H1 & H2 & H3 & H4 & H5 & H6 & H7 & H8 & H9 & H10 & H11).
    repeat split; simpl;
      升_tac ltac:(first [ assumption
                         | apply 升_parse_binary_left; [lia | assumption]
                         | apply 升_parse_call_loop; [lia | assumption] ]).
Qed.

Lemma 升_parse_expression (n m : nat) :
  n <= m -> 升 (Parser.parse_expression tokens n) (Parser.parse_expression tokens m).
Proof. intros H. apply (升_expressions n m H). Qed.

Lemma 升_parse_expression_statement (n m : nat) :
  n <= m ->
  升 (Parser.parse_expression_statement tokens n)
     (Parser.parse_expression_statement tokens m).
Proof.
  intros H. unfold Parser.parse_expression_statement.
  升_tac ltac:(apply 升_parse_expression; assumption).
Qed.

Lemma 升_parse_return_statement (n m : nat) :
  n <= m ->
  升 (Parser.parse_return_statement tokens n) (Parser.parse_return_statement tokens m).
Proof.
  intros H. unfold Parser.parse_return_statement.
  升_tac ltac:(apply 升_parse_expression; assumption).
Qed.

Lemma 升_parameters_loop (n : nat) :
  forall m parameters, n <= m ->
    升 (Parser.parameters_loop tokens n parameters)
       (Parser.parameters_loop tokens m parameters).
Proof.
  induction n as [|n IH]; intros [|m] parameters H; try lia; simpl;
    升_tac ltac:(apply IH; lia).
Qed.

Lemma 升_synchronize_loop (n : nat) :
  forall m, n <= m ->
    升 (Parser.synchronize_loop tokens n) (Parser.synchronize_loop tokens m).
Proof.
  induction n as [|n IH]; intros [|m] H; try lia; simpl;
    升_tac ltac:(apply IH; lia).
Qed.

Lemma 升_synchronize (n m : nat) :
  n <= m -> 升 (Parser.synchronize tokens n) (Parser.synchronize tokens m).
Proof.
  intros H. unfold Parser.synchronize.
  升_tac ltac:(apply 升_synchronize_loop; assumption).
Qed.

Lemma 升_statements (n : nat) :
  forall m, n <= m ->
    升 (Parser.parse_statement tokens n) (Parser.parse_statement tokens m)
    /\ 升 (Parser.parse_function_declaration tokens n)
          (Parser.parse_function_declaration tokens m)
    /\ 升 (Parser.parse_if_statement tokens n) (Parser.parse_if_statement tokens m)
    /\ 升 (Parser.parse_while_statement tokens n)
          (Parser.parse_while_statement tokens m)
    /\ 升 (Parser.parse_block_statement tokens n)
          (Parser.parse_block_statement tokens m)
    /\ (forall statements,
          升 (Parser.parse_block_loop tokens n statements)
             (Parser.parse_block_loop tokens m statements)).
Proof.
  induction n as [|n IH]; intros [|m] H; try lia.
  - repeat split; intros; apply 升_refl.
  - repeat split; intros; apply 升_out_of_fuel.
  - destruct (IH m ltac:(lia)) as (H1 & H2 & H3 & H4 & H5 & H6).
    repeat split; intros; simpl;
      升_tac ltac:(first [ assumption
                         | apply H6
                         | apply 升_parse_expression; lia
                         | apply 升_parse_expression_statement; lia
                         | apply 升_parse_return_statement; lia
                         | apply 升_parameters_loop; lia
                         | apply 升_skip_newlines; lia
                         | apply 升_synchronize; lia ]).
Qed.

Lemma 升_parse_loop (n : nat) :
  forall m statements, n <= m ->
    升 (Parser.parse_loop tokens n statements) (Parser.parse_loop tokens m statements).
Proof.
  induction n as [|n IH]; intros [|m] statements H; try lia; simpl;
    升_tac ltac:(first [ apply IH; lia
                       | apply (升_statements n m); lia
                       | apply 升_skip_newlines; lia ]).
Qed.

End ParserMono.

Lemma 不减P_parse (tokens : list Token.t) (n m : nat) :
  n <= m -> 不减P (Parser.parse tokens n) (Parser.parse tokens m).
Proof.
  intros H. unfold Parser.parse. destruct tokens as [|t l]; [right; reflexivity|].
  apply 升_bind; [apply 升_skip_newlines; exact H|]. intros [].
  apply 升_bind; [apply 升_parse_loop; exact H|]. intros statements.
  apply 升_refl.
Qed.


Lemma parse_source_mono (n m : nat) (source : string) :
  n <= m ->
  Parser.parse_source n source <> Parser.NoFuel ->
  Parser.parse_source m source = Parser.parse_source n source.
Proof.
  intros H. unfold Parser.parse_source.
  destruct (不减_tokenize_loop n m (Lexer.init source) [] H) as [E | E];
    unfold Lexer.tokenize; rewrite E; [intros Hn; contradiction Hn; reflexivity|].
  destruct (Lexer.tokenize_loop m (Lexer.init source) []) as [toks s|e|];
    [|reflexivity | reflexivity].
  destruct (不减P_parse toks n m H) as [E' | E']; rewrite E';
    [intros Hn; contradiction Hn; reflexivity | reflexivity].
Qed.

(** C8.  Parsing [1 + 2 * 3;] yields one expression statement, the sum
    of the literal 1 and the product of the literals 2 and 3: the
    multiplication is the right operand of the addition. *)
Theorem parse_source_precedence :
  forall fuel,
    16 <= fuel ->
    Parser.parse_source fuel "1 + 2 * 3;"
    = Parser.Parsed
        (程序_
           [表达式语句
              (二元运算表达式
                 (字面量表达式 (Token.mk TokenType.整数 (VInt 1) 1 1))
                 (Token.mk TokenType.加 (VStr "+") 1 3)
                 (二元运算表达式
                    (字面量表达式 (Token.mk TokenType.整数 (VInt 2) 1 5))
                    (Token.mk TokenType.乘 (VStr "*") 1 7)
                    (字面量表达式 (Token.mk TokenType.整数 (VInt 3) 1 9))))]).
Proof.
  intros fuel H.
  rewrite (parse_source_mono 16 fuel "1 + 2 * 3;" H);
    [vm_compute; reflexivity | vm_compute; discriminate].
Qed.

Lemma parse_source_precedence_witness :
  Parser.parse_source 16 "1 + 2 * 3;"
  = Parser.Parsed
      (程序_
         [表达式语句
            (二元运算表达式
               (字面量表达式 (Token.mk TokenType.整数 (VInt 1) 1 1))
               (Token.mk TokenType.加 (VStr "+") 1 3)
               (二元运算表达式
                  (字面量表达式 (Token.mk TokenType.整数 (VInt 2) 1 5))
                  (Token.mk TokenType.乘 (VStr "*") 1 7)
                  (字面量表达式 (Token.mk TokenType.整数 (VInt 3) 1 9))))]).
Proof.
  apply (parse_source_precedence 16). lia.
Defined.

(** *** Enough fuel: every method returns or raises *)

Lemma 果_impl {A : Type} (r : Parser.outcome A)
    (Q Q' : A -> nat -> Prop) (E E' : Parser.exn -> nat -> Prop) :
  果 r Q E -> (forall a c, Q a c -> Q' a c) -> (forall e c, E e c -> E' e c) ->
  果 r Q' E'.
Proof. destruct r; simpl; auto. Qed.

Lemma 果_bind {A B : Type} (m : Parser.M A) (k : A -> Parser.M B) (current : nat)
    (Q : B -> nat -> Prop) (E : Parser.exn -> nat -> Prop) :
  果 (m current) (fun a c => 果 (k a c) Q E) E ->
  果 (Parser.bind m k current) Q E.
Proof. unfold Parser.bind. destruct (m current); simpl; auto. Qed.

Lemma TokenType_mem_true (x : TokenType.t) (l : list TokenType.t) :
  TokenType.mem x l = true <-> In x l.
Proof.
  unfold TokenType.mem. rewrite existsb_exists. split.
  - intros (y & Hy & E). apply TokenType_eqb_true in E. subst. exact Hy.
  - intros H. exists x. split; [exact H | apply TokenType_eqb_true; reflexivity].
Qed.

Section ParserTotal.

Variable tokens : list Token.t.
Hypothesis Hend : 以文件结束收尾 tokens.

Lemma last_token_eof : Token.类型 (Parser.last_token tokens) = TokenType.文件结束.
Proof.
  destruct Hend as (l & t & -> & Ht). unfold Parser.last_token.
  rewrite last_last. exact Ht.
Qed.

Lemma peek_eof_at_end (current : nat) :
  Parser.length tokens <= S current ->
  Token.类型 (Parser.peek_at tokens 0 current) = TokenType.文件结束.
Proof.
  intros H. unfold Parser.peek_at. rewrite Nat.add_0_r.
  destruct (Parser.length tokens <=? current) eqn:E; [apply last_token_eof|].
  apply Nat.leb_gt in E.
  destruct Hend as (l & t & Htok & Ht). unfold Parser.index, Parser.length in *.
  rewrite Htok in *. rewrite length_app in H, E. simpl in H, E.
  replace current with (List.length l) by lia.
  rewrite nth_middle. exact Ht.
Qed.

Lemma peek_not_eof (current : nat) :
  Token.类型 (Parser.peek_at tokens 0 current) <> TokenType.文件结束 ->
  S current < Parser.length tokens.
Proof.
  intros H. destruct (Nat.lt_ge_cases (S current) (Parser.length tokens)) as [G|G];
    [exact G|].
  contradiction H. apply peek_eof_at_end. exact G.
Qed.

Lemma peek_mem_not_eof (current : nat) (types : list TokenType.t) :
  TokenType.mem (Token.类型 (Parser.peek_at tokens 0 current)) types = true ->
  TokenType.mem TokenType.文件结束 types = false ->
  S current < Parser.length tokens.
Proof.
  intros H Hn. apply peek_not_eof. intros E. rewrite E in H. congruence.
Qed.

Lemma 果_match_ (types : list TokenType.t) (current : nat)
    (Q : bool -> nat -> Prop) (E : Parser.exn -> nat -> Prop) :
  Q (TokenType.mem (Token.类型 (Parser.peek_at tokens 0 current)) types) current ->
  果 (Parser.match_ tokens types current) Q E.
Proof. intros H. exact H. Qed.

Lemma 果_at_end (current : nat)
    (Q : bool -> nat -> Prop) (E : Parser.exn -> nat -> Prop) :
  Q (TokenType.eqb (Token.类型 (Parser.peek_at tokens 0 current)) TokenType.文件结束)
    current ->
  果 (Parser.at_end tokens current) Q E.
Proof. intros H. exact H. Qed.

Lemma 果_advance (current : nat)
    (Q : Token.t -> nat -> Prop) (E : Parser.exn -> nat -> Prop) :
  current < Parser.length tokens ->
  Q (Parser.index tokens current) (S current) ->
  果 (Parser.advance tokens current) Q E.
Proof.
  intros Hlt H. unfold Parser.advance.
  apply Nat.ltb_lt in Hlt. rewrite Hlt. exact H.
Qed.

(** [consume] of a kind other than the end of the input either moves one
    token forward or raises where it stands. *)
Lemma 果_consume (token_type : TokenType.t) (message : string) (current : nat)
    (Q : Token.t -> nat -> Prop) (E : Parser.exn -> nat -> Prop) :
  token_type <> TokenType.文件结束 ->
  (S current < Parser.length tokens -> forall t, Q t (S current)) ->
  (forall e, (exists m tok, e = Parser.ParserError m tok) -> E e current) ->
  果 (Parser.consume tokens token_type message current) Q E.
Proof.
  intros Hne HQ HE. unfold Parser.consume.
  apply 果_bind, 果_match_.
  destruct (TokenType.mem (Token.类型 (Parser.peek_at tokens 0 current)) [token_type])
    eqn:Hm.
  - assert (Hlt : S current < Parser.length tokens).
    { apply (peek_mem_not_eof current [token_type] Hm). simpl.
      rewrite orb_false_r. apply TokenType_eqb_false. congruence. }
    apply 果_advance; [lia | apply HQ; exact Hlt].
  - apply HE. eexists _, _. reflexivity.
Qed.

Lemma 果_skip_newlines (fuel : nat) :
  forall current,
    current <= Parser.length tokens ->
    Parser.length tokens - current < fuel ->
    果 (Parser.skip_newlines tokens fuel current) (不退 tokens current) 无异常.
Proof.
  induction fuel as [|fuel IH]; intros current Hle Hfuel; [lia|].
  simpl. apply 果_bind, 果_match_.
  destruct (TokenType.mem _ [TokenType.换行]) eqn:Hm.
  - pose proof (peek_mem_not_eof _ _ Hm eq_refl) as Hlt.
    apply 果_bind, 果_advance; [lia|].
    eapply 果_impl; [apply IH; lia | | auto].
    intros a c [H1 H2]. split; lia.
  - split; lia.
Qed.

Lemma 果_parse_binary_left_loop (fuel : nat) :
  forall next_precedence operators expr current,
    TokenType.mem TokenType.文件结束 operators = false ->
    current <= Parser.length tokens ->
    Parser.length tokens - current < fuel ->
    (forall c, current < c -> c <= Parser.length tokens ->
               果 (next_precedence c) (前进 tokens c) (语法错误于 tokens c)) ->
    果 (Parser.parse_binary_left_loop tokens fuel next_precedence operators expr current)
      (不退 tokens current) (语法错误于 tokens current).
Proof.
  induction fuel as [|fuel IH];
    intros next_precedence operators expr current Hops Hle Hfuel Hnext; [lia|].
  simpl. apply 果_bind, 果_match_.
  destruct (TokenType.mem (Token.类型 (Parser.peek_at tokens 0 current)) operators)
    eqn:Hm.
  - pose proof (peek_mem_not_eof _ _ Hm Hops) as Hlt.
    apply 果_bind, 果_advance; [lia|].
    apply 果_bind.
    eapply 果_impl; [apply Hnext; lia | |].
    + intros right c [H1 H2].
      eapply 果_impl; [apply IH; auto; try lia | |].
      * intros c' H3 H4. apply Hnext; lia.
      * intros a c' [H3 H4]. split; lia.
      * intros e c' (H3 & H4 & H5). split; [exact H3 | lia].
    + intros e c (H3 & H4 & H5). split; [exact H3 | lia].
  - split; lia.
Qed.

Lemma 果_parse_binary_left (fuel : nat) (next_precedence : Parser.M 表达式)
    (operators : list TokenType.t) (current : nat) :
  TokenType.mem TokenType.文件结束 operators = false ->
  current <= Parser.length tokens ->
  Parser.length tokens - current < fuel ->
  (forall c, current <= c -> c <= Parser.length tokens ->
             果 (next_precedence c) (前进 tokens c) (语法错误于 tokens c)) ->
  果 (Parser.parse_binary_left tokens fuel next_precedence operators current)
    (前进 tokens current) (语法错误于 tokens current).
Proof.
  intros Hops Hle Hfuel Hnext. unfold Parser.parse_binary_left.
  apply 果_bind.
  eapply 果_impl; [apply Hnext; lia | | intros e c H; exact H].
  intros expr c [H1 H2].
  eapply 果_impl; [apply 果_parse_binary_left_loop; auto; try lia | |].
  - intros c' H3 H4. apply Hnext; lia.
  - intros a c' [H3 H4]. split; lia.
  - intros e c' (H3 & H4 & H5). split; [exact H3 | lia].
Qed.

Lemma 果_finish_call_loop (fuel : nat) :
  forall parse_expression arguments current,
    current <= Parser.length tokens ->
    Parser.length tokens - current < fuel ->
    (forall c, current < c -> c <= Parser.length tokens ->
               果 (parse_expression c) (前进 tokens c) (语法错误于 tokens c)) ->
    果 (Parser.finish_call_loop tokens fuel parse_expression arguments current)
      (不退 tokens current) (语法错误于 tokens current).
Proof.
  induction fuel as [|fuel IH];
    intros parse_expression arguments current Hle Hfuel Hpe; [lia|].
  simpl. apply 果_bind, 果_match_.
  destruct (TokenType.mem _ [TokenType.逗号]) eqn:Hm.
  - pose proof (peek_mem_not_eof _ _ Hm eq_refl) as Hlt.
    apply 果_bind, 果_advance; [lia|].
    apply 果_bind.
    eapply 果_impl; [apply Hpe; lia | |].
    + intros a c [H1 H2].
      eapply 果_impl; [apply IH; auto; try lia | |].
      * intros c' H3 H4. apply Hpe; lia.
      * intros r c' [H3 H4]. split; lia.
      * intros e c' (H3 & H4 & H5). split; [exact H3 | lia].
    + intros e c (H3 & H4 & H5). split; [exact H3 | lia].
  - split; lia.
Qed.

Lemma 果_finish_call (fuel : nat) (parse_expression : Parser.M 表达式)
    (callee : 表达式) (current : nat) :
  current <= Parser.length tokens ->
  Parser.length tokens - current <= fuel ->
  (forall c, current < c -> c <= Parser.length tokens ->
             果 (parse_expression c) (前进 tokens c) (语法错误于 tokens c)) ->
  果 (Parser.finish_call tokens fuel parse_expression callee current)
    (前进 tokens current) (语法错误于 tokens current).
Proof.
  intros Hle Hfuel Hpe. unfold Parser.finish_call.
  apply 果_bind, 果_consume; [discriminate | |].
  2:{ intros e He. split; [exact He | lia]. }
  intros Hlt paren.
  apply 果_bind, 果_match_.
  assert (Hclose : forall (arguments : list 表达式) c,
            current < c -> c <= Parser.length tokens ->
            果 (Parser.bind (Parser.consume tokens TokenType.右括号 "期望 ')'")
                  (fun _ => Parser.ret
                              (函数调用表达式 callee arguments
                                 (Token.行号 paren) (Token.列号 paren))) c)
              (前进 tokens current) (语法错误于 tokens current)).
  { intros arguments c H1 H2.
    apply 果_bind, 果_consume; [discriminate | |].
    - intros H3 t. split; lia.
    - intros e He. split; [exact He | lia]. }
  apply 果_bind.
  destruct (TokenType.mem _ [TokenType.右括号]); simpl.
  - apply Hclose; lia.
  - apply 果_bind.
    eapply 果_impl; [apply Hpe; lia | |].
    + intros a c [H1 H2].
      eapply 果_impl; [apply 果_finish_call_loop; auto; try lia | |].
      * intros c' H3 H4. apply Hpe; lia.
      * intros r c' [H3 H4]. apply Hclose; lia.
      * intros e c' (H3 & H4 & H5). split; [exact H3 | lia].
    + intros e c (H3 & H4 & H5). split; [exact H3 | lia].
Qed.

Lemma 果_parse_call_loop (fuel : nat) :
  forall parse_expression expr current,
    current <= Parser.length tokens ->
    Parser.length tokens - current < fuel ->
    (forall c, current < c -> c <= Parser.length tokens ->
               果 (parse_expression c) (前进 tokens c) (语法错误于 tokens c)) ->
    果 (Parser.parse_call_loop tokens fuel parse_expression expr current)
      (不退 tokens current) (语法错误于 tokens current).
Proof.
  induction fuel as [|fuel IH];
    intros parse_expression expr current Hle Hfuel Hpe; [lia|].
  simpl. apply 果_bind, 果_match_.
  destruct (TokenType.mem _ [TokenType.左括号]) eqn:Hm.
  - apply 果_bind.
    eapply 果_impl; [apply 果_finish_call; auto; lia | |].
    + intros a c [H1 H2].
      eapply 果_impl; [apply IH; auto; try lia | |].
      * intros c' H3 H4. apply Hpe; lia.
      * intros r c' [H3 H4]. split; lia.
      * intros e c' (H3 & H4 & H5). split; [exact H3 | lia].
    + intros e c H. exact H.
  - split; lia.
Qed.

Ltac 够_lia := unfold 够 in *; lia.

(** The expression methods, from the lowest precedence to the primary
    expressions: with the fuel of [够] each returns past at least one
    token or raises a [ParserError]. *)
Lemma 果_expressions (n : nat) :
  forall current,
    current <= Parser.length tokens ->
    (够 tokens 11 current n ->
       果 (Parser.parse_expression tokens n current)
         (前进 tokens current) (语法错误于 tokens current))
    /\ (够 tokens 10 current n ->
          果 (Parser.parse_assignment tokens n current)
            (前进 tokens current) (语法错误于 tokens current))
    /\ (够 tokens 9 current n ->
          果 (Parser.parse_logical_or tokens n current)
            (前进 tokens current) (语法错误于 tokens current))
    /\ (够 tokens 8 current n ->
          果 (Parser.parse_logical_and tokens n current)
            (前进 tokens current) (语法错误于 tokens current))
    /\ (够 tokens 7 current n ->
          果 (Parser.parse_equality tokens n current)
            (前进 tokens current) (语法错误于 tokens current))
    /\ (够 tokens 6 current n ->
          果 (Parser.parse_comparison tokens n current)
            (前进 tokens current) (语法错误于 tokens current))
    /\ (够 tokens 5 current n ->
          果 (Parser.parse_addition tokens n current)
            (前进 tokens current) (语法错误于 tokens current))
    /\ (够 tokens 4 current n ->
          果 (Parser.parse_multiplication tokens n current)
            (前进 tokens current) (语法错误于 tokens current))
    /\ (够 tokens 3 current n ->
          果 (Parser.parse_unary tokens n current)
            (前进 tokens current) (语法错误于 tokens current))
    /\ (够 tokens 2 current n ->
          果 (Parser.parse_call tokens n current)
            (前进 tokens current) (语法错误于 tokens current))
    /\ (够 tokens 1 current n ->
          果 (Parser.parse_primary tokens n current)
            (前进 tokens current) (语法错误于 tokens current)).
Proof.
  induction n as [|n IH]; intros current Hle.
  { repeat split; intros H; 够_lia. }
  assert (IH1 : forall c, c <= Parser.length tokens -> 够 tokens 11 c n ->
            果 (Parser.parse_expression tokens n c) (前进 tokens c) (语法错误于 tokens c))
    by (intros c Hc; apply (IH c Hc)).
  assert (IH2 : forall c, c <= Parser.length tokens -> 够 tokens 10 c n ->
            果 (Parser.parse_assignment tokens n c) (前进 tokens c) (语法错误于 tokens c))
    by (intros c Hc; apply (IH c Hc)).
  assert (IH3 : forall c, c <= Parser.length tokens -> 够 tokens 9 c n ->
            果 (Parser.parse_logical_or tokens n c) (前进 tokens c) (语法错误于 tokens c))
    by (intros c Hc; apply (IH c Hc)).
  assert (IH4 : forall c, c <= Parser.length tokens -> 够 tokens 8 c n ->
            果 (Parser.parse_logical_and tokens n c) (前进 tokens c) (语法错误于 tokens c))
    by (intros c Hc; apply (IH c Hc)).
  assert (IH5 : forall c, c <= Parser.length tokens -> 够 tokens 7 c n ->
            果 (Parser.parse_equality tokens n c) (前进 tokens c) (语法错误于 tokens c))
    by (intros c Hc; apply (IH c Hc)).
  assert (IH6 : forall c, c <= Parser.length tokens -> 够 tokens 6 c n ->
            果 (Parser.parse_comparison tokens n c) (前进 tokens c) (语法错误于 tokens c))
    by (intros c Hc; apply (IH c Hc)).
  assert (IH7 : forall c, c <= Parser.length tokens -> 够 tokens 5 c n ->
            果 (Parser.parse_addition tokens n c) (前进 tokens c) (语法错误于 tokens c))
    by (intros c Hc; apply (IH c Hc)).
  assert (IH8 : forall c, c <= Parser.length tokens -> 够 tokens 4 c n ->
            果 (Parser.parse_multiplication tokens n c)
              (前进 tokens c) (语法错误于 tokens c))
    by (intros c Hc; apply (IH c Hc)).
  assert (IH9 : forall c, c <= Parser.length tokens -> 够 tokens 3 c n ->
            果 (Parser.parse_unary tokens n c) (前进 tokens c) (语法错误于 tokens c))
    by (intros c Hc; apply (IH c Hc)).
  assert (IH10 : forall c, c <= Parser.length tokens -> 够 tokens 2 c n ->
            果 (Parser.parse_call tokens n c) (前进 tokens c) (语法错误于 tokens c))
    by (intros c Hc; apply (IH c Hc)).
  assert (IH11 : forall c, c <= Parser.length tokens -> 够 tokens 1 c n ->
            果 (Parser.parse_primary tokens n c) (前进 tokens c) (语法错误于 tokens c))
    by (intros c Hc; apply (IH c Hc)).
  clear IH.
  assert (Hlevel : forall (next : Parser.M 表达式) (k : nat) (operators : list TokenType.t),
            (forall c, c <= Parser.length tokens -> 够 tokens k c n ->
                       果 (next c) (前进 tokens c) (语法错误于 tokens c)) ->
            TokenType.mem TokenType.文件结束 operators = false ->
            1 <= k ->
            够 tokens (S k) current (S n) ->
            果 (Parser.parse_binary_left tokens n next operators current)
              (前进 tokens current) (语法错误于 tokens current)).
  { intros next k operators Hnext Hops Hpos Hk.
    apply 果_parse_binary_left; auto; [够_lia|].
    intros c H1 H2. apply Hnext; [exact H2 | 够_lia]. }
  split; [|split; [|split; [|split; [|split; [|split; [|split; [|split;
    [|split; [|split]]]]]]]]]; intros Hk; simpl.
  - apply IH2; [exact Hle | 够_lia].
  - apply 果_bind.
    eapply 果_impl; [apply IH3; [exact Hle | 够_lia] | | intros e c H; exact H].
    intros expr c [H1 H2].
    apply 果_bind, 果_match_.
    destruct (TokenType.mem (Token.类型 (Parser.peek_at tokens 0 c)) [TokenType.赋值])
      eqn:Hm.
    + pose proof (peek_mem_not_eof _ _ Hm eq_refl) as Hlt.
      apply 果_bind, 果_advance; [lia|].
      apply 果_bind.
      eapply 果_impl; [apply IH2; [lia | 够_lia] | |].
      * intros value c' [H3 H4]. split; lia.
      * intros e c' (H3 & H4 & H5). split; [exact H3 | lia].
    + split; lia.
  - apply (Hlevel _ 8); auto; lia.
  - apply (Hlevel _ 7); auto; lia.
  - apply (Hlevel _ 6); auto; lia.
  - apply (Hlevel _ 5); auto; lia.
  - apply (Hlevel _ 4); auto; lia.
  - apply (Hlevel _ 3); auto; lia.
  - apply 果_bind, 果_match_.
    destruct (TokenType.mem (Token.类型 (Parser.peek_at tokens 0 current))
                [TokenType.非; TokenType.减]) eqn:Hm.
    + pose proof (peek_mem_not_eof _ _ Hm eq_refl) as Hlt.
      apply 果_bind, 果_advance; [lia|].
      apply 果_bind.
      eapply 果_impl; [apply IH9; [lia | 够_lia] | |].
      * intros right c' [H3 H4]. split; lia.
      * intros e c' (H3 & H4 & H5). split; [exact H3 | lia].
    + apply IH10; [exact Hle | 够_lia].
  - apply 果_bind.
    eapply 果_impl; [apply IH11; [exact Hle | 够_lia] | | intros e c H; exact H].
    intros expr c [H1 H2].
    eapply 果_impl; [apply 果_parse_call_loop; auto; [够_lia|] | |].
    + intros c' H3 H4. apply IH1; [exact H4 | 够_lia].
    + intros a c' [H3 H4]. split; lia.
    + intros e c' (H3 & H4 & H5). split; [exact H3 | lia].
  - apply 果_bind, 果_match_.
    destruct (TokenType.mem (Token.类型 (Parser.peek_at tokens 0 current))
                [TokenType.真; TokenType.假; TokenType.空]) eqn:Hm1.
    { pose proof (peek_mem_not_eof _ _ Hm1 eq_refl) as Hlt.
      apply 果_bind, 果_advance; [lia|]. split; lia. }
    apply 果_bind, 果_match_.
    destruct (TokenType.mem (Token.类型 (Parser.peek_at tokens 0 current))
                [TokenType.整数; TokenType.浮点数; TokenType.字符串; TokenType.布尔值])
      eqn:Hm2.
    { pose proof (peek_mem_not_eof _ _ Hm2 eq_refl) as Hlt.
      apply 果_bind, 果_advance; [lia|]. split; lia. }
    apply 果_bind, 果_match_.
    destruct (TokenType.mem (Token.类型 (Parser.peek_at tokens 0 current))
                [TokenType.标识符]) eqn:Hm3.
    { pose proof (peek_mem_not_eof _ _ Hm3 eq_refl) as Hlt.
      apply 果_bind, 果_advance; [lia|]. split; lia. }
    apply 果_bind, 果_match_.
    destruct (TokenType.mem (Token.类型 (Parser.peek_at tokens 0 current))
                [TokenType.左括号]) eqn:Hm4.
    { pose proof (peek_mem_not_eof _ _ Hm4 eq_refl) as Hlt.
      apply 果_bind, 果_advance; [lia|].
      apply 果_bind.
      eapply 果_impl; [apply IH1; [lia | 够_lia] | |].
      - intros expr c [H1 H2].
        apply 果_bind, 果_consume; [discriminate | |].
        + intros H3 t. split; lia.
        + intros e He. split; [exact He | lia].
      - intros e c (H3 & H4 & H5). split; [exact H3 | lia]. }
    split; [eexists _, _; reflexivity | lia].
Qed.

Lemma 果_ret {A : Type} (a : A) (current : nat)
    (Q : A -> nat -> Prop) (E : Parser.exn -> nat -> Prop) :
  Q a current -> 果 (Parser.ret a current) Q E.
Proof. intros H. exact H. Qed.

Arguments TokenType.mem : simpl never.

Lemma 果_synchronize_loop (fuel : nat) :
  forall current,
    current <= Parser.length tokens ->
    Parser.length tokens - current < fuel ->
    果 (Parser.synchronize_loop tokens fuel current)
      (fun _ c =>
         current <= c /\ c <= Parser.length tokens
         /\ 同步点 tokens c = true
         /\ forall p, current <= p -> p < c -> 同步点 tokens p = false)
      无异常.
Proof.
  induction fuel as [|fuel IH]; intros current Hle Hfuel; [lia|].
  simpl. apply 果_bind, 果_at_end.
  destruct (TokenType.eqb (Token.类型 (Parser.peek_at tokens 0 current))
              TokenType.文件结束) eqn:He.
  { apply 果_ret. 收; try lia. unfold 同步点. rewrite He. reflexivity. }
  cbn [negb]. apply 果_bind. unfold Parser.previous at 1. cbn [果].
  destruct (TokenType.eqb
              (Token.类型 match current with
                          | 0 => Parser.last_token tokens
                          | S i => Parser.index tokens i
                          end) TokenType.分号) eqn:Hp.
  { apply 果_ret. 收; try lia.
    unfold 同步点. rewrite Hp. apply orb_true_iff. left. apply orb_true_r. }
  apply 果_bind. unfold Parser.peek at 1. cbn [果].
  destruct (TokenType.mem (Token.类型 (Parser.peek_at tokens 0 current))
              [TokenType.函数; TokenType.如果; TokenType.当; TokenType.返回]) eqn:Hk.
  { apply 果_ret. 收; try lia.
    unfold 同步点. rewrite Hk. apply orb_true_r. }
  assert (Hlt : S current < Parser.length tokens).
  { apply peek_not_eof. apply TokenType_eqb_false. exact He. }
  apply 果_bind, 果_advance; [lia|].
  eapply 果_impl; [apply IH; lia | | intros e c H; exact H].
  intros a c (H1 & H2 & H3 & H4). 收; try lia; [exact H3|].
  intros p G1 G2. destruct (Nat.eq_dec p current) as [-> | Hne].
  - unfold 同步点. rewrite He, Hp, Hk. reflexivity.
  - apply H4; lia.
Qed.

Lemma 果_synchronize (fuel current : nat) :
  current <= Parser.length tokens ->
  Parser.length tokens - current < fuel ->
  果 (Parser.synchronize tokens fuel current) (同步后 tokens current) 无异常.
Proof.
  intros Hle Hfuel. unfold Parser.synchronize, 同步后.
  apply 果_bind. unfold Parser.advance at 1.
  destruct (current <? Parser.length tokens) eqn:Hlt; simpl.
  - apply Nat.ltb_lt in Hlt.
    eapply 果_impl; [apply 果_synchronize_loop; lia | | intros e c H; exact H].
    intros a c (H1 & H2 & H3 & H4). 收; try lia; assumption.
  - apply Nat.ltb_ge in Hlt.
    eapply 果_impl; [apply 果_synchronize_loop; lia | | intros e c H; exact H].
    intros a c (H1 & H2 & H3 & H4). 收; try lia; assumption.
Qed.

Ltac 吃 :=
  apply 果_bind, 果_consume;
  [ discriminate
  | let H := fresh "Hlt" in let t := fresh "t" in intros H t
  | let e := fresh "e" in let He := fresh "He" in
    intros e He; split; [exact He | lia] ].

Lemma 果_parameters_loop (fuel : nat) :
  forall parameters current,
    current <= Parser.length tokens ->
    Parser.length tokens - current < fuel ->
    果 (Parser.parameters_loop tokens fuel parameters current)
      (不退 tokens current) (语法错误于 tokens current).
Proof.
  induction fuel as [|fuel IH]; intros parameters current Hle Hfuel; [lia|].
  simpl. apply 果_bind, 果_match_.
  destruct (TokenType.mem (Token.类型 (Parser.peek_at tokens 0 current))
              [TokenType.逗号]) eqn:Hm.
  - pose proof (peek_mem_not_eof _ _ Hm eq_refl) as Hlt.
    apply 果_bind, 果_advance; [lia|].
    吃.
    eapply 果_impl; [apply IH; lia | |].
    + intros r c' [H3 H4]. split; lia.
    + intros e c' (H3 & H4 & H5). split; [exact H3 | lia].
  - split; lia.
Qed.

Lemma 果_parse_expression (n current : nat) :
  current <= Parser.length tokens -> 够 tokens 11 current n ->
  果 (Parser.parse_expression tokens n current)
    (前进 tokens current) (语法错误于 tokens current).
Proof. intros Hle. apply (果_expressions n current Hle). Qed.

Lemma 果_parse_expression_statement (n current : nat) :
  current <= Parser.length tokens -> 够 tokens 11 current n ->
  果 (Parser.parse_expression_statement tokens n current)
    (前进 tokens current) (语法错误于 tokens current).
Proof.
  intros Hle Hk. unfold Parser.parse_expression_statement.
  apply 果_bind.
  eapply 果_impl; [apply 果_parse_expression; assumption | | intros e c H; exact H].
  intros expr c [H1 H2]. 吃. split; lia.
Qed.

Lemma 果_parse_return_statement (n current : nat) :
  current <= Parser.length tokens -> 够 tokens 11 current n ->
  果 (Parser.parse_return_statement tokens n current)
    (前进 tokens current) (语法错误于 tokens current).
Proof.
  intros Hle Hk. unfold Parser.parse_return_statement.
  吃. apply 果_bind, 果_match_. apply 果_bind.
  destruct (TokenType.mem (Token.类型 (Parser.peek_at tokens 0 (S current)))
              [TokenType.分号; TokenType.换行; TokenType.文件结束]); simpl.
  - 吃. split; lia.
  - apply 果_bind.
    eapply 果_impl; [apply 果_parse_expression; [lia | 够_lia] | |].
    + intros expr c [H1 H2]. simpl. 吃. split; lia.
    + intros e c (H3 & H4 & H5). split; [exact H3 | lia].
Qed.

Lemma 果_try_except {A : Type} (body handler : Parser.M A) (current : nat)
    (Qb Q : A -> nat -> Prop) (Eb E : Parser.exn -> nat -> Prop) :
  果 (body current) Qb Eb ->
  (forall a c, Qb a c -> Q a c) ->
  (forall message token c,
     Eb (Parser.ParserError message token) c -> 果 (handler c) Q E) ->
  (forall c, Eb Parser.IndexError c -> E Parser.IndexError c) ->
  果 (Parser.try_except body handler current) Q E.
Proof.
  intros Hb HQ HE HI. unfold Parser.try_except.
  destruct (body current) as [a c|[message token|] c|]; simpl in *.
  - apply HQ, Hb.
  - eapply HE, Hb.
  - apply HI, Hb.
  - exact Hb.
Qed.

End ParserTotal.
(** ** The statement methods of the parser *)

Section ParserStatements.

Variable tokens : list Token.t.
Hypothesis Hend : 以文件结束收尾 tokens.

Ltac 吃 :=
  apply 果_bind, 果_consume;
  [ exact Hend
  | discriminate
  | let H := fresh "Hlt" in let t := fresh "t" in intros H t
  | let e := fresh "e" in let He := fresh "He" in
    intros e He; split; [exact He | lia] ].

Ltac 够_lia := unfold 够 in *; lia.

Arguments TokenType.mem : simpl never.

(** A raised [ParserError] of a callee, further on in the input, is one of
    the caller. *)
Lemma 语法错误于_weaken (lo lo' : nat) (e : Parser.exn) (c : nat) :
  lo <= lo' -> 语法错误于 tokens lo' e c -> 语法错误于 tokens lo e c.
Proof. intros H (H1 & H2 & H3). split; [exact H1 | lia]. Qed.

Lemma 果_error {A : Type} (message : string) (current : nat)
    (Q : A -> nat -> Prop) (lo : nat) :
  lo <= current -> current <= Parser.length tokens ->
  果 (Parser.error tokens message current : Parser.outcome A) Q (语法错误于 tokens lo).
Proof.
  intros H1 H2. unfold Parser.error. simpl. split; [|lia].
  eexists _, _. reflexivity.
Qed.

(** Call a method that was shown to return further on or to raise. *)
Ltac 调 H :=
  apply 果_bind; eapply 果_impl;
  [ apply H; first [exact Hend | 够_lia]
  | intros ? ? [? ?]
  | intros ? ? ?; eapply 语法错误于_weaken; [|eassumption]; lia ].

(** The statement methods.  [parse_statement] returns in every case: what
    its [try] raises is caught and followed by [synchronize]. *)
Lemma 果_statements (n : nat) :
  forall current,
    current <= Parser.length tokens ->
    (够 tokens 14 current n ->
       果 (Parser.parse_statement tokens n current) (语句后 tokens current) 无异常)
    /\ (够 tokens 13 current n ->
          果 (Parser.parse_function_declaration tokens n current)
            (前进 tokens current) (语法错误于 tokens current))
    /\ (够 tokens 13 current n ->
          果 (Parser.parse_if_statement tokens n current)
            (前进 tokens current) (语法错误于 tokens current))
    /\ (够 tokens 13 current n ->
          果 (Parser.parse_while_statement tokens n current)
            (前进 tokens current) (语法错误于 tokens current))
    /\ (够 tokens 13 current n ->
          果 (Parser.parse_block_statement tokens n current)
            (前进 tokens current) (语法错误于 tokens current))
    /\ (forall statements, 够 tokens 15 current n ->
          果 (Parser.parse_block_loop tokens n statements current)
            (不退 tokens current) (语法错误于 tokens current)).
Proof.
  induction n as [|n IH]; intros current Hle.
  { repeat split; intros; 够_lia. }
  assert (IH1 : forall c, c <= Parser.length tokens -> 够 tokens 14 c n ->
            果 (Parser.parse_statement tokens n c) (语句后 tokens c) 无异常)
    by (intros c Hc; apply (IH c Hc)).
  assert (IH2 : forall c, c <= Parser.length tokens -> 够 tokens 13 c n ->
            果 (Parser.parse_function_declaration tokens n c)
              (前进 tokens c) (语法错误于 tokens c))
    by (intros c Hc; apply (IH c Hc)).
  assert (IH3 : forall c, c <= Parser.length tokens -> 够 tokens 13 c n ->
            果 (Parser.parse_if_statement tokens n c)
              (前进 tokens c) (语法错误于 tokens c))
    by (intros c Hc; apply (IH c Hc)).
  assert (IH4 : forall c, c <= Parser.length tokens -> 够 tokens 13 c n ->
            果 (Parser.parse_while_statement tokens n c)
              (前进 tokens c) (语法错误于 tokens c))
    by (intros c Hc; apply (IH c Hc)).
  assert (IH5 : forall c, c <= Parser.length tokens -> 够 tokens 13 c n ->
            果 (Parser.parse_block_statement tokens n c)
              (前进 tokens c) (语法错误于 tokens c))
    by (intros c Hc; apply (IH c Hc)).
  assert (IH6 : forall c statements, c <= Parser.length tokens -> 够 tokens 15 c n ->
            果 (Parser.parse_block_loop tokens n statements c)
              (不退 tokens c) (语法错误于 tokens c))
    by (intros c statements Hc; apply (IH c Hc)).
  clear IH.
  split; [|split; [|split; [|split; [|split]]]]; [intros Hk ..| intros statements Hk];
    simpl.
  - (* parse_statement *)
    apply (果_try_except _ _ current
             (fun r c => (exists s, r = Some s) /\ current < c /\ c <= Parser.length tokens)
             (语句后 tokens current) (语法错误于 tokens current) 无异常).
    + apply 果_bind, 果_match_.
      destruct (TokenType.mem _ [TokenType.函数]).
      { 调 IH2. simpl. split; [eexists; reflexivity | lia]. }
      apply 果_bind, 果_match_.
      destruct (TokenType.mem _ [TokenType.如果]).
      { 调 IH3. simpl. split; [eexists; reflexivity | lia]. }
      apply 果_bind, 果_match_.
      destruct (TokenType.mem _ [TokenType.当]).
      { 调 IH4. simpl. split; [eexists; reflexivity | lia]. }
      apply 果_bind, 果_match_.
      destruct (TokenType.mem _ [TokenType.返回]).
      { 调 果_parse_return_statement. simpl. split; [eexists; reflexivity | lia]. }
      apply 果_bind, 果_match_.
      destruct (TokenType.mem _ [TokenType.左大括号]).
      { 调 IH5. simpl. split; [eexists; reflexivity | lia]. }
      调 果_parse_expression_statement. simpl. split; [eexists; reflexivity | lia].
    + intros a c ((s & ->) & H1 & H2). unfold 语句后.
      repeat split; try lia. discriminate.
    + intros message token c (_ & H1 & H2).
      apply 果_bind.
      eapply 果_impl;
        [apply 果_synchronize; [exact Hend | lia | 够_lia] | | intros e c' []].
      intros [] c' (G1 & G2 & G3 & G4 & _). simpl. unfold 语句后.
      repeat split; try lia. intros _. exact G4.
    + intros c ((m & t & H) & _). discriminate.
  - (* parse_function_declaration *)
    吃. 吃. 吃. apply 果_bind, 果_match_.
    destruct (TokenType.mem _ [TokenType.右括号]); cbn [negb]; apply 果_bind.
    + apply 果_ret. 吃. 调 IH5. simpl. split; lia.
    + 吃.
      eapply 果_impl;
        [ apply 果_parameters_loop; [exact Hend | lia | 够_lia]
        | intros parameters c [H1 H2]
        | intros ? ? ?; eapply 语法错误于_weaken; [|eassumption]; lia ].
      吃. 调 IH5. simpl. split; lia.
  - (* parse_if_statement *)
    吃. 吃. 调 果_parse_expression. 吃.
    apply 果_bind.
    eapply 果_impl; [apply IH1; first [lia | 够_lia] | | intros e c' []].
    intros [then_branch|] c' (G1 & G2 & G3 & G4).
    + apply 果_bind, 果_match_.
      destruct (TokenType.mem (Token.类型 (Parser.peek_at tokens 0 c')) [TokenType.否则])
        eqn:Hm; apply 果_bind.
      * pose proof (peek_mem_not_eof tokens Hend _ _ Hm eq_refl) as Hlt'.
        apply 果_bind, 果_advance; [lia|].
        eapply 果_impl; [apply IH1; first [lia | 够_lia] | | intros e c'' []].
        intros else_branch c'' (K1 & K2 & K3 & K4). simpl. split; lia.
      * apply 果_ret. simpl. split; lia.
    + apply 果_error; lia.
  - (* parse_while_statement *)
    吃. 吃. 调 果_parse_expression. 吃.
    apply 果_bind.
    eapply 果_impl; [apply IH1; first [lia | 够_lia] | | intros e c' []].
    intros [body|] c' (G1 & G2 & G3 & G4).
    + simpl. split; lia.
    + apply 果_error; lia.
  - (* parse_block_statement *)
    吃. apply 果_bind.
    eapply 果_impl;
      [ apply 果_skip_newlines; [exact Hend | lia | 够_lia]
      | intros [] c [H1 H2] | intros e c [] ].
    apply 果_bind.
    eapply 果_impl;
      [ apply IH6; first [lia | 够_lia]
      | intros stmts c' [H3 H4]
      | intros ? ? ?; eapply 语法错误于_weaken; [|eassumption]; lia ].
    吃. simpl. split; lia.
  - (* parse_block_loop *)
    apply 果_bind, 果_match_. apply 果_bind, 果_at_end.
    destruct (TokenType.mem _ [TokenType.右大括号]); cbn [negb andb];
      [apply 果_ret; split; lia|].
    destruct (TokenType.eqb (Token.类型 (Parser.peek_at tokens 0 current))
                TokenType.文件结束) eqn:He; cbn [negb];
      [apply 果_ret; split; lia|].
    assert (Hlt : S current < Parser.length tokens).
    { apply (peek_not_eof tokens Hend). apply TokenType_eqb_false. exact He. }
    apply 果_bind.
    eapply 果_impl; [apply IH1; first [lia | 够_lia] | | intros e c' []].
    intros stmt c (G1 & G2 & G3 & G4).
    apply 果_bind.
    eapply 果_impl;
      [ apply 果_skip_newlines; [exact Hend | lia | 够_lia]
      | intros [] c' [H1 H2] | intros e c' [] ].
    eapply 果_impl;
      [ apply IH6; first [lia | 够_lia]
      | intros stmts c'' [H3 H4]; split; lia
      | intros ? ? ?; eapply 语法错误于_weaken; [|eassumption]; lia ].
Qed.

Lemma 果_parse_loop (n : nat) :
  forall statements current,
    current <= Parser.length tokens -> 够 tokens 16 current n ->
    果 (Parser.parse_loop tokens n statements current) (不退 tokens current) 无异常.
Proof.
  induction n as [|n IH]; intros statements current Hle Hk; [够_lia|].
  simpl. apply 果_bind, 果_at_end.
  destruct (TokenType.eqb (Token.类型 (Parser.peek_at tokens 0 current))
              TokenType.文件结束) eqn:He; cbn [negb];
    [apply 果_ret; split; lia|].
  assert (Hlt : S current < Parser.length tokens).
  { apply (peek_not_eof tokens Hend). apply TokenType_eqb_false. exact He. }
  apply 果_bind.
  eapply 果_impl;
    [apply (果_statements n current Hle); 够_lia | | intros e c' []].
  intros stmt c (G1 & G2 & G3 & G4).
  apply 果_bind.
  eapply 果_impl;
    [ apply 果_skip_newlines; [exact Hend | lia | 够_lia]
    | intros [] c' [H1 H2] | intros e c' [] ].
  eapply 果_impl;
    [ apply IH; first [lia | 够_lia]
    | intros stmts c'' [H3 H4]; split; lia
    | intros e c'' [] ].
Qed.

End ParserStatements.

Lemma 以文件结束收尾_nonempty (tokens : list Token.t) :
  以文件结束收尾 tokens -> tokens <> [].
Proof. intros (l & t & -> & _). apply not_eq_sym, app_cons_not_nil. Qed.

Lemma 果_parse (tokens : list Token.t) (fuel : nat) :
  以文件结束收尾 tokens ->
  12 * List.length tokens + 16 <= fuel ->
  exists program current, Parser.parse tokens fuel = Parser.Ret program current.
Proof.
  intros Hend Hfuel.
  pose proof (以文件结束收尾_nonempty tokens Hend) as Hne.
  assert (H : 果 (Parser.bind (Parser.skip_newlines tokens fuel)
                    (fun _ => Parser.bind (Parser.parse_loop tokens fuel [])
                                (fun statements => Parser.ret (程序_ statements))) 0)
                (fun _ _ => True) 无异常).
  { apply 果_bind.
    eapply 果_impl;
      [ apply 果_skip_newlines; [exact Hend | lia | unfold Parser.length; lia]
      | intros [] c [H1 H2] | intros e c [] ].
    apply 果_bind.
    eapply 果_impl;
      [ apply 果_parse_loop; [exact Hend | lia | unfold 够, Parser.length; lia]
      | intros stmts c' [H3 H4]; exact I
      | intros e c' [] ]. }
  unfold Parser.parse. destruct tokens as [|t ts] eqn:E; [contradiction|].
  rewrite <- E in *.
  destruct (Parser.bind _ _ 0) as [program c|e c|]; simpl in H;
    [eauto | contradiction | contradiction].
Qed.

(** X1: [parse] returns a program for every token list that ends with the
    end-of-input token: no exception leaves it, and twelve units of fuel
    per token and sixteen more are enough. *)
Theorem parse_returns_program (tokens : list Token.t) (fuel : nat) :
  以文件结束收尾 tokens ->
  12 * List.length tokens + 16 <= fuel ->
  exists program current, Parser.parse tokens fuel = Parser.Ret program current.
Proof. apply 果_parse. Qed.

Lemma parse_returns_program_witness :
  exists program current,
    Parser.parse
      [Token.mk TokenType.整数 (VInt 1) 1 1; Token.mk TokenType.加 (VStr "+") 1 3;
       Token.mk TokenType.分号 (VStr ";") 1 4; Token.mk TokenType.文件结束 VNone 1 5]
      64
    = Parser.Ret program current.
Proof.
  apply parse_returns_program.
  - exists [Token.mk TokenType.整数 (VInt 1) 1 1; Token.mk TokenType.加 (VStr "+") 1 3;
            Token.mk TokenType.分号 (VStr ";") 1 4],
           (Token.mk TokenType.文件结束 VNone 1 5).
    split; reflexivity.
  - simpl. lia.
Defined.

(** X2: [parse_statement] returns whatever the tokens are: with the fuel of
    [够] it ends at or after its start, has consumed a token if one was
    left, and when it gives up a statement ([None]) the cursor is at a
    synchronisation point. *)
Theorem parse_statement_recovers (tokens : list Token.t) (fuel current : nat) :
  以文件结束收尾 tokens ->
  current <= List.length tokens ->
  12 * (List.length tokens - current) + 14 <= fuel ->
  exists stmt current',
    Parser.parse_statement tokens fuel current = Parser.Ret stmt current'
    /\ current <= current' /\ current' <= List.length tokens
    /\ (current < List.length tokens -> current < current')
    /\ (stmt = None -> 同步点 tokens current' = true).
Proof.
  intros Hend Hle Hfuel.
  pose proof (果_statements tokens Hend fuel current Hle) as (H & _).
  specialize (H Hfuel).
  destruct (Parser.parse_statement tokens fuel current) as [stmt c|e c|];
    simpl in H; [|contradiction|contradiction].
  exists stmt, c. split; [reflexivity | exact H].
Qed.

Lemma parse_statement_recovers_witness :
  exists stmt current',
    Parser.parse_statement
      [Token.mk TokenType.赋值 (VStr "=") 1 1; Token.mk TokenType.整数 (VInt 1) 1 3;
       Token.mk TokenType.分号 (VStr ";") 1 4; Token.mk TokenType.文件结束 VNone 1 5]
      62 0
    = Parser.Ret stmt current'
    /\ 0 <= current' /\ current' <= 4
    /\ (0 < 4 -> 0 < current')
    /\ (stmt = None ->
        同步点
          [Token.mk TokenType.赋值 (VStr "=") 1 1; Token.mk TokenType.整数 (VInt 1) 1 3;
           Token.mk TokenType.分号 (VStr ";") 1 4; Token.mk TokenType.文件结束 VNone 1 5]
          current' = true).
Proof.
  apply (parse_statement_recovers
           [Token.mk TokenType.赋值 (VStr "=") 1 1; Token.mk TokenType.整数 (VInt 1) 1 3;
            Token.mk TokenType.分号 (VStr ";") 1 4; Token.mk TokenType.文件结束 VNone 1 5]
           62 0).
  - exists [Token.mk TokenType.赋值 (VStr "=") 1 1; Token.mk TokenType.整数 (VInt 1) 1 3;
            Token.mk TokenType.分号 (VStr ";") 1 4],
           (Token.mk TokenType.文件结束 VNone 1 5).
    split; reflexivity.
  - simpl. lia.
  - simpl. lia.
Defined.

(** X3: [synchronize] consumes one token if one is left and then stops at the
    first synchronisation point: the end of the input, the position just
    after a semicolon, or a token that starts a statement. *)
Theorem synchronize_stops_at_first_sync_point
    (tokens : list Token.t) (fuel current : nat) :
  以文件结束收尾 tokens ->
  current <= List.length tokens ->
  List.length tokens - current < fuel ->
  exists current',
    Parser.synchronize tokens fuel current = Parser.Ret tt current'
    /\ 同步后 tokens current tt current'.
Proof.
  intros Hend Hle Hfuel.
  pose proof (果_synchronize tokens Hend fuel current Hle Hfuel) as H.
  destruct (Parser.synchronize tokens fuel current) as [[] c|e c|];
    simpl in H; [|contradiction|contradiction].
  exists c. split; [reflexivity | exact H].
Qed.

Lemma synchronize_stops_at_first_sync_point_witness :
  exists current',
    Parser.synchronize
      [Token.mk TokenType.赋值 (VStr "=") 1 1; Token.mk TokenType.整数 (VInt 1) 1 3;
       Token.mk TokenType.分号 (VStr ";") 1 4; Token.mk TokenType.文件结束 VNone 1 5]
      5 0
    = Parser.Ret tt current'
    /\ 同步后
         [Token.mk TokenType.赋值 (VStr "=") 1 1; Token.mk TokenType.整数 (VInt 1) 1 3;
          Token.mk TokenType.分号 (VStr ";") 1 4; Token.mk TokenType.文件结束 VNone 1 5]
         0 tt current'.
Proof.
  apply synchronize_stops_at_first_sync_point.
  - exists [Token.mk TokenType.赋值 (VStr "=") 1 1; Token.mk TokenType.整数 (VInt 1) 1 3;
            Token.mk TokenType.分号 (VStr ";") 1 4],
           (Token.mk TokenType.文件结束 VNone 1 5).
    split; reflexivity.
  - simpl. lia.
  - simpl. lia.
Defined.

(** *** What holds for every token list *)

Lemma 未抛出_synchronize_loop (tokens : list Token.t) (fuel : nat) :
  forall current, 未抛出 (Parser.synchronize_loop tokens fuel current).
Proof.
  induction fuel as [|fuel IH]; intros current; simpl; [exact I|].
  cbv beta iota delta [Parser.bind Parser.at_end Parser.peek Parser.previous
                         Parser.ret Parser.advance].
  repeat (match goal with
          | |- context [if ?b then _ else _] => destruct b
          end; cbn beta iota);
    first [exact I | apply IH].
Qed.

Lemma 未抛出_synchronize (tokens : list Token.t) (fuel current : nat) :
  未抛出 (Parser.synchronize tokens fuel current).
Proof.
  unfold Parser.synchronize, Parser.bind, Parser.advance.
  destruct (current <? Parser.length tokens); apply 未抛出_synchronize_loop.
Qed.

(** X4: no [ParserError] leaves [parse_statement], whatever the tokens, the
    cursor and the fuel: the handler of its [try] runs [synchronize], which
    raises nothing, and returns [None]. *)
Theorem parse_statement_catches_ParserError
    (tokens : list Token.t) (fuel current : nat) :
  match Parser.parse_statement tokens fuel current with
  | Parser.Raise (Parser.ParserError _ _) _ => False
  | _ => True
  end.
Proof.
  destruct fuel as [|fuel]; simpl; [exact I|].
  match goal with
  | |- match Parser.try_except ?b ?h ?c with _ => _ end =>
    unfold Parser.try_except; destruct (b c) as [a c1|[m t|] c1|]
  end; try exact I.
  unfold Parser.bind.
  pose proof (未抛出_synchronize tokens fuel c1) as H.
  destruct (Parser.synchronize tokens fuel c1); try exact I.
  contradiction.
Qed.

Lemma Token_eq_dec (a b : Token.t) : {a = b} + {a <> b}.
Proof.
  decide equality; first [apply Z.eq_dec | apply Value_eq_dec | apply TokenType.eq_dec].
Qed.

Lemma parse_nonempty (tokens : list Token.t) (fuel : nat) :
  tokens <> [] ->
  Parser.parse tokens fuel
  = Parser.bind (Parser.skip_newlines tokens fuel)
      (fun _ => Parser.bind (Parser.parse_loop tokens fuel [])
                  (fun statements => Parser.ret (程序_ statements))) 0.
Proof. intros H. destruct tokens; [contradiction | reflexivity]. Qed.

Lemma last_In {A : Type} (l : list A) (d : A) : l <> [] -> In (last l d) l.
Proof.
  intros H. rewrite (app_removelast_last d H) at 2.
  apply in_or_app. right. left. reflexivity.
Qed.

Lemma peek_at_In (tokens : list Token.t) (current : nat) :
  tokens <> [] -> In (Parser.peek_at tokens 0 current) tokens.
Proof.
  intros H. unfold Parser.peek_at, Parser.last_token, Parser.index, Parser.length.
  rewrite Nat.add_0_r.
  destruct (List.length tokens <=? current) eqn:E.
  - apply last_In. exact H.
  - apply Nat.leb_gt in E. apply nth_In. exact E.
Qed.

Lemma 未返回_parse_loop (tokens : list Token.t) :
  tokens <> [] ->
  Forall (fun t => Token.类型 t <> TokenType.文件结束) tokens ->
  forall fuel statements current,
    未返回 (Parser.parse_loop tokens fuel statements current).
Proof.
  intros Hne Hall.
  induction fuel as [|fuel IH]; intros statements current; simpl; [exact I|].
  unfold Parser.bind at 1. unfold Parser.at_end, Parser.bind, Parser.peek, Parser.ret.
  assert (He : TokenType.eqb (Token.类型 (Parser.peek_at tokens 0 current))
                 TokenType.文件结束 = false).
  { apply TokenType_eqb_false. rewrite Forall_forall in Hall.
    apply Hall, peek_at_In, Hne. }
  rewrite He. cbn [negb].
  destruct (Parser.parse_statement tokens fuel current) as [stmt c| |]; try exact I.
  destruct (Parser.skip_newlines tokens fuel c) as [[] c'| |]; try exact I.
  apply IH.
Qed.

(** X5: [parse] relies on the end-of-input token to stop: on a token list
    that holds none it returns no program, whatever the fuel.  (On the
    empty list it raises [IndexError]; on any other it runs on for ever or
    fails.) *)
Theorem parse_needs_eof_token (tokens : list Token.t) (fuel : nat) :
  Forall (fun t => Token.类型 t <> TokenType.文件结束) tokens ->
  未返回 (Parser.parse tokens fuel).
Proof.
  intros Hall.
  destruct (list_eq_dec Token_eq_dec tokens []) as [-> | Hne]; [exact I|].
  rewrite (parse_nonempty tokens fuel Hne).
  unfold Parser.bind at 1.
  destruct (Parser.skip_newlines tokens fuel 0) as [[] c| |]; try exact I.
  unfold Parser.bind.
  pose proof (未返回_parse_loop tokens Hne Hall fuel [] c) as H.
  destruct (Parser.parse_loop tokens fuel [] c); try exact I.
  contradiction.
Qed.

Lemma parse_needs_eof_token_witness :
  未返回
    (Parser.parse
       [Token.mk TokenType.整数 (VInt 1) 1 1; Token.mk TokenType.分号 (VStr ";") 1 2]
       40).
Proof.
  apply parse_needs_eof_token.
  repeat constructor; discriminate.
Defined.

(** ** From the source text to the program *)

(** Every token but the last consumes a character. *)
Lemma 后_tokenize_loop_count (fuel : nat) :
  forall self tokens,
    良构 self -> S (S (文长 self)) < fuel ->
    后 (Lexer.tokenize_loop fuel self tokens)
      (fun r _ => List.length r <= List.length tokens + 文长 self + 1)
      (fun _ => True).
Proof.
  induction fuel as [|fuel IH]; intros self tokens Hwf Hfuel; [lia|].
  simpl.
  eapply 后_bind; [apply 后_next_token; [exact Hwf | lia]|].
  intros token s (H1 & H2 & H3 & H4 & H5).
  destruct (TokenType.eqb (Token.类型 token) TokenType.文件结束) eqn:E.
  - simpl. rewrite length_app. simpl. lia.
  - apply TokenType_eqb_false in E. specialize (H4 E).
    eapply 后_impl; [apply IH; [exact H1 | lia] | | auto].
    intros r s'. simpl. rewrite length_app. simpl. lia.
Qed.

(** X6: [tokenize] returns at most one token per character of the source
    text, and the end-of-input token. *)
Theorem tokenize_token_count (source_code : string) (fuel : nat) :
  String.length source_code + 3 <= fuel ->
  match Lexer.tokenize fuel (Lexer.init source_code) with
  | Lexer.Ret tokens _ => List.length tokens <= String.length source_code + 1
  | Lexer.Raise _ => True
  | Lexer.OutOfFuel => False
  end.
Proof.
  intros Hfuel.
  pose proof (后_tokenize_loop_count fuel (Lexer.init source_code) []
                (良构_init source_code)) as H.
  rewrite 文长_init in H. specialize (H ltac:(lia)).
  unfold Lexer.tokenize.
  destruct (Lexer.tokenize_loop fuel (Lexer.init source_code) []); simpl in H; auto.
Qed.

Lemma tokenize_token_count_witness :
  match Lexer.tokenize 12 (Lexer.init "x = y; //") with
  | Lexer.Ret tokens _ => List.length tokens <= String.length "x = y; //" + 1
  | Lexer.Raise _ => True
  | Lexer.OutOfFuel => False
  end.
Proof. apply (tokenize_token_count "x = y; //" 12). simpl. lia. Defined.

Lemma parse_source_enough (source : string) (fuel : nat) :
  12 * String.length source + 28 <= fuel ->
  match Parser.parse_source fuel source with
  | Parser.Parsed _ | Parser.LexerRaised _ => True
  | _ => False
  end.
Proof.
  intros Hfuel. unfold Parser.parse_source, Lexer.tokenize.
  pose proof (后_tokenize_loop_count fuel (Lexer.init source) []
                (良构_init source)) as Hn.
  pose proof (后_tokenize_loop fuel (Lexer.init source) []
                (良构_init source)) as He.
  rewrite 文长_init in Hn, He.
  specialize (Hn ltac:(lia)). specialize (He ltac:(lia)).
  destruct (Lexer.tokenize_loop fuel (Lexer.init source) []) as [tokens s|e|];
    simpl in Hn, He; [|exact I|contradiction].
  destruct He as (l & t & -> & _ & Ht).
  destruct (果_parse (l ++ [t]) fuel) as (program & c & ->).
  - exists l, t. split; [reflexivity | exact Ht].
  - simpl in Hn. lia.
  - exact I.
Qed.

(** X7: [parse_source] lets no [ParserError] through: for every source text
    it returns a program or raises what the scanner raises. *)
Theorem parse_source_never_raises_ParserError (source : string) :
  (forall fuel e, Parser.parse_source fuel source <> Parser.ParserRaised e)
  /\ (forall fuel,
        12 * String.length source + 28 <= fuel ->
        (exists program, Parser.parse_source fuel source = Parser.Parsed program)
        \/ (exists e, Parser.parse_source fuel source = Parser.LexerRaised e)).
Proof.
  split.
  - intros fuel e H.
    pose proof (parse_source_enough source
                  (Nat.max fuel (12 * String.length source + 28)) ltac:(lia)) as G.
    rewrite (parse_source_mono fuel _ source) in G; [|lia|rewrite H; discriminate].
    rewrite H in G. exact G.
  - intros fuel Hfuel. pose proof (parse_source_enough source fuel Hfuel) as G.
    destruct (Parser.parse_source fuel source); try contradiction; eauto.
Qed.

Lemma parse_source_never_raises_ParserError_witness :
  (forall fuel e, Parser.parse_source fuel "x = ; y = 1;" <> Parser.ParserRaised e)
  /\ ((exists program, Parser.parse_source 172 "x = ; y = 1;" = Parser.Parsed program)
      \/ (exists e, Parser.parse_source 172 "x = ; y = 1;" = Parser.LexerRaised e)).
Proof.
  split.
  - apply (proj1 (parse_source_never_raises_ParserError "x = ; y = 1;")).
  - apply (proj2 (parse_source_never_raises_ParserError "x = ; y = 1;") 172).
    simpl. lia.
Defined.

(** ** The precedence table and the expression methods *)

(** X8: the table of [运算符优先级] is consistent with its queries: a token
    kind is reported as a binary operator exactly when its priority is
    positive, the right-associative kinds are [=] and [!], and both unary
    operators are also reported as binary ones. *)
Theorem precedence_table_queries (token_type : TokenType.t) :
  (运算符优先级.is_二元运算符 token_type = true
   <-> (0 < 运算符优先级.get_优先级 token_type)%Z)
  /\ (运算符优先级.is_右结合 token_type = true
      <-> token_type = TokenType.赋值 \/ token_type = TokenType.非)
  /\ (运算符优先级.is_一元运算符 token_type = true ->
      运算符优先级.is_二元运算符 token_type = true).
Proof.
  destruct token_type; vm_compute;
    (split; [split; intros H; first [reflexivity | discriminate H] |]);
    (split; [split; [intros H; first [discriminate H | left; reflexivity
                                     | right; reflexivity]
                    | intros [H | H]; first [reflexivity | discriminate H]]
            | intros H; first [reflexivity | discriminate H]]).
Qed.

Lemma parse_at_fuel (tokens : list Token.t) (n m : nat)
    (program : 程序) (current : nat) :
  n <= m ->
  Parser.parse tokens n = Parser.Ret program current ->
  Parser.parse tokens m = Parser.Ret program current.
Proof.
  intros H E. destruct (不减P_parse tokens n m H) as [G | G].
  - rewrite G in E. discriminate.
  - rewrite <- G. exact E.
Qed.

(** X9: the expression methods group two binary operators as the table of
    [运算符优先级] says.  In [a o1 b o2 c ;] with left-associative binary
    operators, [a o1 b] is the left operand of [o2] when the priority of
    [o2] is not greater than that of [o1], and [b o2 c] is the right operand
    of [o1] otherwise. *)
Theorem grouping_follows_precedence_table
    (op1 op2 : TokenType.t) (a b c : Z) (v1 v2 : Value)
    (l1 c1 l2 c2 l3 c3 l4 c4 l5 c5 l6 c6 l7 c7 : Z) (fuel : nat) :
  运算符优先级.is_二元运算符 op1 = true ->
  运算符优先级.is_右结合 op1 = false ->
  运算符优先级.is_二元运算符 op2 = true ->
  运算符优先级.is_右结合 op2 = false ->
  100 <= fuel ->
  let ta := Token.mk TokenType.整数 (VInt a) l1 c1 in
  let t1 := Token.mk op1 v1 l2 c2 in
  let tb := Token.mk TokenType.整数 (VInt b) l3 c3 in
  let t2 := Token.mk op2 v2 l4 c4 in
  let tc := Token.mk TokenType.整数 (VInt c) l5 c5 in
  Parser.parse
    [ta; t1; tb; t2; tc;
     Token.mk TokenType.分号 (VStr ";") l6 c6;
     Token.mk TokenType.文件结束 VNone l7 c7] fuel
  = Parser.Ret
      (程序_
         [表达式语句
            (if (运算符优先级.get_优先级 op2 <=? 运算符优先级.get_优先级 op1)%Z
             then 二元运算表达式
                    (二元运算表达式 (字面量表达式 ta) t1 (字面量表达式 tb))
                    t2 (字面量表达式 tc)
             else 二元运算表达式 (字面量表达式 ta) t1
                    (二元运算表达式 (字面量表达式 tb) t2 (字面量表达式 tc)))])
      6.
Proof.
  intros B1 R1 B2 R2 Hfuel ta t1 tb t2 tc.
  apply (parse_at_fuel _ 100 fuel); [exact Hfuel|].
  subst ta t1 tb t2 tc.
  destruct op1; try discriminate B1; try discriminate R1;
    destruct op2; try discriminate B2; try discriminate R2;
    vm_compute; reflexivity.
Qed.

Lemma grouping_follows_precedence_table_witness :
  Parser.parse
    [Token.mk TokenType.整数 (VInt 1) 1 1; Token.mk TokenType.小于 (VStr "<") 1 3;
     Token.mk TokenType.整数 (VInt 2) 1 5; Token.mk TokenType.减 (VStr "-") 1 7;
     Token.mk TokenType.整数 (VInt 3) 1 9;
     Token.mk TokenType.分号 (VStr ";") 1 10;
     Token.mk TokenType.文件结束 VNone 1 11] 100
  = Parser.Ret
      (程序_
         [表达式语句
            (二元运算表达式
               (字面量表达式 (Token.mk TokenType.整数 (VInt 1) 1 1))
               (Token.mk TokenType.小于 (VStr "<") 1 3)
               (二元运算表达式
                  (字面量表达式 (Token.mk TokenType.整数 (VInt 2) 1 5))
                  (Token.mk TokenType.减 (VStr "-") 1 7)
                  (字面量表达式 (Token.mk TokenType.整数 (VInt 3) 1 9))))])
      6.
Proof.
  apply (grouping_follows_precedence_table
           TokenType.小于 TokenType.减 1 2 3 (VStr "<") (VStr "-")
           1 1 1 3 1 5 1 7 1 9 1 10 1 11 100);
    first [reflexivity | lia].
Defined.

(** ** More of the type system *)

Lemma 基本类型_is_compatible_with_sym (a b : 基本类型枚举.t) :
  基本类型_is_compatible_with a (基本类型 b)
  = 基本类型_is_compatible_with b (基本类型 a).
Proof. destruct a, b; reflexivity. Qed.

(** X10: [is_compatible_with] is symmetric, on primitive types and on
    function types alike (the answer, and whether the comparison of two
    function types comes to an end, do not depend on the order of the two
    types). *)
Theorem is_compatible_with_symmetric (fuel : nat) (heap : 类型堆) :
  forall self other,
    is_compatible_with fuel heap self other
    = is_compatible_with fuel heap other self.
Proof.
  induction fuel as [|fuel IH]; intros [a|a] [b|b]; simpl; try reflexivity;
    try (f_equal; apply 基本类型_is_compatible_with_sym).
  rewrite (Nat.eqb_sym (List.length (参数类型列表 (取函数类型 heap b)))).
  destruct (List.length (参数类型列表 (取函数类型 heap a))
            =? List.length (参数类型列表 (取函数类型 heap b))); [|reflexivity].
  cbn [negb].
  generalize (参数类型列表 (取函数类型 heap a)) (参数类型列表 (取函数类型 heap b)).
  intros l1. induction l1 as [|x l1 IHl]; intros [|y l2]; simpl; try apply IH.
  rewrite (IH x y).
  destruct (is_compatible_with fuel heap y x) as [[|]|]; try reflexivity.
  apply IHl.
Qed.

(** X11: what is assignable is compatible, and not the other way round:
    an integer type is compatible with a float value but not assignable
    from it. *)
Theorem assignable_implies_compatible :
  (forall (fuel : nat) (heap : 类型堆) (target value : 类型),
     is_assignable_from fuel heap target value = Some true ->
     is_compatible_with fuel heap target value = Some true)
  /\ (forall (fuel : nat) (heap : 类型堆),
        is_compatible_with fuel heap 类型系统.整数类型 类型系统.浮点数类型 = Some true
        /\ is_assignable_from fuel heap 类型系统.整数类型 类型系统.浮点数类型
           = Some false).
Proof.
  split.
  - intros fuel heap [k|a] value H; [|exact H].
    destruct fuel; simpl in *; destruct k, value as [o|b]; try destruct o;
      try discriminate H; reflexivity.
  - intros [|fuel] heap; split; reflexivity.
Qed.

Lemma assignable_implies_compatible_witness :
  is_compatible_with 0 [] 类型系统.浮点数类型 类型系统.整数类型 = Some true.
Proof.
  apply (proj1 assignable_implies_compatible 0 [] 类型系统.浮点数类型 类型系统.整数类型).
  reflexivity.
Defined.

(** X12: on primitive types [get_common_type] is the least upper bound of
    the assignability order: the type it returns is assignable from both
    arguments and every primitive type that is assignable from both is
    assignable from it; it returns [None] exactly when no primitive type is
    assignable from both. *)
Theorem get_common_type_least_upper_bound
    (fuel : nat) (heap : 类型堆) (a b : 基本类型枚举.t) :
  match 类型系统.get_common_type fuel heap (基本类型 a) (基本类型 b) with
  | Some (Some t) =>
    is_assignable_from fuel heap t (基本类型 a) = Some true
    /\ is_assignable_from fuel heap t (基本类型 b) = Some true
    /\ forall u,
         基本类型_is_assignable_from u (基本类型 a) = true ->
         基本类型_is_assignable_from u (基本类型 b) = true ->
         is_assignable_from fuel heap (基本类型 u) t = Some true
  | Some None =>
    forall u,
      基本类型_is_assignable_from u (基本类型 a) = true ->
      基本类型_is_assignable_from u (基本类型 b) = true -> False
  | None => False
  end.
Proof.
  destruct fuel; destruct a, b; simpl;
    first [ intros [] H1 H2; discriminate
          | split; [reflexivity | split; [reflexivity|]];
            intros [] H1 H2; first [reflexivity | discriminate] ].
Qed.

Lemma check_function_call_loop (fuel : nat) (heap : 类型堆) (r : 类型) :
  forall arg_types params,
    List.length arg_types = List.length params ->
    (fix loop (l : list (类型 * 类型)) : option (option 类型) :=
       match l with
       | [] => Some (Some r)
       | (arg_type, param_type) :: l' =>
         match is_assignable_from fuel heap param_type arg_type with
         | None => None
         | Some false => Some None
         | Some true => loop l'
         end
       end) (combine arg_types params) = Some (Some r)
    <-> Forall2 (fun arg_type param_type =>
                   is_assignable_from fuel heap param_type arg_type = Some true)
          arg_types params.
Proof.
  induction arg_types as [|x l IH]; intros [|p ps] Hlen; simpl in *; try discriminate.
  - split; [constructor | reflexivity].
  - injection Hlen as Hlen. specialize (IH ps Hlen).
    destruct (is_assignable_from fuel heap p x) as [[|]|] eqn:E.
    + rewrite IH. split.
      * intros H. constructor; assumption.
      * intros H. inversion H. assumption.
    + split; [discriminate|]. intros H. inversion H. congruence.
    + split; [discriminate|]. intros H. inversion H. congruence.
Qed.

(** X13: [check_function_call] returns a type exactly when the callee is a
    function type, the number of arguments is that of its parameters and
    every parameter type is assignable from its argument type; the type is
    then the return type of the callee. *)
Theorem check_function_call_accepts
    (fuel : nat) (heap : 类型堆) (func_type : 类型) (arg_types : list 类型)
    (result : 类型) :
  类型系统.check_function_call fuel heap func_type arg_types = Some (Some result)
  <-> exists a,
        func_type = 函数类型 a
        /\ result = 返回类型 (取函数类型 heap a)
        /\ Forall2 (fun arg_type param_type =>
                      is_assignable_from fuel heap param_type arg_type = Some true)
             arg_types (参数类型列表 (取函数类型 heap a)).
Proof.
  destruct func_type as [k|a]; simpl.
  { split; [discriminate | intros (a & H & _); discriminate]. }
  destruct (List.length arg_types =? List.length (参数类型列表 (取函数类型 heap a)))
    eqn:E; cbn [negb].
  - apply Nat.eqb_eq in E. split.
    + intros H. exists a.
      assert (G : result = 返回类型 (取函数类型 heap a)).
      { clear E. revert H.
        generalize (参数类型列表 (取函数类型 heap a)). revert arg_types.
        induction arg_types as [|x l IH]; intros [|p ps]; simpl;
          try (intros H; injection H as H; congruence).
        destruct (is_assignable_from fuel heap p x) as [[|]|]; try discriminate.
        apply IH. }
      subst result. split; [reflexivity | split; [reflexivity|]].
      apply (proj1 (check_function_call_loop fuel heap
                      (返回类型 (取函数类型 heap a)) arg_types
                      (参数类型列表 (取函数类型 heap a)) E)).
      exact H.
    + intros (a' & Ha & -> & H). injection Ha as <-.
      apply (proj2 (check_function_call_loop fuel heap
                      (返回类型 (取函数类型 heap a)) arg_types
                      (参数类型列表 (取函数类型 heap a)) E)).
      exact H.
  - apply Nat.eqb_neq in E. split; [discriminate|].
    intros (a' & Ha & _ & H). injection Ha as <-.
    apply Forall2_length in H. contradiction.
Qed.

(** X14: an operand of unknown type never makes a binary operation fail:
    with an unknown operand and a primitive one, an arithmetic operator
    gives the unknown type and a comparison or logical operator gives the
    boolean type. *)
Theorem unknown_operand_is_accepted
    (operator : TokenType.t) (left right : 基本类型枚举.t) :
  left = 基本类型枚举.未知 \/ right = 基本类型枚举.未知 ->
  类型系统.check_binary_operation (基本类型 left) operator (基本类型 right)
  = if TokenType.mem operator
         [TokenType.加; TokenType.减; TokenType.乘; TokenType.除; TokenType.模]
    then Some 类型系统.未知类型
    else if TokenType.mem operator
              [TokenType.等于; TokenType.不等于; TokenType.小于; TokenType.大于;
               TokenType.小于等于; TokenType.大于等于; TokenType.与; TokenType.或]
    then Some 类型系统.布尔值类型
    else None.
Proof.
  intros [-> | ->]; destruct operator; try reflexivity; destruct left; try reflexivity;
    destruct right; reflexivity.
Qed.

Lemma unknown_operand_is_accepted_witness :
  类型系统.check_binary_operation
    (基本类型 基本类型枚举.未知) TokenType.小于 (基本类型 基本类型枚举.字符串)
  = Some 类型系统.布尔值类型.
Proof.
  apply (unknown_operand_is_accepted TokenType.小于 基本类型枚举.未知 基本类型枚举.字符串).
  left. reflexivity.
Defined.

(** ** More of the symbol tables *)

Lemma 名称相同_false (a b : Value) : 名称相同 a b = false <-> a <> b.
Proof.
  unfold 名称相同. destruct (Value_eq_dec a b); split; congruence.
Qed.

Lemma 字典取_app_other {A : Type} (d : list (Value * A)) (k other : Value) (v : A) :
  other <> k -> 字典取 (d ++ [(k, v)])%list other = 字典取 d other.
Proof.
  intros H. induction d as [|[k' v'] d IH]; simpl.
  - rewrite (proj2 (名称相同_false other k) H). reflexivity.
  - destruct (名称相同 other k'); [reflexivity | exact IH].
Qed.

(** X15: [define] leaves every other name as it was and keeps the order of
    insertion: a successful call adds one symbol, at the end of
    [get_all_symbols]; a rejected one changes nothing. *)
Theorem define_extends_table (heap : 符号堆) (self : 符号表.t) (符号 : nat) :
  let 名 := 符号_名称 (取符号 heap 符号) in
  let ok := fst (符号表.define heap self 符号) in
  let self' := snd (符号表.define heap self 符号) in
  (forall other, other <> 名 -> 符号表.lookup self' other = 符号表.lookup self other)
  /\ 符号表.get_symbol_count self'
     = 符号表.get_symbol_count self + (if ok then 1 else 0)
  /\ 符号表.get_all_symbols self'
     = (符号表.get_all_symbols self ++ (if ok then [符号] else []))%list.
Proof.
  intros 名 ok self'. subst 名 ok self'.
  unfold 符号表.define, 符号表.lookup, 符号表.get_symbol_count,
    符号表.get_all_symbols, 字典含.
  destruct (字典取 (符号表.符号映射 self) (符号_名称 (取符号 heap 符号))) eqn:E; simpl.
  - repeat split; [lia | rewrite app_nil_r; reflexivity].
  - rewrite (字典存_absent _ _ _ E). repeat split.
    + intros other H. apply 字典取_app_other. exact H.
    + rewrite length_app. reflexivity.
    + rewrite map_app. reflexivity.
Qed.

(** X16: a name defined in a scope that has just been entered hides the
    outer definitions of that name and no other, and only until the scope
    is left: after [exit_scope] every lookup answers as before
    [enter_scope]. *)
Theorem shadowing_is_local
    (heap : 符号堆) (m : 作用域管理器.t) (scope_name : list 片段) (符号 : nat) :
  let 名 := 符号_名称 (取符号 heap 符号) in
  let m1 := 作用域管理器.enter_scope scope_name m in
  let m2 := snd (作用域管理器.define_symbol heap 符号 m1) in
  let m3 := snd (作用域管理器.exit_scope m2) in
  fst (作用域管理器.define_symbol heap 符号 m1) = true
  /\ 作用域管理器.lookup_symbol 名 m2 = Some 符号
  /\ (forall other, other <> 名 ->
        作用域管理器.lookup_symbol other m2 = 作用域管理器.lookup_symbol other m)
  /\ 作用域管理器.作用域栈 m3 = 作用域管理器.作用域栈 m
  /\ (forall n, 作用域管理器.lookup_symbol n m3 = 作用域管理器.lookup_symbol n m).
Proof.
  intros 名 m1 m2 m3. subst 名 m1 m2 m3.
  unfold 作用域管理器.enter_scope, 作用域管理器.define_symbol,
    作用域管理器.lookup_symbol, 作用域管理器.exit_scope, 符号表.define, 字典含.
  simpl. unfold 符号表.lookup. simpl.
  rewrite (proj2 (名称相同_true _ _) eq_refl).
  repeat split.
  intros other H. rewrite (proj2 (名称相同_false _ _) H). reflexivity.
Qed.

Lemma 全局作用域_执行一步 (m : 作用域管理器.t) (op : 操作) (g : nat) :
  作用域管理器.全局作用域 m = Some g ->
  作用域管理器.全局作用域 (执行一步 m op) = Some g.
Proof.
  intros H. destruct op as [名称| |heap 符号]; simpl.
  - rewrite H. reflexivity.
  - unfold 作用域管理器.exit_scope.
    destruct (作用域管理器.作用域栈 m); simpl; exact H.
  - unfold 作用域管理器.define_symbol.
    destruct (作用域管理器.作用域栈 m) as [|current rest]; simpl; [exact H|].
    destruct (符号表.define heap current 符号). simpl. exact H.
Qed.

(** X17: [全局作用域] is set by the first [enter_scope] and never again,
    whatever is entered, left or defined afterwards.  So after the global
    scope has been left, a scope entered next is alone on the stack
    ([is_global_scope] answers true) without being the one [全局作用域]
    refers to. *)
Theorem global_scope_is_set_once :
  (forall (ops : list 操作) (m : 作用域管理器.t) (g : nat),
     作用域管理器.全局作用域 m = Some g ->
     作用域管理器.全局作用域 (执行 ops m) = Some g)
  /\ (forall a b : list 片段,
        let m := 执行 [进入 a; 退出; 进入 b] 作用域管理器.init in
        作用域管理器.is_global_scope m = true
        /\ 作用域管理器.全局作用域 m = Some 0
        /\ option_map 符号表.编号 (作用域管理器.current_scope m) = Some 1).
Proof.
  split.
  - intros ops. induction ops as [|op ops IH]; intros m g H; simpl; [exact H|].
    apply IH, 全局作用域_执行一步, H.
  - intros a b. repeat split.
Qed.

Lemma global_scope_is_set_once_witness :
  作用域管理器.全局作用域
    (执行 [退出; 退出; 进入 [文 "块"]]
       (作用域管理器.enter_scope [文 "全局"] 作用域管理器.init))
  = Some 0.
Proof.
  apply (proj1 global_scope_is_set_once). reflexivity.
Defined.

(** ** More of the analyzer *)

Lemma 错误只增_refl (s : 语义分析器.t) : 错误只增 s s.
Proof. exists []. rewrite app_nil_r. reflexivity. Qed.

Lemma 错误只增_trans (a b c : 语义分析器.t) :
  错误只增 a b -> 错误只增 b c -> 错误只增 a c.
Proof.
  intros (l1 & H1) (l2 & H2). exists (l1 ++ l2)%list.
  rewrite H2, H1, app_assoc. reflexivity.
Qed.

Lemma 只增_bind {A B : Type} (m : 语义分析器.M A) (k : A -> 语义分析器.M B) :
  只增 m -> (forall a, 只增 (k a)) -> 只增 (语义分析器.bind m k).
Proof.
  intros Hm Hk self b self' H.
  apply bind_Some in H. destruct H as (a & s1 & H1 & H2).
  eapply 错误只增_trans; [eapply Hm | eapply Hk]; eassumption.
Qed.

Lemma 只增_ret {A : Type} (a : A) : 只增 (语义分析器.ret a).
Proof. intros self b self' H. injection H as _ <-. apply 错误只增_refl. Qed.

Lemma 只增_out_of_fuel {A : Type} : 只增 (@语义分析器.out_of_fuel A).
Proof. intros self b self' H. discriminate H. Qed.

Lemma 只增_error (message : list 片段) (l c : Z) : 只增 (语义分析器.error message l c).
Proof. intros self a self' H. injection H as _ <-. eexists. reflexivity. Qed.

(** A computation that leaves the diagnostics alone. *)
Lemma 只增_same {A : Type} (m : 语义分析器.M A) :
  (forall self a self', m self = Some (a, self') ->
     语义分析器.错误列表 self' = 语义分析器.错误列表 self) ->
  只增 m.
Proof.
  intros Hm self a self' H. exists []. rewrite (Hm _ _ _ H), app_nil_r. reflexivity.
Qed.

Ltac 同错 :=
  apply 只增_same; intros self x self' H;
  first
    [ injection H as _ <-; reflexivity
    | unfold 语义分析器.exit_scope, 语义分析器.define_symbol, 语义分析器.兼容,
        语义分析器.check_assignment in H;
      repeat match type of H with
             | context [match ?t with _ => _ end] => destruct t
             end;
      try discriminate H; injection H as _ <-; reflexivity ].

Lemma 只增_新符号 (s : 符号) : 只增 (语义分析器.新符号 s).
Proof. 同错. Qed.

Lemma 只增_读符号 (a : nat) : 只增 (语义分析器.读符号 a).
Proof. 同错. Qed.

Lemma 只增_改符号 (a : nat) (f : 符号 -> 符号) : 只增 (语义分析器.改符号 a f).
Proof. 同错. Qed.

Lemma 只增_新函数类型 (o : 函数类型对象) : 只增 (语义分析器.新函数类型 o).
Proof. 同错. Qed.

Lemma 只增_读函数类型 (a : nat) : 只增 (语义分析器.读函数类型 a).
Proof. 同错. Qed.

Lemma 只增_设返回类型 (a : nat) (r : 类型) : 只增 (语义分析器.设返回类型 a r).
Proof. 同错. Qed.

Lemma 只增_设当前函数返回类型 (r : option 类型) :
  只增 (语义分析器.设当前函数返回类型 r).
Proof. 同错. Qed.

Lemma 只增_取当前函数返回类型 : 只增 语义分析器.取当前函数返回类型.
Proof. 同错. Qed.

Lemma 只增_lookup_symbol (n : Value) : 只增 (语义分析器.lookup_symbol n).
Proof. 同错. Qed.

Lemma 只增_lookup_symbol_current_scope (n : Value) :
  只增 (语义分析器.lookup_symbol_current_scope n).
Proof. 同错. Qed.

Lemma 只增_enter_scope (n : list 片段) : 只增 (语义分析器.enter_scope n).
Proof. 同错. Qed.

Lemma 只增_exit_scope : 只增 语义分析器.exit_scope.
Proof. 同错. Qed.

Lemma 只增_define_symbol (符号 : nat) : 只增 (语义分析器.define_symbol 符号).
Proof. 同错. Qed.

Lemma 只增_兼容 (fuel : nat) (a b : 类型) : 只增 (语义分析器.兼容 fuel a b).
Proof. 同错. Qed.

Lemma 只增_check_assignment (fuel : nat) (a b : 类型) :
  只增 (语义分析器.check_assignment fuel a b).
Proof. 同错. Qed.

Lemma 只增_当_ (b : bool) (m : 语义分析器.M unit) :
  只增 m -> 只增 (语义分析器.当_ b m).
Proof. intros H. destruct b; simpl; [exact H | apply 只增_ret]. Qed.

Lemma 只增_逐个 {A B : Type} (f : A -> 语义分析器.M B) (l : list A) :
  (forall x, 只增 (f x)) -> 只增 (语义分析器.逐个 f l).
Proof.
  intros Hf. induction l as [|x l IH]; simpl.
  - apply 只增_ret.
  - apply 只增_bind; [apply Hf|]. intros r.
    apply 只增_bind; [exact IH|]. intros rs. apply 只增_ret.
Qed.

Ltac 只增_step IH :=
  first
    [ apply 只增_ret
    | apply 只增_out_of_fuel
    | apply 只增_error
    | apply 只增_新符号
    | apply 只增_读符号
    | apply 只增_改符号
    | apply 只增_新函数类型
    | apply 只增_读函数类型
    | apply 只增_设返回类型
    | apply 只增_设当前函数返回类型
    | apply 只增_取当前函数返回类型
    | apply 只增_lookup_symbol
    | apply 只增_lookup_symbol_current_scope
    | apply 只增_enter_scope
    | apply 只增_exit_scope
    | apply 只增_兼容
    | apply 只增_check_assignment
    | apply 只增_define_symbol
    | apply IH
    | apply 只增_当_
    | (apply 只增_逐个; intros ?)
    | (apply 只增_bind; [|intros ?])
    | match goal with
      | |- 只增 (match ?x with _ => _ end) => destruct x
      end ].

Lemma 只增_visit_表达式 (fuel : nat) :
  forall node, 只增 (语义分析器.visit_表达式 fuel node).
Proof.
  induction fuel as [|fuel IH]; intros node.
  - apply 只增_out_of_fuel.
  - destruct node; simpl; repeat 只增_step IH.
Qed.

Lemma 只增_定义参数 (参数列表 : list Value) :
  forall i l c, 只增 (语义分析器.定义参数 i 参数列表 l c).
Proof.
  induction 参数列表 as [|p ps IH]; intros i l c; simpl; repeat 只增_step IH.
Qed.

Lemma 只增_visit_语句 (fuel : nat) :
  forall node, 只增 (语义分析器.visit_语句 fuel node).
Proof.
  induction fuel as [|fuel IH]; intros node.
  - apply 只增_out_of_fuel.
  - destruct node; simpl;
      repeat first [apply 只增_visit_表达式 | apply 只增_定义参数 | 只增_step IH].
Qed.

(** X18: a visit only appends diagnostics: the diagnostics recorded before
    the visit of an expression or of a statement are still there afterwards,
    in the same order, at the front of the list; and what [analyze] returns
    is the list of the final state. *)
Theorem diagnostics_are_only_appended :
  (forall fuel node self r self',
     语义分析器.visit_表达式 fuel node self = Some (r, self') ->
     exists added,
       语义分析器.错误列表 self' = (语义分析器.错误列表 self ++ added)%list)
  /\ (forall fuel node self r self',
        语义分析器.visit_语句 fuel node self = Some (r, self') ->
        exists added,
          语义分析器.错误列表 self' = (语义分析器.错误列表 self ++ added)%list)
  /\ (forall fuel ast self errors self',
        语义分析器.analyze fuel ast self = Some (errors, self') ->
        errors = 语义分析器.错误列表 self').
Proof.
  split; [|split].
  - intros fuel node self r self' H. exact (只增_visit_表达式 fuel node _ _ _ H).
  - intros fuel node self r self' H. exact (只增_visit_语句 fuel node _ _ _ H).
  - intros fuel ast self errors self' H. unfold 语义分析器.analyze in H.
    destruct (语义分析器.visit_程序 fuel ast _) as [[r s]|]; [|discriminate].
    injection H as <- <-. reflexivity.
Qed.

Lemma diagnostics_are_only_appended_witness :
  exists added,
    语义分析器.错误列表
      (snd (match 语义分析器.visit_表达式 2
                    (标识符表达式 (VStr "y") 1 1)
                    (语义分析器.mk 作用域管理器.init
                       [语义错误.mk [文 "旧"] 0 0] None false [] [])
            with
            | Some x => x
            | None => (mk分析结果 类型系统.未知类型 false, 语义分析器.空)
            end))
    = ([语义错误.mk [文 "旧"] 0 0] ++ added)%list.
Proof.
  apply (proj1 diagnostics_are_only_appended 2 (标识符表达式 (VStr "y") 1 1)
           (语义分析器.mk 作用域管理器.init [语义错误.mk [文 "旧"] 0 0] None false [] [])
           (mk分析结果 类型系统.未知类型 true)).
  reflexivity.
Defined.

Lemma lookup_in_None_head (top : 符号表.t) (rest : list 符号表.t) (名 : Value) :
  作用域管理器.lookup_in (top :: rest) 名 = None ->
  字典取 (符号表.符号映射 top) 名 = None.
Proof.
  simpl. unfold 符号表.lookup.
  destruct (字典取 (符号表.符号映射 top) 名); [discriminate | reflexivity].
Qed.

Lemma 取符号_new (heap : 符号堆) (s : 符号) :
  取符号 (heap ++ [s])%list (List.length heap) = s.
Proof. unfold 取符号. apply nth_middle. Qed.

(** X19: an assignment to a name that no scope defines declares it, in the
    innermost scope: it reports nothing, leaves the outer scopes as they
    are, and the innermost scope then holds an initialised variable of that
    name whose type is the type of the assigned value and whose position
    is that of the assignment. *)
Theorem assignment_declares_in_current_scope
    (fuel : nat) (name : Value) (value : 表达式) (l c l' c' : Z)
    (self s1 : 语义分析器.t) (value_result : 分析结果)
    (top : 符号表.t) (rest : list 符号表.t) :
  语义分析器.visit_表达式 fuel value self = Some (value_result, s1) ->
  作用域管理器.作用域栈 (语义分析器.作用域管理器_ s1) = top :: rest ->
  作用域管理器.lookup_symbol name (语义分析器.作用域管理器_ s1) = None ->
  exists self' top' a,
    语义分析器.visit_表达式 (S fuel)
      (赋值表达式 (标识符表达式 name l' c') value l c) self
    = Some (mk分析结果 (结果类型 value_result) false, self')
    /\ 语义分析器.错误列表 self' = 语义分析器.错误列表 s1
    /\ 作用域管理器.作用域栈 (语义分析器.作用域管理器_ self') = top' :: rest
    /\ 符号表.lookup top' name = Some a
    /\ (forall other, other <> name ->
          符号表.lookup top' other = 符号表.lookup top other)
    /\ 取符号 (语义分析器.符号们 self') a
       = 变量符号 name (结果类型 value_result) l c true.
Proof.
  intros Hv Hs Hl.
  unfold 作用域管理器.lookup_symbol in Hl. rewrite Hs in Hl.
  pose proof (lookup_in_None_head _ _ _ Hl) as Htop.
  simpl. unfold 语义分析器.bind at 1. rewrite Hv.
  unfold 语义分析器.bind at 1. unfold 语义分析器.lookup_symbol at 1.
  unfold 作用域管理器.lookup_symbol. rewrite Hs, Hl.
  unfold 语义分析器.bind, 语义分析器.新符号, 语义分析器.define_symbol,
    作用域管理器.define_symbol, 语义分析器.ret. simpl.
  rewrite Hs. unfold 符号表.define. rewrite 取符号_new. simpl.
  unfold 字典含. rewrite Htop. simpl.
  eexists _, _, _. split; [reflexivity|]. simpl.
  rewrite (字典存_absent _ _ _ Htop).
  repeat split.
  - unfold 符号表.lookup. simpl. apply 字典取_app_new. exact Htop.
  - intros other H. unfold 符号表.lookup. simpl. apply 字典取_app_other. exact H.
  - apply 取符号_new.
Qed.

Lemma assignment_declares_in_current_scope_witness :
  exists self' top' a,
    语义分析器.visit_表达式 2
      (赋值表达式 (标识符表达式 (VStr "x") 1 1)
         (字面量表达式 (Token.mk TokenType.整数 (VInt 42) 1 5)) 1 3)
      语义分析器.init
    = Some (mk分析结果 类型系统.整数类型 false, self')
    /\ 语义分析器.错误列表 self' = []
    /\ 作用域管理器.作用域栈 (语义分析器.作用域管理器_ self') = [top']
    /\ 符号表.lookup top' (VStr "x") = Some a
    /\ (forall other, other <> VStr "x" ->
          符号表.lookup top' other
          = 符号表.lookup
              (hd (符号表.mk 0 [] [])
                 (作用域管理器.作用域栈 (语义分析器.作用域管理器_ 语义分析器.init)))
              other)
    /\ 取符号 (语义分析器.符号们 self') a
       = 变量符号 (VStr "x") 类型系统.整数类型 1 3 true.
Proof.
  apply (assignment_declares_in_current_scope 1 (VStr "x")
           (字面量表达式 (Token.mk TokenType.整数 (VInt 42) 1 5)) 1 3 1 1
           语义分析器.init 语义分析器.init
           (mk分析结果 类型系统.整数类型 false)
           (hd (符号表.mk 0 [] [])
              (作用域管理器.作用域栈 (语义分析器.作用域管理器_ 语义分析器.init)))
           []);
    reflexivity.
Defined.

(** ** More of the scanner *)

Ltac 分支 :=
  repeat match goal with
         | |- context [if ?b then _ else _] => destruct b
         end;
  try reflexivity; try exact I.

Lemma 词_read_number (fuel : nat) (self : Lexer.t) :
  若返回 (Lexer.read_number fuel self) (fun token => 词合规 token = true).
Proof.
  unfold Lexer.read_number, Lexer.bind.
  destruct (Lexer.read_number_loop fuel self "" false) as [[number_str has_dot] s| |];
    try exact I.
  destruct (endswith number_str DOT); [destruct (py_int _); reflexivity|].
  destruct has_dot; [destruct (py_float _) | destruct (py_int _)]; reflexivity.
Qed.

Lemma 词_read_string (fuel : nat) (self : Lexer.t) :
  若返回 (Lexer.read_string fuel self) (fun token => 词合规 token = true).
Proof.
  unfold Lexer.read_string, Lexer.bind.
  destruct (Lexer.read_string_loop _ _ _ _) as [string_value s| |]; try exact I.
  destruct (Lexer.current_char s), (Lexer.current_char self); 分支.
Qed.

Lemma 词_read_identifier (fuel : nat) (self : Lexer.t) :
  若返回 (Lexer.read_identifier fuel self) (fun token => 词合规 token = true).
Proof.
  unfold Lexer.read_identifier, Lexer.bind.
  destruct (Lexer.read_identifier_loop fuel self "") as [identifier s| |];
    try exact I.
  unfold KEYWORDS. cbn [dict_get].
  repeat match goal with
         | |- context [String.eqb identifier ?k] => destruct (String.eqb identifier k)
         end; reflexivity.
Qed.

Lemma 词_next_token (fuel : nat) :
  forall self,
    若返回 (Lexer.next_token fuel self) (fun token => 词合规 token = true).
Proof.
  induction fuel as [|fuel IH]; intros self; [exact I|].
  cbn [Lexer.next_token].
  destruct (Lexer.current_char self) as [c|]; [|reflexivity].
  destruct (isspace c && negb (Ascii.eqb c NEWLINE)).
  { unfold Lexer.bind. destruct (Lexer.skip_whitespace fuel self); try exact I.
    apply IH. }
  destruct (Ascii.eqb c NEWLINE); [reflexivity|].
  destruct (isdigit c); [apply 词_read_number|].
  destruct (Ascii.eqb c DQUOTE || Ascii.eqb c SQUOTE); [apply 词_read_string|].
  destruct (isalpha c || Ascii.eqb c "_"); [apply 词_read_identifier|].
  destruct (Ascii.eqb c "/" && Lexer.is_char (Lexer.peek self 1) "/").
  { unfold Lexer.bind. destruct (Lexer.skip_line_comment fuel self); try exact I.
    apply IH. }
  unfold Lexer.double_char_tokens, Lexer.single_char_tokens.
  cbn [Lexer.double_get Lexer.char_get]. 分支.
Qed.

Lemma 词_tokenize_loop (fuel : nat) :
  forall self tokens,
    Forall (fun t => 词合规 t = true) tokens ->
    若返回 (Lexer.tokenize_loop fuel self tokens)
      (Forall (fun t => 词合规 t = true)).
Proof.
  induction fuel as [|fuel IH]; intros self tokens Hall; [exact I|].
  cbn [Lexer.tokenize_loop]. unfold Lexer.bind.
  pose proof (词_next_token fuel self) as Ht.
  destruct (Lexer.next_token fuel self) as [token s| |]; try exact I.
  simpl in Ht.
  assert (Hall' : Forall (fun t => 词合规 t = true) (tokens ++ [token])).
  { apply Forall_app. split; [exact Hall | constructor; [exact Ht | constructor]]. }
  destruct (TokenType.eqb (Token.类型 token) TokenType.文件结束);
    [exact Hall' | apply IH, Hall'].
Qed.

(** X20: every token that [tokenize] returns carries a payload of the type
    its kind announces ([int], [float], [bool] or [None], [None] for the
    end of the input, [str] otherwise), and none has the kind [真], [假] or
    [空]: the words [true], [false] and [null] become tokens of kind
    [布尔值]. *)
Theorem tokens_are_well_typed (source_code : string) (fuel : nat) :
  String.length source_code + 3 <= fuel ->
  match Lexer.tokenize fuel (Lexer.init source_code) with
  | Lexer.Ret tokens _ => Forall (fun t => 词合规 t = true) tokens
  | Lexer.Raise _ => True
  | Lexer.OutOfFuel => False
  end.
Proof.
  intros Hfuel.
  pose proof (后_tokenize_loop fuel (Lexer.init source_code) []
                (良构_init source_code)) as H.
  rewrite 文长_init in H. specialize (H ltac:(lia)).
  pose proof (词_tokenize_loop fuel (Lexer.init source_code) [] (Forall_nil _)) as G.
  unfold Lexer.tokenize.
  destruct (Lexer.tokenize_loop fuel (Lexer.init source_code) []);
    simpl in H, G; auto.
Qed.

Lemma tokens_are_well_typed_witness :
  match Lexer.tokenize 19 (Lexer.init "x = null + 1.5;") with
  | Lexer.Ret tokens _ => Forall (fun t => 词合规 t = true) tokens
  | Lexer.Raise _ => True
  | Lexer.OutOfFuel => False
  end.
Proof. apply (tokens_are_well_typed "x = null + 1.5;" 19). simpl. lia. Defined.

Lemma list_loop_tokenize_loop (fuel : nat) :
  forall self tokens,
    Lexer.list_loop fuel self tokens
    = match Lexer.tokenize_loop fuel self tokens with
      | Lexer.Ret r s => Lexer.Ret (removelast r) s
      | Lexer.Raise e => Lexer.Raise e
      | Lexer.OutOfFuel => Lexer.OutOfFuel
      end.
Proof.
  induction fuel as [|fuel IH]; intros self tokens; [reflexivity|].
  cbn [Lexer.list_loop Lexer.tokenize_loop]. unfold Lexer.next_, Lexer.bind.
  destruct (Lexer.next_token fuel self) as [token s| |]; try reflexivity.
  destruct (TokenType.eqb (Token.类型 token) TokenType.文件结束).
  - rewrite removelast_last. reflexivity.
  - apply IH.
Qed.

(** X21: iterating over the scanner gives the tokens of [tokenize] without
    the final end-of-input token, and fails when [tokenize] fails. *)
Theorem iteration_is_tokenize_without_eof (fuel : nat) (self : Lexer.t) :
  Lexer.list_ fuel self
  = match Lexer.tokenize fuel self with
    | Lexer.Ret tokens s => Lexer.Ret (removelast tokens) s
    | Lexer.Raise e => Lexer.Raise e
    | Lexer.OutOfFuel => Lexer.OutOfFuel
    end.
Proof. apply list_loop_tokenize_loop. Qed.

Lemma isdigit_dispatch (c : ascii) :
  isdigit c = true -> isspace c = false /\ Ascii.eqb c NEWLINE = false.
Proof.
  intros H. destruct c as [[] [] [] [] [] [] [] []];
    vm_compute in H |- *; first [discriminate H | split; reflexivity].
Qed.

Lemma drop_last_cons (c : ascii) (s : string) :
  s <> EmptyString -> drop_last (String c s) = String c (drop_last s).
Proof. destruct s; [contradiction | reflexivity]. Qed.

Lemma py_int_non_decimal (c : ascii) (s : string) :
  isdecimal c = false -> py_int (String c s) = None.
Proof. intros H. unfold py_int. simpl. rewrite H. reflexivity. Qed.

Lemma py_float_non_decimal (c : ascii) (s : string) :
  isdecimal c = false -> Ascii.eqb c DOT = false -> py_float (String c s) = None.
Proof. intros H1 H2. unfold py_float. simpl. rewrite H1, H2. reflexivity. Qed.

Lemma read_number_ValueError (self : Lexer.t) (c : ascii) (fuel : nat) :
  良构 self -> Lexer.current_char self = Some c ->
  isdigit c = true -> isdecimal c = false ->
  文长 self <= fuel ->
  Lexer.read_number (S fuel) self = Lexer.Raise Lexer.ValueError.
Proof.
  intros Hwf Hc Hd Hdec Hfuel.
  pose proof (isdigit_not_dot c Hd) as Hdot.
  destruct (文长_advance self c Hwf Hc) as (Hwf' & _ & Hlen & _).
  pose proof (后_read_number_loop fuel (Lexer.advance self) (str1 c) false Hwf'
                ltac:(lia)) as H.
  unfold Lexer.read_number. cbn [Lexer.read_number_loop].
  rewrite Hc, Hd, Hdot. cbn [orb andb]. change ("" ++ str1 c)%string with (str1 c).
  destruct (Lexer.read_number_loop fuel (Lexer.advance self) (str1 c) false)
    as [[number_str has_dot] s| |]; simpl in H; [|contradiction|contradiction].
  destruct H as (_ & _ & added & -> & _). cbn [Lexer.bind].
  change (str1 c ++ added)%string with (String c added).
  destruct (endswith (String c added) DOT) eqn:E.
  - rewrite drop_last_cons.
    + rewrite py_int_non_decimal by exact Hdec. reflexivity.
    + intros ->. simpl in E. congruence.
  - destruct has_dot.
    + rewrite py_float_non_decimal by assumption. reflexivity.
    + rewrite py_int_non_decimal by exact Hdec. reflexivity.
Qed.

Lemma next_token_ValueError (self : Lexer.t) (c : ascii) (fuel : nat) :
  良构 self -> Lexer.current_char self = Some c ->
  isdigit c = true -> isdecimal c = false ->
  文长 self <= fuel ->
  Lexer.next_token (S (S fuel)) self = Lexer.Raise Lexer.ValueError.
Proof.
  intros Hwf Hc Hd Hdec Hfuel.
  destruct (isdigit_dispatch c Hd) as (Hs & Hn).
  remember (S fuel) as n eqn:En.
  cbn [Lexer.next_token]. rewrite Hc, Hs, Hn, Hd. cbn [andb]. subst n.
  apply (read_number_ValueError self c fuel); assumption.
Qed.

(** X22: a number that starts with a character which [str.isdigit] accepts
    and [int] does not (a superscript digit) makes [tokenize] raise
    [ValueError], not [LexerError]. *)
Theorem non_decimal_digit_raises_ValueError
    (c : ascii) (rest : string) (fuel : nat) :
  isdigit c = true -> isdecimal c = false ->
  String.length rest + 4 <= fuel ->
  Lexer.tokenize fuel (Lexer.init (String c rest)) = Lexer.Raise Lexer.ValueError.
Proof.
  intros Hd Hdec Hfuel.
  destruct fuel as [|[|[|fuel]]]; try lia.
  unfold Lexer.tokenize. cbn [Lexer.tokenize_loop].
  rewrite (next_token_ValueError (Lexer.init (String c rest)) c fuel
             (良构_init _) eq_refl Hd Hdec).
  - reflexivity.
  - rewrite 文长_init. simpl. lia.
Qed.

Lemma non_decimal_digit_raises_ValueError_witness :
  Lexer.tokenize 6 (Lexer.init (String (ascii_of_nat 178) "+1"))
  = Lexer.Raise Lexer.ValueError.
Proof.
  apply (non_decimal_digit_raises_ValueError (ascii_of_nat 178) "+1" 6);
    first [reflexivity | simpl; lia].
Defined.

(** ** Token classes, assignment, result types *)

(** X23: the three classes of [Token] are disjoint, and [is_keyword] holds
    exactly of the kinds that the table [KEYWORDS] gives to some word. *)
Theorem token_classes (t : Token.t) :
  Token.is_literal t && Token.is_operator t = false
  /\ Token.is_literal t && Token.is_keyword t = false
  /\ Token.is_operator t && Token.is_keyword t = false
  /\ (Token.is_keyword t = true
      <-> exists word, dict_get KEYWORDS word = Some (Token.类型 t)).
Proof.
  destruct t as [k v l c].
  unfold Token.is_literal, Token.is_operator, Token.is_keyword. simpl.
  destruct k; (split; [reflexivity | split; [reflexivity | split; [reflexivity|]]]);
    (split;
     [ intros H;
       first [ discriminate H
             | exists "func"; reflexivity | exists "return"; reflexivity
             | exists "if"; reflexivity | exists "else"; reflexivity
             | exists "while"; reflexivity | exists "for"; reflexivity
             | exists "true"; reflexivity | exists "false"; reflexivity
             | exists "null"; reflexivity ]
     | intros [w H];
       first [ reflexivity
             | unfold KEYWORDS in H; cbn [dict_get] in H;
               repeat match type of H with
                      | context [String.eqb w ?x] =>
                        destruct (String.eqb w x); [discriminate H|]
                      end;
               discriminate H ] ]).
Qed.

(** X24: an assignment binds weaker than every binary operator and groups
    to the right, and its target may be any expression: in
    [x = a o b = c ;] the value assigned to [x] is the assignment of [c]
    to the expression [a o b]. *)
Theorem assignment_groups_right
    (op : TokenType.t) (x : string) (a b c : Z) (v : Value)
    (l1 c1 l2 c2 l3 c3 l4 c4 l5 c5 l6 c6 l7 c7 l8 c8 l9 c9 : Z) (fuel : nat) :
  运算符优先级.is_二元运算符 op = true ->
  运算符优先级.is_右结合 op = false ->
  124 <= fuel ->
  let ta := Token.mk TokenType.整数 (VInt a) l3 c3 in
  let to := Token.mk op v l4 c4 in
  let tb := Token.mk TokenType.整数 (VInt b) l5 c5 in
  let tc := Token.mk TokenType.整数 (VInt c) l7 c7 in
  Parser.parse
    [Token.mk TokenType.标识符 (VStr x) l1 c1;
     Token.mk TokenType.赋值 (VStr "=") l2 c2;
     ta; to; tb;
     Token.mk TokenType.赋值 (VStr "=") l6 c6;
     tc;
     Token.mk TokenType.分号 (VStr ";") l8 c8;
     Token.mk TokenType.文件结束 VNone l9 c9] fuel
  = Parser.Ret
      (程序_
         [表达式语句
            (赋值表达式 (标识符表达式 (VStr x) l1 c1)
               (赋值表达式
                  (二元运算表达式 (字面量表达式 ta) to (字面量表达式 tb))
                  (字面量表达式 tc) l6 c6)
               l2 c2)])
      8.
Proof.
  intros B R Hfuel ta to tb tc.
  apply (parse_at_fuel _ 124 fuel); [exact Hfuel|].
  subst ta to tb tc.
  destruct op; try discriminate B; try discriminate R; vm_compute; reflexivity.
Qed.

Lemma assignment_groups_right_witness :
  Parser.parse
    [Token.mk TokenType.标识符 (VStr "x") 1 1;
     Token.mk TokenType.赋值 (VStr "=") 1 3;
     Token.mk TokenType.整数 (VInt 1) 1 5; Token.mk TokenType.加 (VStr "+") 1 7;
     Token.mk TokenType.整数 (VInt 2) 1 9;
     Token.mk TokenType.赋值 (VStr "=") 1 11;
     Token.mk TokenType.整数 (VInt 3) 1 13;
     Token.mk TokenType.分号 (VStr ";") 1 14;
     Token.mk TokenType.文件结束 VNone 1 15] 124
  = Parser.Ret
      (程序_
         [表达式语句
            (赋值表达式 (标识符表达式 (VStr "x") 1 1)
               (赋值表达式
                  (二元运算表达式
                     (字面量表达式 (Token.mk TokenType.整数 (VInt 1) 1 5))
                     (Token.mk TokenType.加 (VStr "+") 1 7)
                     (字面量表达式 (Token.mk TokenType.整数 (VInt 2) 1 9)))
                  (字面量表达式 (Token.mk TokenType.整数 (VInt 3) 1 13)) 1 11)
               1 3)])
      8.
Proof.
  apply (assignment_groups_right TokenType.加 "x" 1 2 3 (VStr "+")
           1 1 1 3 1 5 1 7 1 9 1 11 1 13 1 14 1 15 124);
    first [reflexivity | lia].
Defined.

(** X25: a binary operation that type-checks has primitive operands, and
    its type is the integer, float, string, boolean or unknown type, never
    the void type or a function type; for a comparison or a logical
    operator it is the boolean type. *)
Theorem binary_result_types
    (left right result : 类型) (operator : TokenType.t) :
  类型系统.check_binary_operation left operator right = Some result ->
  (exists l r, left = 基本类型 l /\ right = 基本类型 r)
  /\ In result [类型系统.整数类型; 类型系统.浮点数类型; 类型系统.字符串类型;
                类型系统.布尔值类型; 类型系统.未知类型]
  /\ (TokenType.mem operator
        [TokenType.等于; TokenType.不等于; TokenType.小于; TokenType.大于;
         TokenType.小于等于; TokenType.大于等于; TokenType.与; TokenType.或] = true ->
      result = 类型系统.布尔值类型).
Proof.
  intros H.
  destruct operator; try discriminate H;
    destruct left as [l|la]; try discriminate H;
    destruct right as [r|ra]; try discriminate H;
    (split; [eexists _, _; split; reflexivity|]);
    destruct l, r; try discriminate H;
    injection H as <-; (split; [simpl; tauto | intros G; first [reflexivity | discriminate G]]).
Qed.

Lemma binary_result_types_witness :
  (exists l r, 类型系统.整数类型 = 基本类型 l /\ 类型系统.浮点数类型 = 基本类型 r)
  /\ In 类型系统.浮点数类型
        [类型系统.整数类型; 类型系统.浮点数类型; 类型系统.字符串类型;
         类型系统.布尔值类型; 类型系统.未知类型]
  /\ (TokenType.mem TokenType.乘
        [TokenType.等于; TokenType.不等于; TokenType.小于; TokenType.大于;
         TokenType.小于等于; TokenType.大于等于; TokenType.与; TokenType.或] = true ->
      类型系统.浮点数类型 = 类型系统.布尔值类型).
Proof.
  apply (binary_result_types 类型系统.整数类型 类型系统.浮点数类型
           类型系统.浮点数类型 TokenType.乘).
  reflexivity.
Defined.

(** ** The return-type context of the analyzer *)

Lemma 返回类型不变_bind {A B : Type} (m : 语义分析器.M A) (k : A -> 语义分析器.M B) :
  返回类型不变 m -> (forall a, 返回类型不变 (k a)) ->
  返回类型不变 (语义分析器.bind m k).
Proof.
  intros Hm Hk self b self' H.
  apply bind_Some in H. destruct H as (a & s1 & H1 & H2).
  rewrite (Hk _ _ _ _ H2). exact (Hm _ _ _ H1).
Qed.

Lemma 返回类型不变_ret {A : Type} (a : A) : 返回类型不变 (语义分析器.ret a).
Proof. intros self b self' H. injection H as _ <-. reflexivity. Qed.

Ltac 不变 :=
  intros self x self' H;
  first
    [ injection H as _ <-; reflexivity
    | unfold 语义分析器.exit_scope, 语义分析器.define_symbol in H;
      repeat match type of H with
             | context [match ?t with _ => _ end] => destruct t
             end;
      try discriminate H; injection H as _ <-; reflexivity ].

Lemma 返回类型不变_error (message : list 片段) (l c : Z) :
  返回类型不变 (语义分析器.error message l c).
Proof. 不变. Qed.

Lemma 返回类型不变_新符号 (s : 符号) : 返回类型不变 (语义分析器.新符号 s).
Proof. 不变. Qed.

Lemma 返回类型不变_新函数类型 (o : 函数类型对象) :
  返回类型不变 (语义分析器.新函数类型 o).
Proof. 不变. Qed.

Lemma 返回类型不变_改符号 (a : nat) (f : 符号 -> 符号) :
  返回类型不变 (语义分析器.改符号 a f).
Proof. 不变. Qed.

Lemma 返回类型不变_设返回类型 (a : nat) (r : 类型) :
  返回类型不变 (语义分析器.设返回类型 a r).
Proof. 不变. Qed.

Lemma 返回类型不变_lookup_symbol_current_scope (n : Value) :
  返回类型不变 (语义分析器.lookup_symbol_current_scope n).
Proof. 不变. Qed.

Lemma 返回类型不变_enter_scope (n : list 片段) :
  返回类型不变 (语义分析器.enter_scope n).
Proof. 不变. Qed.

Lemma 返回类型不变_exit_scope : 返回类型不变 语义分析器.exit_scope.
Proof. 不变. Qed.

Lemma 返回类型不变_define_symbol (符号 : nat) :
  返回类型不变 (语义分析器.define_symbol 符号).
Proof. 不变. Qed.

Lemma 返回类型不变_定义参数 (参数列表 : list Value) :
  forall i l c, 返回类型不变 (语义分析器.定义参数 i 参数列表 l c).
Proof.
  induction 参数列表 as [|p ps IH]; intros i l c; simpl.
  - apply 返回类型不变_ret.
  - apply 返回类型不变_bind; [apply 返回类型不变_新符号|]. intros a.
    apply 返回类型不变_bind; [apply 返回类型不变_define_symbol|]. intros ok.
    apply 返回类型不变_bind; [|intros u; apply IH].
    destruct (negb ok); simpl;
      [apply 返回类型不变_error | apply 返回类型不变_ret].
Qed.

(** The part of [visit_函数声明语句] from the saving of the context to the
    end. *)
Lemma 返回类型不变_函数体 {A : Type} (body : 语义分析器.M A)
    (函数类型_obj 函数符号_obj : nat) :
  返回类型不变
    (语义分析器.bind 语义分析器.取当前函数返回类型 (fun old_return_type =>
     语义分析器.bind (语义分析器.设当前函数返回类型 None) (fun _ =>
     语义分析器.bind body (fun _ =>
     语义分析器.bind 语义分析器.取当前函数返回类型 (fun inferred =>
     语义分析器.bind
       (语义分析器.设返回类型 函数类型_obj
          (match inferred with
           | Some r => r
           | None => 类型系统.空值类型
           end)) (fun _ =>
     语义分析器.bind (语义分析器.设当前函数返回类型 old_return_type) (fun _ =>
     语义分析器.bind 语义分析器.exit_scope (fun _ =>
     语义分析器.bind (语义分析器.改符号 函数符号_obj mark_defined) (fun _ =>
     语义分析器.ret (mk分析结果 (函数类型 函数类型_obj) false)))))))))).
Proof.
  intros self r self' H.
  apply bind_Some in H. destruct H as (old & s1 & E1 & H). injection E1 as <- <-.
  apply bind_Some in H. destruct H as (u2 & s2 & E2 & H). clear E2.
  apply bind_Some in H. destruct H as (u3 & s3 & E3 & H). clear E3.
  apply bind_Some in H. destruct H as (inferred & s4 & E4 & H). clear E4.
  apply bind_Some in H. destruct H as (u5 & s5 & E5 & H). clear E5.
  apply bind_Some in H. destruct H as (u6 & s6 & E6 & H). injection E6 as _ <-.
  apply bind_Some in H. destruct H as (u7 & s7 & E7 & H).
  apply bind_Some in H. destruct H as (u8 & s8 & E8 & H).
  injection H as _ <-.
  rewrite (返回类型不变_改符号 _ _ _ _ _ E8), (返回类型不变_exit_scope _ _ _ E7).
  reflexivity.
Qed.

(** X26: the visit of a function declaration leaves the return-type
    context of the analyzer as it found it: the context is saved before the
    body is visited and put back afterwards, so the return statements of a
    nested function do not count for the enclosing one. *)
Theorem function_declaration_restores_return_context
    (fuel : nat) (名称 : Value) (参数列表 : list Value) (函数体 : 语句) (l c : Z)
    (self self' : 语义分析器.t) (r : 分析结果) :
  语义分析器.visit_语句 fuel (函数声明语句 名称 参数列表 函数体 l c) self
  = Some (r, self') ->
  语义分析器.当前函数返回类型 self' = 语义分析器.当前函数返回类型 self.
Proof.
  destruct fuel as [|fuel]; [discriminate|].
  cbn [语义分析器.visit_语句].
  revert self r self'.
  apply 返回类型不变_bind;
    [apply 返回类型不变_lookup_symbol_current_scope|].
  intros [existing|].
  - apply 返回类型不变_bind; [apply 返回类型不变_error|]. intros u.
    apply 返回类型不变_ret.
  - apply 返回类型不变_bind; [apply 返回类型不变_新函数类型|]. intros 函数类型_obj.
    apply 返回类型不变_bind; [apply 返回类型不变_新符号|]. intros 函数符号_obj.
    apply 返回类型不变_bind; [apply 返回类型不变_define_symbol|]. intros ok.
    apply 返回类型不变_bind; [apply 返回类型不变_enter_scope|]. intros u1.
    apply 返回类型不变_bind; [apply 返回类型不变_定义参数|]. intros u2.
    apply 返回类型不变_函数体.
Qed.

Lemma function_declaration_restores_return_context_witness :
  语义分析器.当前函数返回类型
    (snd (match 语义分析器.visit_语句 4
                  (函数声明语句 (VStr "f") []
                     (代码块语句
                        [返回语句
                           (Some (字面量表达式 (Token.mk TokenType.整数 (VInt 1) 1 20)))
                           1 13] 1 10) 1 1)
                  语义分析器.init
          with
          | Some x => x
          | None => (mk分析结果 类型系统.未知类型 false, 语义分析器.空)
          end))
  = 语义分析器.当前函数返回类型 语义分析器.init.
Proof.
  apply (function_declaration_restores_return_context 4 (VStr "f") []
           (代码块语句
              [返回语句
                 (Some (字面量表达式 (Token.mk TokenType.整数 (VInt 1) 1 20)))
                 1 13] 1 10) 1 1
           语义分析器.init
           (snd (match 语义分析器.visit_语句 4
                         (函数声明语句 (VStr "f") []
                            (代码块语句
                               [返回语句
                                  (Some (字面量表达式
                                           (Token.mk TokenType.整数 (VInt 1) 1 20)))
                                  1 13] 1 10) 1 1)
                         语义分析器.init
                 with
                 | Some x => x
                 | None => (mk分析结果 类型系统.未知类型 false, 语义分析器.空)
                 end))
           (mk分析结果 (函数类型 3) false)).
  vm_compute. reflexivity.
Defined.

(** ** Lines and columns *)

Lemma 位置合规_advance (self : Lexer.t) :
  位置合规 self -> 位置合规 (Lexer.advance self).
Proof.
  intros [H1 H2]. unfold 位置合规, Lexer.advance. simpl.
  destruct (Lexer.is_char (Lexer.current_char self) NEWLINE); split; lia.
Qed.

(** Past a character other than a newline the column is at least 2. *)
Lemma column_advance (self : Lexer.t) (c : ascii) :
  位置合规 self -> Lexer.current_char self = Some c -> Ascii.eqb c NEWLINE = false ->
  (2 <= Lexer.column (Lexer.advance self))%Z.
Proof.
  intros [H1 H2] Hc Hn. unfold Lexer.advance. simpl. rewrite Hc. simpl.
  rewrite Hn. lia.
Qed.

Lemma 位置_skip_whitespace (fuel : nat) :
  forall self, 位置合规 self ->
    若返回于 (Lexer.skip_whitespace fuel self) (fun _ s => 位置合规 s).
Proof.
  induction fuel as [|fuel IH]; intros self H; [exact I|].
  cbn [Lexer.skip_whitespace].
  destruct (Lexer.current_char self) as [c|]; [|exact H].
  destruct (isspace c && negb (Ascii.eqb c NEWLINE)); [|exact H].
  apply IH, 位置合规_advance, H.
Qed.

Lemma 位置_skip_to_eol (fuel : nat) :
  forall self, 位置合规 self ->
    若返回于 (Lexer.skip_to_eol fuel self) (fun _ s => 位置合规 s).
Proof.
  induction fuel as [|fuel IH]; intros self H; [exact I|].
  cbn [Lexer.skip_to_eol].
  destruct (Lexer.current_char self) as [c|]; [|exact H].
  destruct (negb (Ascii.eqb c NEWLINE)); [|exact H].
  apply IH, 位置合规_advance, H.
Qed.

Lemma 位置_read_identifier_loop (fuel : nat) :
  forall self identifier, 位置合规 self ->
    若返回于 (Lexer.read_identifier_loop fuel self identifier) (fun _ s => 位置合规 s).
Proof.
  induction fuel as [|fuel IH]; intros self identifier H; [exact I|].
  cbn [Lexer.read_identifier_loop].
  destruct (Lexer.current_char self) as [c|]; [|exact H].
  destruct (isalnum c || Ascii.eqb c "_"); [|exact H].
  apply IH, 位置合规_advance, H.
Qed.

Lemma 位置_read_string_loop (fuel : nat) :
  forall self quote_char string_value, 位置合规 self ->
    若返回于 (Lexer.read_string_loop fuel self quote_char string_value)
      (fun _ s => 位置合规 s).
Proof.
  induction fuel as [|fuel IH]; intros self quote_char string_value H; [exact I|].
  cbn [Lexer.read_string_loop].
  destruct (Lexer.current_char self) as [c|]; [|exact H].
  destruct (negb (Lexer.is_char quote_char c)); [|exact H].
  destruct (Ascii.eqb c BACKSLASH).
  - destruct (Lexer.current_char (Lexer.advance self)); [|exact I].
    apply IH. do 2 apply 位置合规_advance. exact H.
  - apply IH, 位置合规_advance, H.
Qed.

Lemma 位置_read_number_loop (fuel : nat) :
  forall self number_str has_dot,
    位置合规 self ->
    (number_str <> EmptyString -> (2 <= Lexer.column self)%Z) ->
    若返回于 (Lexer.read_number_loop fuel self number_str has_dot)
      (fun r s =>
         位置合规 s /\ (fst r <> EmptyString -> (2 <= Lexer.column s)%Z)).
Proof.
  induction fuel as [|fuel IH]; intros self number_str has_dot H Hc; [exact I|].
  cbn [Lexer.read_number_loop].
  destruct (Lexer.current_char self) as [c|] eqn:Ec; [|split; assumption].
  destruct (isdigit c || Ascii.eqb c DOT) eqn:Ed; [|split; assumption].
  destruct (Ascii.eqb c DOT && has_dot); [split; assumption|].
  apply IH; [apply 位置合规_advance, H|].
  intros _. apply (column_advance self c H Ec).
  destruct (Ascii.eqb c NEWLINE) eqn:En; [|reflexivity].
  apply Ascii.eqb_eq in En. subst c. discriminate Ed.
Qed.

Lemma endswith_nonempty (s : string) (c : ascii) :
  endswith s c = true -> s <> EmptyString.
Proof. intros H ->. discriminate H. Qed.

Lemma 位置_read_number (fuel : nat) (self : Lexer.t) :
  位置合规 self ->
  若返回于 (Lexer.read_number fuel self)
    (fun token s => 词位置合规 token /\ 位置合规 s).
Proof.
  intros H. unfold Lexer.read_number, Lexer.bind.
  pose proof (位置_read_number_loop fuel self "" false H
                ltac:(intros G; contradiction G; reflexivity)) as Hl.
  destruct (Lexer.read_number_loop fuel self "" false)
    as [[number_str has_dot] s| |]; try exact I.
  simpl in Hl. destruct Hl as ([L1 L2] & L3).
  destruct (endswith number_str DOT) eqn:E.
  - specialize (L3 (endswith_nonempty _ _ E)).
    destruct (py_int _); [|exact I]. simpl. split; [exact H|].
    split; simpl; lia.
  - destruct has_dot; [destruct (py_float _) | destruct (py_int _)]; try exact I;
      (split; [exact H | split; assumption]).
Qed.

Lemma 位置_read_string (fuel : nat) (self : Lexer.t) :
  位置合规 self ->
  若返回于 (Lexer.read_string fuel self)
    (fun token s => 词位置合规 token /\ 位置合规 s).
Proof.
  intros H. unfold Lexer.read_string, Lexer.bind.
  pose proof (位置_read_string_loop fuel (Lexer.advance self)
                (Lexer.current_char self) "" (位置合规_advance self H)) as Hl.
  destruct (Lexer.read_string_loop _ _ _ _) as [string_value s| |]; try exact I.
  simpl in Hl.
  destruct (Lexer.current_char s), (Lexer.current_char self);
    try exact I;
    try (destruct (Ascii.eqb _ _); try exact I);
    (split; [exact H | apply 位置合规_advance, Hl]).
Qed.

Lemma 位置_read_identifier (fuel : nat) (self : Lexer.t) :
  位置合规 self ->
  若返回于 (Lexer.read_identifier fuel self)
    (fun token s => 词位置合规 token /\ 位置合规 s).
Proof.
  intros H. unfold Lexer.read_identifier, Lexer.bind.
  pose proof (位置_read_identifier_loop fuel self "" H) as Hl.
  destruct (Lexer.read_identifier_loop fuel self "") as [identifier s| |];
    try exact I.
  simpl in Hl.
  destruct (match dict_get KEYWORDS identifier with
            | Some k => k
            | None => TokenType.标识符
            end); (split; [exact H | exact Hl]).
Qed.

Lemma 位置_next_token (fuel : nat) :
  forall self, 位置合规 self ->
    若返回于 (Lexer.next_token fuel self)
      (fun token s => 词位置合规 token /\ 位置合规 s).
Proof.
  induction fuel as [|fuel IH]; intros self H; [exact I|].
  cbn [Lexer.next_token].
  destruct (Lexer.current_char self) as [c|]; [|split; exact H].
  destruct (isspace c && negb (Ascii.eqb c NEWLINE)).
  { unfold Lexer.bind. pose proof (位置_skip_whitespace fuel self H) as G.
    destruct (Lexer.skip_whitespace fuel self); try exact I. apply IH, G. }
  destruct (Ascii.eqb c NEWLINE);
    [split; [exact H | apply 位置合规_advance, H]|].
  destruct (isdigit c); [apply 位置_read_number, H|].
  destruct (Ascii.eqb c DQUOTE || Ascii.eqb c SQUOTE); [apply 位置_read_string, H|].
  destruct (isalpha c || Ascii.eqb c "_"); [apply 位置_read_identifier, H|].
  destruct (Ascii.eqb c "/" && Lexer.is_char (Lexer.peek self 1) "/").
  { unfold Lexer.bind, Lexer.skip_line_comment.
    pose proof (位置_skip_to_eol fuel (Lexer.advance (Lexer.advance self))
                  (位置合规_advance _ (位置合规_advance _ H))) as G.
    destruct (Lexer.skip_to_eol fuel (Lexer.advance (Lexer.advance self)));
      try exact I.
    apply IH, G. }
  destruct (Lexer.double_get Lexer.double_char_tokens c (Lexer.peek self 1))
    as [[token_type text]|].
  { split; [exact H | do 2 apply 位置合规_advance; exact H]. }
  destruct (Lexer.char_get Lexer.single_char_tokens c);
    (split; [exact H | apply 位置合规_advance, H]).
Qed.

Lemma 位置_tokenize_loop (fuel : nat) :
  forall self tokens,
    位置合规 self -> Forall 词位置合规 tokens ->
    若返回于 (Lexer.tokenize_loop fuel self tokens) (fun r _ => Forall 词位置合规 r).
Proof.
  induction fuel as [|fuel IH]; intros self tokens H Hall; [exact I|].
  cbn [Lexer.tokenize_loop]. unfold Lexer.bind.
  pose proof (位置_next_token fuel self H) as Ht.
  destruct (Lexer.next_token fuel self) as [token s| |]; try exact I.
  destruct Ht as [Ht Hs].
  assert (Hall' : Forall 词位置合规 (tokens ++ [token])).
  { apply Forall_app. split; [exact Hall | constructor; [exact Ht | constructor]]. }
  destruct (TokenType.eqb (Token.类型 token) TokenType.文件结束);
    [exact Hall' | apply IH; assumption].
Qed.

(** X27: the line and the column of every token that [tokenize] returns
    are at least 1, also after a number such as [1.] has made the scanner
    step back over the dot. *)
Theorem token_positions_start_at_one (source_code : string) (fuel : nat) :
  String.length source_code + 3 <= fuel ->
  match Lexer.tokenize fuel (Lexer.init source_code) with
  | Lexer.Ret tokens _ =>
    Forall (fun t => (1 <= Token.行号 t)%Z /\ (1 <= Token.列号 t)%Z) tokens
  | Lexer.Raise _ => True
  | Lexer.OutOfFuel => False
  end.
Proof.
  intros Hfuel.
  pose proof (后_tokenize_loop fuel (Lexer.init source_code) []
                (良构_init source_code)) as H.
  rewrite 文长_init in H. specialize (H ltac:(lia)).
  assert (Hi : 位置合规 (Lexer.init source_code)) by (split; simpl; lia).
  pose proof (位置_tokenize_loop fuel (Lexer.init source_code) [] Hi (Forall_nil _))
    as G.
  unfold Lexer.tokenize.
  destruct (Lexer.tokenize_loop fuel (Lexer.init source_code) []);
    simpl in H, G; auto.
Qed.

Lemma token_positions_start_at_one_witness :
  match Lexer.tokenize 9 (Lexer.init "1. + 2") with
  | Lexer.Ret tokens _ =>
    Forall (fun t => (1 <= Token.行号 t)%Z /\ (1 <= Token.列号 t)%Z) tokens
  | Lexer.Raise _ => True
  | Lexer.OutOfFuel => False
  end.
Proof. apply (token_positions_start_at_one "1. + 2" 9). simpl. lia. Defined.

(** ** Unary operations and string literals *)

(** X28: [check_unary_operation] accepts exactly a minus on the unknown
    type or on a numeric type, which it returns, and a negation of the
    unknown or the boolean type, for which it returns the boolean type. *)
Theorem unary_result_types
    (operator : TokenType.t) (operand result : 类型) :
  类型系统.check_unary_operation operator operand = Some result
  <-> (operator = TokenType.减
       /\ ((operand = 类型系统.未知类型 /\ result = 类型系统.未知类型)
           \/ (is_numeric operand = true /\ result = operand)))
      \/ (operator = TokenType.非
          /\ (operand = 类型系统.未知类型 \/ operand = 类型系统.布尔值类型)
          /\ result = 类型系统.布尔值类型).
Proof.
  split.
  - intros H. destruct operator; try discriminate H;
      destruct operand as [[]|a]; try discriminate H; injection H as <-;
      first
        [ left; split; [reflexivity|];
          first [left; split; reflexivity | right; split; reflexivity]
        | right; split; [reflexivity|];
          split; [first [left; reflexivity | right; reflexivity] | reflexivity] ].
  - intros [(-> & [(-> & ->) | (Hn & ->)]) | (-> & [-> | ->] & ->)];
      try reflexivity.
    destruct operand as [[]|a]; try discriminate Hn; reflexivity.
Qed.

Lemma ascii_eqb_false_sym (a b : ascii) :
  Ascii.eqb a b = false -> Ascii.eqb b a = false.
Proof. rewrite (Ascii.eqb_sym a b). auto. Qed.

Lemma 首_余文 (self : Lexer.t) (c : ascii) (s : string) :
  良构 self -> 余文 self = String c s -> Lexer.current_char self = Some c.
Proof. intros [_ H] E. rewrite H, E. reflexivity. Qed.

Lemma 余文_advance_tail (self : Lexer.t) (c : ascii) (s : string) :
  良构 self -> 余文 self = String c s ->
  良构 (Lexer.advance self) /\ 余文 (Lexer.advance self) = s.
Proof.
  intros Hwf E.
  destruct (文长_advance self c Hwf (首_余文 self c s Hwf E)) as (H1 & _ & _ & H2).
  split; [exact H1|]. rewrite E in H2. congruence.
Qed.

(** The loop of [read_string] over a body without the quote and without a
    backslash. *)
Lemma read_string_loop_plain (q : ascii) (rest : string) :
  forall body fuel self string_value,
    良构 self ->
    余文 self = (body ++ String q rest)%string ->
    all_chars (fun c => negb (Ascii.eqb c q) && negb (Ascii.eqb c BACKSLASH)) body
    = true ->
    String.length body < fuel ->
    exists s,
      Lexer.read_string_loop fuel self (Some q) string_value
      = Lexer.Ret (string_value ++ body)%string s
      /\ 良构 s /\ 余文 s = String q rest.
Proof.
  induction body as [|c body IH]; intros fuel self string_value Hwf E Hb Hfuel;
    (destruct fuel as [|fuel]; [simpl in Hfuel; lia|]);
    cbn [Lexer.read_string_loop]; simpl in E.
  - rewrite (首_余文 self q rest Hwf E). simpl.
    rewrite Ascii.eqb_refl. simpl. rewrite str_app_nil_r.
    exists self. auto.
  - rewrite (首_余文 self c _ Hwf E).
    simpl in Hb. apply andb_true_iff in Hb. destruct Hb as [Hc Hb].
    apply andb_true_iff in Hc. destruct Hc as [Hq Hs].
    apply negb_true_iff in Hq, Hs.
    simpl. rewrite (ascii_eqb_false_sym _ _ Hq), Hs. simpl.
    destruct (余文_advance_tail self c _ Hwf E) as [Hwf' E'].
    destruct (IH fuel (Lexer.advance self) (string_value ++ str1 c)%string
                Hwf' E' Hb ltac:(simpl in Hfuel; lia)) as (s & H1 & H2 & H3).
    exists s. rewrite H1, str_app_assoc. auto.
Qed.

(** X29: a string literal without a backslash is read verbatim: the token
    that [next_token] returns for [q body q], with [q] either quote and
    [body] free of [q] and of backslashes (it may hold newlines), is a
    string token whose value is [body], placed at the opening quote, and
    the scanner is left just after the closing quote. *)
Theorem plain_string_literal_is_verbatim
    (q : ascii) (body rest : string) (fuel : nat) :
  q = DQUOTE \/ q = SQUOTE ->
  all_chars (fun c => negb (Ascii.eqb c q) && negb (Ascii.eqb c BACKSLASH)) body
  = true ->
  String.length body + 2 <= fuel ->
  exists s,
    Lexer.next_token fuel (Lexer.init (String q (body ++ String q rest)))
    = Lexer.Ret (Token.mk TokenType.字符串 (VStr body) 1 1) s
    /\ 余文 s = rest.
Proof.
  intros Hq Hb Hfuel.
  destruct fuel as [|fuel]; [lia|].
  destruct (quote_dispatch q Hq) as (H1 & H2 & H3 & H4).
  set (self := Lexer.init (String q (body ++ String q rest))).
  assert (Hwf : 良构 self) by apply 良构_init.
  assert (E : 余文 self = String q (body ++ String q rest)) by reflexivity.
  pose proof (首_余文 self q _ Hwf E) as Hc.
  cbn [Lexer.next_token]. rewrite Hc, H1, H2, H3, H4. cbn [andb negb].
  unfold Lexer.read_string. rewrite Hc.
  destruct (余文_advance_tail self q _ Hwf E) as [Hwf' E'].
  destruct (read_string_loop_plain q rest body fuel (Lexer.advance self) ""
              Hwf' E' Hb ltac:(lia)) as (s & G1 & G2 & G3).
  rewrite G1. cbn [Lexer.bind].
  rewrite (首_余文 s q rest G2 G3), Ascii.eqb_refl.
  exists (Lexer.advance s). split; [reflexivity|].
  apply (余文_advance_tail s q rest G2 G3).
Qed.

Lemma plain_string_literal_is_verbatim_witness :
  exists s,
    Lexer.next_token 7
      (Lexer.init (String DQUOTE ("a'b c" ++ String DQUOTE " + 1")))
    = Lexer.Ret (Token.mk TokenType.字符串 (VStr "a'b c") 1 1) s
    /\ 余文 s = " + 1".
Proof.
  apply (plain_string_literal_is_verbatim DQUOTE "a'b c" " + 1" 7).
  - left. reflexivity.
  - reflexivity.
  - simpl. lia.
Defined.

(** ** Panic-mode recovery *)


